(** * x84.bbs.msgbase: the message base of x/84

    A shallow embedding of [x84/bbs/msgbase.py] and the properties of its
    message store, tag index, thread links and network dispatch.

    Conventions of the embedding.
    - The key-value engine behind [DBProxy] is an external collaborator.  A
      table is a finite map; every value read from or written to a table is a
      pickled copy, so tables hold snapshots and never alias the objects in
      memory.
    - The message table [MSGDB] is keyed by ['%d' % idx]; every key is read
      back with [int(key)].  The decimal rendering is a bijection with the
      integers, so the table is keyed by [Z].
    - The tag table [TAGDB] maps a tag to a set of message ids.
    - Every other table opened by name (transit and queue tables of the
      networks) lives in [db_net]; their names are taken from the
      configuration and are assumed to differ from [MSGDB] and [TAGDB].
    - A Python [set] of strings that the code iterates over ([Msg.tags]) is
      the list of its elements in iteration order; sets of ids, which are only
      tested for membership, are [gset Z].
    - [Msg.save] mutates [self] and the tables and may raise: it returns the
      updated object, the updated world and an [outcome].  Its recursion
      (parent re-save, dispatch re-save) is bounded by a fuel argument that
      plays the part of the interpreter's call stack. *)

From Stdlib Require Import ZArith Lia Ascii String Sorted.
From stdpp Require Import base gmap sets list strings pretty relations.

Local Open Scope Z_scope.
#[local] Set Warnings "-clear-no-such-hyp".

(** ** Data model *)

(** [datetime] values; only their identity matters here. *)
Definition time := Z.

(** The instance attributes of [Msg].  [idx] is the class attribute that
    [save] overrides on the instance.  A record pickled before [parent] or
    [children] existed is read with the defaults that lines 176-177 and
    184-186 give it. *)
Record Msg := mkMsg {
  idx : option Z;
  ctime : time;
  stime : option time;
  author : option string;
  recipient : option string;
  subject : string;
  body : string;
  tags : list string;
  children : gset Z;
  parent : option Z
}.

Definition with_idx (i : Z) (m : Msg) : Msg :=
  mkMsg (Some i) (ctime m) (stime m) (author m) (recipient m) (subject m)
        (body m) (tags m) (children m) (parent m).

Definition with_ctime (t : time) (m : Msg) : Msg :=
  mkMsg (idx m) t (stime m) (author m) (recipient m) (subject m)
        (body m) (tags m) (children m) (parent m).

Definition with_stime (t : time) (m : Msg) : Msg :=
  mkMsg (idx m) (ctime m) (Some t) (author m) (recipient m) (subject m)
        (body m) (tags m) (children m) (parent m).

Definition with_body (b : string) (m : Msg) : Msg :=
  mkMsg (idx m) (ctime m) (stime m) (author m) (recipient m) (subject m)
        b (tags m) (children m) (parent m).

Definition with_children (c : gset Z) (m : Msg) : Msg :=
  mkMsg (idx m) (ctime m) (stime m) (author m) (recipient m) (subject m)
        (body m) (tags m) c (parent m).

Definition with_parent (p : option Z) (m : Msg) : Msg :=
  mkMsg (idx m) (ctime m) (stime m) (author m) (recipient m) (subject m)
        (body m) (tags m) (children m) p.

(** [parent_msg.children.add(self.idx)] *)
Definition add_child (c : Z) (m : Msg) : Msg :=
  with_children (children m ∪ {[c]}) m.

(** Values of the per-network tables: [transdb[idx] = idx] stores an id,
    [queuedb[idx] = t] stores a tag. *)
Inductive netval :=
| NetId (i : Z)
| NetTag (t : string).

(** Calls on the module's [logger]. *)
Inductive logrec :=
| LogTagged (i : Z) (tag : string)
| LogUntagged (i : Z) (tag : string)
| LogStripParent
| LogOriginAdded (tag : string) (i : Z)
| LogQueued (tag : string) (i : Z)
| LogSaved (new public reply : bool) (recipient : option string).

(** Lock operations and writes on the tables, in the order they happen. *)
Inductive dbevent :=
| Acquire (table : string)
| Release (table : string)
| SetMsg (i : Z)
| SetTag (tag : string)
| SetNet (table : string) (i : Z).

Definition MSGDB : string := "msgbase".
Definition TAGDB : string := "tags".

(** The state [save] runs in.  [log] and [trace] are kept newest first.
    [ticks] counts the calls of [datetime.datetime.now()]. *)
Record World := mkWorld {
  db_msg : gmap Z Msg;
  db_tag : gmap string (gset Z);
  db_net : gmap string (gmap Z netval);
  ticks : nat;
  log : list logrec;
  trace : list dbevent
}.

Definition empty_world : World := mkWorld ∅ ∅ ∅ 0%nat [] [].

(** What surrounds the module: [ini.CFG] (section, option ↦ value) and the
    wall clock, given by its successive readings. *)
Record Env := mkEnv {
  cfg : string → string → option string;
  clock : nat → time
}.

Inductive exn :=
| AssertionError
| KeyError (key : Z)
| ConfigError (section option : string)
| NameError (name : string).

(** How a call ends.  [OutOfFuel] stands for a call stack deeper than the
    fuel given. *)
Inductive outcome :=
| Returned
| Raised (e : exn)
| OutOfFuel.

(** ** Primitive operations on the world *)

Definition emit (e : dbevent) (w : World) : World :=
  mkWorld (db_msg w) (db_tag w) (db_net w) (ticks w) (log w) (e :: trace w).

Definition logger (r : logrec) (w : World) : World :=
  mkWorld (db_msg w) (db_tag w) (db_net w) (ticks w) (r :: log w) (trace w).

(** [datetime.datetime.now()] *)
Definition now (env : Env) (w : World) : time * World :=
  (clock env (ticks w),
   mkWorld (db_msg w) (db_tag w) (db_net w) (S (ticks w)) (log w) (trace w)).

(** [db_msg['%d' % i] = m] *)
Definition msg_set (i : Z) (m : Msg) (w : World) : World :=
  mkWorld (<[i := m]> (db_msg w)) (db_tag w) (db_net w) (ticks w) (log w)
          (SetMsg i :: trace w).

(** [db_tag[tag] = msgs] *)
Definition tag_set (tag : string) (msgs : gset Z) (w : World) : World :=
  mkWorld (db_msg w) (<[tag := msgs]> (db_tag w)) (db_net w) (ticks w) (log w)
          (SetTag tag :: trace w).

(** [DBProxy(table)[i] = v] for a network table *)
Definition net_set (table : string) (i : Z) (v : netval) (w : World) : World :=
  mkWorld (db_msg w) (db_tag w)
          (<[table := <[i := v]> (default ∅ (db_net w !! table))]> (db_net w))
          (ticks w) (log w) (SetNet table i :: trace w).

(** [[int(key) for key in db_msg.keys()]] *)
Definition msg_keys (w : World) : list Z := (map_to_list (db_msg w)).*1.

(** [max(l or [-1])] *)
Definition max_or_minus1 (l : list Z) : Z :=
  match l with
  | [] => -1
  | k :: ks => foldl Z.max k ks
  end.

(** ** Module-level functions *)

(** The names bound at module level that the functions below look up. *)
Definition module_globals : list (string * string) :=
  [("MSGDB"%string, MSGDB); ("TAGDB"%string, TAGDB)].

Fixpoint lookup_global (name : string) (g : list (string * string))
  : option string :=
  match g with
  | [] => None
  | (n, v) :: g' => if String.eqb n name then Some v else lookup_global name g'
  end.

(** [ConfigParser.get]: raises when the section or the option is missing. *)
Definition cfg_get (env : Env) (section option : string) : exn + string :=
  match cfg env section option with
  | Some v => inr v
  | None => inl (ConfigError section option)
  end.

(** [ConfigParser.has_option] *)
Definition has_option (env : Env) (section option : string) : bool :=
  match cfg env section option with Some _ => true | None => false end.

(** [get_origin_line()], lines 37-43 *)
Definition get_origin_line (env : Env) : exn + string :=
  if has_option env "msg" "origin_line" then cfg_get env "msg" "origin_line"
  else match cfg_get env "system" "bbsname" with
       | inr name => inr ("Sent from " +:+ name)
       | inl e => inl e
       end.

(** The text [u'\r\n---\r\n']. *)
Definition origin_rule : string :=
  String "013"%char (String "010"%char
    ("---" +:+ String "013"%char (String "010"%char ""))).

(** [format_origin_line()], lines 45-46 *)
Definition format_origin_line (env : Env) : exn + string :=
  match get_origin_line env with
  | inr line => inr (origin_rule +:+ line)
  | inl e => inl e
  end.

(** [get_msg(idx)], lines 48-53: a missing key raises [KeyError]. *)
Definition get_msg (i : Z) (w : World) : exn + Msg :=
  match db_msg w !! i with
  | Some m => inr m
  | None => inl (KeyError i)
  end.

(** [list_msgs(tags=None)], lines 56-66 *)
Definition list_msgs (tgs : option (list string)) (w : World) : gset Z :=
  match tgs with
  | Some ts =>
      if negb (length ts =? 0)%nat then
        foldl (λ msgs tag, msgs ∪ default ∅ (db_tag w !! tag)) ∅
              (filter (λ tag, tag ∈ dom (db_tag w)) ts)
      else list_to_set (msg_keys w)
  | None => list_to_set (msg_keys w)
  end.

(** The keys of the table that [DBProxy(name)] opens, as strings. *)
Definition table_keys (name : string) (w : World) : list string :=
  if String.eqb name TAGDB then (map_to_list (db_tag w)).*1
  else if String.eqb name MSGDB then pretty <$> msg_keys w
  else pretty <$> (map_to_list (default ∅ (db_net w !! name))).*1.

(** [list_tags()], lines 69-74.  The table name is read from the global
    [TABDB]. *)
Definition list_tags (w : World) : exn + list string :=
  match lookup_global "TABDB" module_globals with
  | Some name => inr (table_keys name w)
  | None => inl (NameError "TABDB")
  end.

(** ** String helpers used on configuration values *)

(** [s.split(',')]: always at least one piece. *)
Fixpoint split_on (sep : ascii) (s : string) : list string :=
  match s with
  | EmptyString => [EmptyString]
  | String c s' =>
      if Ascii.eqb c sep then EmptyString :: split_on sep s'
      else match split_on sep s' with
           | [] => [String c EmptyString]
           | piece :: pieces => String c piece :: pieces
           end
  end.

(** The characters [str.strip()] removes: tab, newline, vertical tab, form
    feed, carriage return and space. *)
Definition is_space (c : ascii) : bool :=
  let n := nat_of_ascii c in
  ((9 <=? n) && (n <=? 13) || (n =? 32))%nat.

Fixpoint lstrip (s : string) : string :=
  match s with
  | String c s' => if is_space c then lstrip s' else s
  | EmptyString => EmptyString
  end.

Fixpoint rstrip (s : string) : string :=
  match s with
  | EmptyString => EmptyString
  | String c s' =>
      match rstrip s' with
      | EmptyString => if is_space c then EmptyString else String c EmptyString
      | rest => String c rest
      end
  end.

(** [s.strip()] *)
Definition strip (s : string) : string := rstrip (lstrip s).

(** [[key.strip() for key in value.split(',')]] *)
Definition parse_tag_list (value : string) : list string :=
  strip <$> split_on ","%char value.

(** ** [Msg.save] *)

Definition result : Type := Msg * World * outcome.

(** Sequencing: what follows runs only when the step before returned. *)
Definition and_then (r : result) (k : Msg → World → result) : result :=
  match r with
  | (m, w, Returned) => k m w
  | _ => r
  end.

Notation "r >>> k" := (and_then r k) (at level 61, left associativity).

(** [self.idx is None or self._stime is None], line 145 *)
Definition is_new (m : Msg) : bool :=
  match idx m, stime m with
  | Some _, Some _ => false
  | _, _ => true
  end.

(** Lines 145-156: under the lock of the message table, a new message gets
    its id and its save time, and the record is written under its id.
    Returns the flag [new] and the id along with the object and the world. *)
Definition persist (env : Env) (ct : option time) (m : Msg) (w : World)
  : bool * Z * Msg * World :=
  let w := emit (Acquire MSGDB) w in
  match idx m, stime m with
  | Some i, Some _ =>
      (false, i, m, emit (Release MSGDB) (msg_set i m w))
  | _, _ =>
      let i := max_or_minus1 (msg_keys w) + 1 in
      let m := with_idx i m in
      let '(m, w) :=
        match ct with
        | Some c => (with_stime c (with_ctime c m), w)
        | None => let '(t, w) := now env w in (with_stime t m, w)
        end in
      (true, i, m, emit (Release MSGDB) (msg_set i m w))
  end.

(** One turn of the loop of lines 162-170. *)
Definition reconcile_entry (i : Z) (tgs : list string) (w : World)
    (item : string * gset Z) : World :=
  let '(tag, msgs) := item in
  if bool_decide (tag ∈ tgs) && negb (bool_decide (i ∈ msgs)) then
    logger (LogTagged i tag) (tag_set tag (msgs ∪ {[i]}) w)
  else if negb (bool_decide (tag ∈ tgs)) && bool_decide (i ∈ msgs) then
    logger (LogUntagged i tag) (tag_set tag (msgs ∖ {[i]}) w)
  else w.

(** Lines 159-173: the tag table is brought in line with the tags of the
    message, under the lock of the tag table. *)
Definition reconcile (i : Z) (m : Msg) (w : World) : World :=
  let w := emit (Acquire TAGDB) w in
  let w := foldl (reconcile_entry i (tags m)) w (map_to_list (db_tag w)) in
  let fresh := filter (λ tag, tag ∉ dom (db_tag w)) (tags m) in
  let w := foldl (λ w tag, tag_set tag {[i]} w) w fresh in
  emit (Release TAGDB) w.

(** [self.parent not in self.children], the condition asserted at line 178
    (assertions are taken as enabled). *)
Definition parent_not_child (m : Msg) : bool :=
  match parent m with
  | Some p => negb (bool_decide (p ∈ children m))
  | None => true
  end.

Section SaveBody.

(** The recursive calls [parent_msg.save()] and [self.save()]. *)
Variable rec : bool → option time → Msg → World → result.
Variable env : Env.

(** Lines 176-194: the message becomes a child of its parent, which is
    saved in turn; a message that is its own parent loses the link. *)
Definition thread_step (i : Z) (m : Msg) (w : World) : result :=
  if negb (parent_not_child m) then (m, w, Raised AssertionError)
  else match parent m with
       | None => (m, w, Returned)
       | Some p =>
           match get_msg p w with
           | inl e => (m, w, Raised e)
           | inr parent_msg =>
               if bool_decide (Some i ≠ idx parent_msg) then
                 let parent_msg := add_child i parent_msg in
                 let '(_, w, out) := rec false None parent_msg w in
                 (m, w, out)
               else
                 let w := logger LogStripParent w in
                 let m := with_parent None m in
                 let w := emit (Acquire MSGDB) w in
                 let w := msg_set i m w in
                 let w := emit (Release MSGDB) w in
                 (m, w, Returned)
           end
       end.

(** The loop of lines 210-230 over the tags of the message. *)
Fixpoint route (networks server_tags : list string) (origin_line : string)
    (i : Z) (ts : list string) (m : Msg) (w : World) : result :=
  match ts with
  | [] => (m, w, Returned)
  | t :: ts' =>
      if bool_decide (t ∈ server_tags) then
        match cfg_get env ("msgnet_" +:+ t) "trans_db_name" with
        | inl e => (m, w, Raised e)
        | inr transdb_name =>
            let w := emit (Acquire transdb_name) w in
            let m := with_body (body m +:+ origin_line) m in
            rec false None m w >>> λ m w,
            let w := net_set transdb_name i (NetId i) w in
            let w := emit (Release transdb_name) w in
            (m, logger (LogOriginAdded t i) w, Returned)
        end
      else if bool_decide (t ∈ networks) then
        match cfg_get env ("msgnet_" +:+ t) "queue_db_name" with
        | inl e => (m, w, Raised e)
        | inr queuedb_name =>
            let w := emit (Acquire queuedb_name) w in
            let w := net_set queuedb_name i (NetTag t) w in
            let w := emit (Release queuedb_name) w in
            (m, logger (LogQueued t i) w, Returned)
        end
      else route networks server_tags origin_line i ts' m w
  end.

(** Lines 197-231, entered when [not noqueue and new]. *)
Definition dispatch (i : Z) (m : Msg) (w : World) : result :=
  if negb (has_option env "msg" "network_tags") then (m, w, Returned)
  else match cfg_get env "msg" "network_tags" with
       | inl e => (m, w, Raised e)
       | inr networks_ini =>
           let networks := parse_tag_list networks_ini in
           if (length networks =? 0)%nat then (m, w, Returned)
           else
             let server_tags :=
               if has_option env "msg" "server_tags" then
                 match cfg_get env "msg" "server_tags" with
                 | inr servers_ini => parse_tag_list servers_ini
                 | inl _ => []
                 end
               else [] in
             match format_origin_line env with
             | inl e => (m, w, Raised e)
             | inr origin_line =>
                 route networks server_tags origin_line i (tags m) m w
             end
       end.

(** The body of [save], lines 135-237. *)
Definition save_body (noqueue : bool) (ct : option time) (m : Msg)
    (w : World) : result :=
  match cfg_get env "system" "datapath" with
  | inl e => (m, w, Raised e)
  | inr _ =>
      let '(new, i, m, w) := persist env ct m w in
      let w := reconcile i m w in
      thread_step i m w >>> λ m w,
      (if negb noqueue && new then dispatch i m w else (m, w, Returned))
      >>> λ m w,
      (m,
       logger (LogSaved new (bool_decide ("public"%string ∈ tags m))
                        (bool_decide (parent m ≠ None)) (recipient m)) w,
       Returned)
  end.

End SaveBody.

(** [Msg.save(noqueue, ctime)].  Each level of fuel is one frame of the call
    stack. *)
Fixpoint save (fuel : nat) (env : Env) (noqueue : bool) (ct : option time)
    (m : Msg) (w : World) : result :=
  match fuel with
  | O => (m, w, OutOfFuel)
  | S fuel' => save_body (save fuel' env) env noqueue ct m w
  end.

(** [Msg(recipient, subject, body)], lines 119-133; [handle] is the handle of
    the session, if there is one. *)
Definition Msg_init (env : Env) (handle : option string)
    (recipient : option string) (subject body : string) (w : World)
  : Msg * World :=
  let '(t, w) := now env w in
  (mkMsg None t None handle recipient subject body [] ∅ None, w).

(** * Vocabulary of the properties and example data *)

(** The id [save] mints next in world [w]. *)
Definition next_id (w : World) : Z := max_or_minus1 (msg_keys w) + 1.

(** The member set that lines 163-170 leave for a tag of the table. *)
Definition reconciled (i : Z) (tgs : list string) (tag : string)
    (msgs : gset Z) : gset Z :=
  if decide (tag ∈ tgs) then msgs ∪ {[i]} else msgs ∖ {[i]}.

(** The object, the world and the outcome of a result. *)
Definition res_msg (r : result) : Msg := r.1.1.
Definition res_world (r : result) : World := r.1.2.
Definition res_out (r : result) : outcome := r.2.

(** The record a new message is persisted as. *)
Definition stamped (env : Env) (ct : option time) (m : Msg) (w : World)
  : Msg :=
  match ct with
  | Some c => with_stime c (with_ctime c (with_idx (next_id w) m))
  | None => with_stime (clock env (ticks w)) (with_idx (next_id w) m)
  end.

(** [extends w w']: every key of the message and tag tables of [w] is still
    a key in [w'], and the log and the trace of [w'] continue those of [w]. *)
Definition extends (w w' : World) : Prop :=
  dom (db_msg w) ⊆ dom (db_msg w') ∧
  dom (db_tag w) ⊆ dom (db_tag w') ∧
  trace w `suffix_of` trace w' ∧
  log w `suffix_of` log w' ∧
  (ticks w ≤ ticks w')%nat.

#[export] Instance extends_preorder : PreOrder extends.
Proof.
  split.
  - intros w. repeat split; done.
  - intros w1 w2 w3 (?&?&?&?&?) (?&?&?&?&?).
    repeat split; first [etrans; done | lia].
Qed.

(** [same_identity m m']: [m'] is [m] up to body and parent. *)
Definition same_identity (m m' : Msg) : Prop :=
  idx m' = idx m ∧ ctime m' = ctime m ∧ stime m' = stime m ∧
  author m' = author m ∧ recipient m' = recipient m ∧
  subject m' = subject m ∧ tags m' = tags m ∧ children m' = children m.

#[export] Instance same_identity_preorder : PreOrder same_identity.
Proof.
  split.
  - intros m. repeat split.
  - intros m1 m2 m3 (?&?&?&?&?&?&?&?) (?&?&?&?&?&?&?&?).
    repeat split; congruence.
Qed.

(** A call of [save], as a caller makes it. *)
Record request := mkRequest {
  req_noqueue : bool;
  req_ctime : option time;
  req_msg : Msg
}.

(** The id a save gave its message: the message went in new and came back
    with an id and a save time. *)
Definition minted (before after : Msg) : option Z :=
  if is_new before && negb (is_new after) then idx after else None.

(** A sequence of saves, one after the other; returns the ids minted, in
    the order of the saves. *)
Fixpoint run_saves (fuel : nat) (env : Env) (reqs : list request) (w : World)
  : list Z * World :=
  match reqs with
  | [] => ([], w)
  | q :: reqs' =>
      let r := save fuel env (req_noqueue q) (req_ctime q) (req_msg q) w in
      let '(ids, w') := run_saves fuel env reqs' (res_world r) in
      (match minted (req_msg q) (res_msg r) with
       | Some i => i :: ids
       | None => ids
       end, w')
  end.

(** Every record of the message table sits under its own id and has been
    saved.  [save] writes no other record (see [save_wf]). *)
Definition wf_store (w : World) : Prop :=
  map_Forall (λ k r, idx r = Some k ∧ is_Some (stime r)) (db_msg w).

(** The changes that the re-save of a stored record makes to the tables:
    a record gains a child, a record loses its parent, the tag table is put
    in line with a stored record, or no table changes. *)
Inductive step (w w' : World) : Prop :=
| step_child (p : Z) (r : Msg) (c : Z) :
    db_msg w !! p = Some r →
    db_msg w' = <[p := add_child c r]> (db_msg w) →
    db_tag w' = db_tag w → db_net w' = db_net w → step w w'
| step_strip (j : Z) (r : Msg) :
    db_msg w !! j = Some r →
    db_msg w' = <[j := with_parent None r]> (db_msg w) →
    db_tag w' = db_tag w → db_net w' = db_net w → step w w'
| step_tags (j : Z) (r : Msg) :
    db_msg w !! j = Some r →
    db_msg w' = db_msg w →
    db_tag w' = db_tag (reconcile j r w) →
    db_net w' = db_net w → step w w'
| step_quiet :
    db_msg w' = db_msg w → db_tag w' = db_tag w → db_net w' = db_net w →
    step w w'.

(** The changes that the save of the message [m] makes besides: the record
    of [m] itself is written, up to body and parent, and the tag table put
    in line with it; or a network table is written. *)
Inductive run (m : Msg) (w w' : World) : Prop :=
| run_self (i : Z) (x : Msg) :
    idx m = Some i → same_identity m x → is_Some (stime x) →
    db_msg w' = <[i := x]> (db_msg w) →
    db_tag w' = db_tag (reconcile i x w) →
    db_net w' = db_net w → run m w w'
| run_net :
    db_msg w' = db_msg w → db_tag w' = db_tag w → run m w w'
| run_step : step w w' → run m w w'.

(** Every tag of a stored message is a key of the tag table.  True of the
    empty store and kept by every save (see [save_tags_indexed]). *)
Definition tags_indexed (w : World) : Prop :=
  ∀ k r t, db_msg w !! k = Some r → t ∈ tags r → t ∈ dom (db_tag w).

(** The tag table is in line with the message of id [i] and tags [tg];
    [fresh] are tags of [tg] that only this message carries. *)
Record tag_inv (i : Z) (tg fresh : list string) (w : World) : Prop := {
  ti_stored : ∀ r, db_msg w !! i = Some r → tags r = tg;
  ti_known : ∀ t, t ∈ tg → t ∈ dom (db_tag w);
  ti_member : ∀ t s, db_tag w !! t = Some s → (i ∈ s ↔ t ∈ tg);
  ti_others : ∀ j r t, j ≠ i → db_msg w !! j = Some r → t ∈ fresh →
                       t ∉ tags r;
  ti_fresh : ∀ t, t ∈ fresh → db_tag w !! t = Some {[i]}
}.

(** The tags of a message that the tag table does not hold before the
    save. *)
Definition fresh_tags (m : Msg) (w : World) : list string :=
  filter (λ tag, tag ∉ dom (db_tag w)) (tags m).

(** [holds_at k Q w]: the message table has a record under [k], and it
    satisfies [Q]. *)
Definition holds_at (k : Z) (Q : Msg → Prop) (w : World) : Prop :=
  ∃ r, db_msg w !! k = Some r ∧ Q r.

(** Properties of a record that gaining a child or losing the parent keep. *)
Definition stable (Q : Msg → Prop) : Prop :=
  (∀ r c, Q r → Q (add_child c r)) ∧ (∀ r, Q r → Q (with_parent None r)).

(** The call returned, or a configuration lookup raised. *)
Definition config_or_returned (out : outcome) : Prop :=
  out = Returned ∨ ∃ s o, out = Raised (ConfigError s o).

(** The server tags of the configuration, as lines 205-208 read them. *)
Definition server_tags_of (env : Env) : list string :=
  match cfg env "msg" "server_tags" with
  | Some servers_ini => parse_tag_list servers_ini
  | None => []
  end.

(** The network tables after [DBProxy(table)[i] = v]. *)
Definition net_insert (table : string) (i : Z) (v : netval)
    (N : gmap string (gmap Z netval)) : gmap string (gmap Z netval) :=
  <[table := <[i := v]> (default ∅ (N !! table))]> N.

(** [t] takes no part in routing: it is neither a server tag nor a network
    tag. *)
Definition unrouted (networks servers : list string) (t : string) : Prop :=
  (t ∉ servers) ∧ (t ∉ networks).

(** [chain_ends d i h o]: the parent links of the table [d], followed from
    the parent [o] of the message of id [i], end within [h] links: at no
    parent at all, at an id without a record, or at a message that names
    itself as parent. *)
Inductive chain_ends (d : gmap Z Msg) : Z → nat → option Z → Prop :=
| chain_none (i : Z) (h : nat) : chain_ends d i h None
| chain_missing (i : Z) (h : nat) (p : Z) :
    d !! p = None → chain_ends d i h (Some p)
| chain_self (i : Z) (h : nat) : chain_ends d i h (Some i)
| chain_link (i : Z) (h : nat) (p : Z) (r : Msg) :
    d !! p = Some r → chain_ends d p h (parent r) →
    chain_ends d i (S h) (Some p).

(** [d'] has the keys of [d], and every record of [d'] has the parent it
    has in [d], or none. *)
Definition link_le (d' d : gmap Z Msg) : Prop :=
  ∀ k, match d' !! k with
       | Some r' => ∃ r, d !! k = Some r ∧
                         (parent r' = parent r ∨ parent r' = None)
       | None => d !! k = None
       end.

(** A call that exhausts every call stack: the recursion never ends, and
    nothing is raised. *)
Definition diverges (env : Env) (nq : bool) (ct : option time) (m : Msg)
    (w : World) : Prop :=
  ∀ fuel, res_out (save fuel env nq ct m w) = OutOfFuel.

(** Messages 0, 1 and 2 with parents 2, 0 and 1. *)
Definition cycle_parent (k : Z) : Z := (k + 2) mod 3.
Definition cycle_child (k : Z) : Z := (k + 1) mod 3.

(** [x] is a saved version of message [k] of the cycle: at most the
    message that replies to it is among its children. *)
Definition on_cycle (k : Z) (x : Msg) : Prop :=
  idx x = Some k ∧ is_Some (stime x) ∧
  parent x = Some (cycle_parent k) ∧ children x ⊆ {[cycle_child k]}.

(** The tag table and the message table agree: an id is a member of a tag
    exactly when the record stored under the id carries the tag. *)
Definition tag_consistent (w : World) : Prop :=
  ∀ t i, (∃ s, db_tag w !! t = Some s ∧ i ∈ s) ↔
         (∃ r, db_msg w !! i = Some r ∧ t ∈ tags r).

(** How often the lock of [table] is held at the end of a trace: its
    acquires less its releases. *)
Fixpoint held (table : string) (tr : list dbevent) : Z :=
  match tr with
  | [] => 0
  | Acquire t :: tr' => (if String.eqb t table then 1 else 0) + held table tr'
  | Release t :: tr' => (if String.eqb t table then -1 else 0) + held table tr'
  | _ :: tr' => held table tr'
  end.

(** No transit or queue table of the configuration is named [table]. *)
Definition not_a_net_table (env : Env) (table : string) : Prop :=
  ∀ section name,
    cfg env section "trans_db_name" = Some name ∨
    cfg env section "queue_db_name" = Some name →
    name ≠ table.

(** The calls a lock property is about: with [strict] those that return,
    without [strict] every call. *)
Definition lock_case (strict : bool) (out : outcome) : Prop :=
  if strict then out = Returned else True.

(** [c in s] *)
Fixpoint has_char (c : ascii) (s : string) : bool :=
  match s with
  | EmptyString => false
  | String c' s' => Ascii.eqb c' c || has_char c s'
  end.

(** A string that [strip] leaves as it is and that holds no comma: what an
    element of a parsed tag list looks like. *)
Definition plain_tag (t : string) : Prop :=
  strip t = t ∧ has_char ","%char t = false.

(** A string that is empty or starts with a character [strip] keeps. *)
Definition starts_clean (s : string) : Prop :=
  match s with
  | EmptyString => True
  | String c _ => is_space c = false
  end.

(** The envelope and the text of [r'] are those of [r]; of the thread links,
    [r'] has the children of [r] and maybe more, and the parent of [r] or
    none. *)
Definition links_grown (r r' : Msg) : Prop :=
  idx r' = idx r ∧ ctime r' = ctime r ∧ stime r' = stime r ∧
  author r' = author r ∧ recipient r' = recipient r ∧
  subject r' = subject r ∧ body r' = body r ∧ tags r' = tags r ∧
  children r ⊆ children r' ∧
  (parent r' = parent r ∨ parent r' = None).

(** The discipline of a trace (newest event first): a table is written only
    while its lock is held, and the lock of the message table or of the tag
    table is acquired only while neither of the two is held. *)
Fixpoint disciplined (tr : list dbevent) : bool :=
  match tr with
  | [] => true
  | e :: post =>
      match e with
      | Acquire t =>
          if String.eqb t MSGDB || String.eqb t TAGDB then
            (held MSGDB post =? 0) && (held TAGDB post =? 0)
          else true
      | Release _ => true
      | SetMsg _ => 0 <? held MSGDB post
      | SetTag _ => 0 <? held TAGDB post
      | SetNet table _ => 0 <? held table post
      end && disciplined post
  end.

(** A disciplined trace at whose end the locks of the message table and of
    the tag table are free, and no lock has been released more often than
    acquired. *)
Definition lock_ok (tr : list dbevent) : Prop :=
  disciplined tr = true ∧ held MSGDB tr = 0 ∧ held TAGDB tr = 0 ∧
  ∀ t, 0 ≤ held t tr.

(** Every child link of the table is answered by a parent link: when a
    record lists [c] among its children, [c] has a record, and that record
    names the first as its parent. *)
Definition links_ok (d : gmap Z Msg) : Prop :=
  ∀ p r c, d !! p = Some r → c ∈ children r →
           ∃ rc, d !! c = Some rc ∧ parent rc = Some p.

(** Every parent link of the table is answered by a child link, and leads
    to an older message: when a record names [p] as its parent, [p] is a
    smaller id, it has a record, and that record lists the first among its
    children. *)
Definition parents_ok (d : gmap Z Msg) : Prop :=
  ∀ c rc p, d !! c = Some rc → parent rc = Some p →
            p < c ∧ ∃ rp, d !! p = Some rp ∧ c ∈ children rp.

(** No record of the table names [i] as its parent. *)
Definition unnamed (i : Z) (d : gmap Z Msg) : Prop :=
  ∀ c rc, d !! c = Some rc → parent rc ≠ Some i.

(** The stores that callers build from the empty one by saving messages as
    [Msg(...)] makes them, with tags and a parent set: each message is new,
    lists no children, and its parent, if it names one, is a stored message
    or the id it is about to get.  Two frames of fuel are the least for
    which a reply saves its parent. *)
Inductive built (env : Env) : World → Prop :=
| built_empty : built env empty_world
| built_save (fuel : nat) (nq : bool) (ct : option time) (m : Msg)
    (w : World) :
    built env w →
    is_new m = true → children m = ∅ →
    (∀ p, parent m = Some p → p = next_id w ∨ p ∈ dom (db_msg w)) →
    built env (res_world (save (S (S fuel)) env nq ct m w)).

(** ** Example data *)

(** A configuration given as a list of (section, option, value). *)
Fixpoint cfg_lookup (l : list (string * string * string)) (sect opt : string)
  : option string :=
  match l with
  | [] => None
  | (s, o, v) :: l' =>
      if String.eqb s sect && String.eqb o opt then Some v
      else cfg_lookup l' sect opt
  end.

(** A node that hosts the network [local] and forwards to [fidonet] and
    [x84net]. *)
Definition demo_cfg : list (string * string * string) :=
  [("system", "datapath", "/var/x84"); ("system", "bbsname", "x84");
   ("msg", "network_tags", "fidonet, x84net, local");
   ("msg", "server_tags", "local");
   ("msgnet_local", "trans_db_name", "localtrans");
   ("msgnet_fidonet", "queue_db_name", "fidoqueue");
   ("msgnet_x84net", "queue_db_name", "x84queue")]%string.

Definition demo_env : Env :=
  mkEnv (cfg_lookup demo_cfg) (λ n, 1000 + Z.of_nat n).

Definition msg_hello : Msg :=
  mkMsg None 1 None (Some "alice") (Some "bob") "hi" "hello"
        ["public"] ∅ None.

Definition msg_reply : Msg :=
  mkMsg None 2 None (Some "bob") (Some "alice") "re: hi" "hello too"
        ["offtopic"; "public"] ∅ (Some 0).

Definition msg_third : Msg :=
  mkMsg None 3 None (Some "carol") (Some "bob") "re: re: hi" "and me"
        ["public"] ∅ (Some 1).

(** Three saves in a row: a message, a reply to it, a reply to the reply. *)
Definition saved_hello : result :=
  save 3 demo_env false None msg_hello empty_world.
Definition saved_reply : result :=
  save 3 demo_env false None msg_reply (res_world saved_hello).
Definition saved_third : result :=
  save 4 demo_env false None msg_third (res_world saved_reply).

(** Two messages for the hosted network that are also tagged for a
    forwarded one: the set of the first yields [local] first, the set of
    the second yields [x84net] first. *)
Definition msg_local : Msg :=
  mkMsg None 4 None (Some "dave") None "news" "text"
        ["local"; "fidonet"] ∅ None.
Definition msg_cross : Msg :=
  mkMsg None 4 None (Some "dave") None "news" "text"
        ["x84net"; "local"] ∅ None.

(** A new message that names the id it is about to get as its parent. *)
Definition msg_selfnew : Msg :=
  mkMsg None 5 None (Some "erin") None "loop" "text" ["local"] ∅ (Some 1).

(** The first message again, now its own parent and its own child. *)
Definition msg_selfchild : Msg :=
  with_children {[0]} (with_parent (Some 0) (res_msg saved_hello)).

(** A new reply to message 0 that also lists message 0 as a child. *)
Definition msg_knot : Msg :=
  mkMsg None 6 None (Some "finn") None "knot" "text" [] {[0]} (Some 0).

(** The first message as its caller holds it, made a reply to message 2. *)
Definition msg_hello_cycled : Msg :=
  with_parent (Some 2) (res_msg saved_hello).

Definition demo_requests : list request :=
  [mkRequest false None msg_hello; mkRequest false None msg_reply;
   mkRequest true (Some 7) msg_third].

(** A node that only forwards to [fidonet], and one that only hosts
    [local]. *)
Definition fido_env : Env :=
  mkEnv (cfg_lookup [("system", "datapath", "/var/x84");
                     ("system", "bbsname", "x84");
                     ("msg", "network_tags", "fidonet");
                     ("msg", "server_tags", "");
                     ("msgnet_fidonet", "queue_db_name", "fidoqueue")]%string)
        (λ n, 1000 + Z.of_nat n).

Definition local_env : Env :=
  mkEnv (cfg_lookup [("system", "datapath", "/var/x84");
                     ("msg", "origin_line", "Sent from afar");
                     ("msg", "network_tags", "local");
                     ("msg", "server_tags", "local");
                     ("msgnet_local", "trans_db_name", "localtrans")]%string)
        (λ n, 1000 + Z.of_nat n).

Definition msg_fido : Msg :=
  mkMsg None 1 None (Some "alice") None "s" "body" ["fidonet"] ∅ None.

Definition msg_hosted : Msg :=
  mkMsg None 1 None (Some "alice") None "s" "body" ["local"] ∅ None.

(** A reply to message 7, which the store does not hold. *)
Definition msg_stray : Msg :=
  mkMsg None 8 None (Some "gail") None "re: lost" "text" ["public"] ∅ (Some 7).

(** A configuration with network tags and no way to make an origin line. *)
Definition mute_env : Env :=
  mkEnv (cfg_lookup [("system", "datapath", "/var/x84");
                     ("msg", "network_tags", "fidonet")]%string)
        (λ n, 1000 + Z.of_nat n).

(** A message tagged for [fidonet] with a blank in front. *)
Definition msg_blank : Msg :=
  mkMsg None 9 None (Some "hugo") None "s" "body" [" fidonet"] ∅ None.

(** A configuration that names [fidonet] as a network and no queue table
    for it. *)
Definition bare_env : Env :=
  mkEnv (cfg_lookup [("system", "datapath", "/var/x84");
                     ("system", "bbsname", "x84");
                     ("msg", "network_tags", "fidonet")]%string)
        (λ n, 1000 + Z.of_nat n).

(** * Properties *)

(** ** Keys of the message table and the next id *)

Lemma elem_of_msg_keys (w : World) (k : Z) :
  k ∈ msg_keys w ↔ k ∈ dom (db_msg w).
Proof.
  unfold msg_keys. rewrite elem_of_dom, list_elem_of_fmap. split.
  - intros [[k' r] [-> Hin]]. apply elem_of_map_to_list in Hin. by exists r.
  - intros [r Hr]. exists (k, r). split; [done|]. by apply elem_of_map_to_list.
Qed.

Lemma msg_keys_dom (w : World) : list_to_set (msg_keys w) = dom (db_msg w).
Proof.
  apply set_eq. intros k. rewrite elem_of_list_to_set. apply elem_of_msg_keys.
Qed.

Lemma foldl_max_ge (l : list Z) (a : Z) :
  a ≤ foldl Z.max a l ∧ ∀ k, k ∈ l → k ≤ foldl Z.max a l.
Proof.
  revert a. induction l as [|x l IH]; intros a; simpl.
  - split; [lia|]. intros k Hk. by apply elem_of_nil in Hk.
  - destruct (IH (Z.max a x)) as [Ha Hl]. split; [lia|].
    intros k Hk. apply elem_of_cons in Hk as [->|Hk]; [lia|auto].
Qed.

Lemma max_or_minus1_ge (l : list Z) (k : Z) : k ∈ l → k ≤ max_or_minus1 l.
Proof.
  destruct l as [|x l]; simpl.
  - intros Hk. by apply elem_of_nil in Hk.
  - destruct (foldl_max_ge l x) as [Hx Hl].
    intros Hk. apply elem_of_cons in Hk as [->|Hk]; auto.
Qed.

Lemma next_id_fresh (w : World) (k : Z) : k ∈ dom (db_msg w) → k < next_id w.
Proof.
  intros Hk. apply elem_of_msg_keys, max_or_minus1_ge in Hk.
  unfold next_id. lia.
Qed.

Lemma next_id_empty (w : World) : db_msg w = ∅ → next_id w = 0.
Proof.
  intros He. unfold next_id, msg_keys. rewrite He, map_to_list_empty. done.
Qed.

(** ** [list_msgs] *)

Lemma elem_of_tag_union (T : gmap string (gset Z)) (ts : list string)
    (acc : gset Z) (i : Z) :
  i ∈ foldl (λ msgs tag, msgs ∪ default ∅ (T !! tag)) acc ts ↔
  i ∈ acc ∨ ∃ tag s, tag ∈ ts ∧ T !! tag = Some s ∧ i ∈ s.
Proof.
  revert acc. induction ts as [|t ts IH]; intros acc; simpl.
  - split; [auto|]. intros [?|(tag & s & Hin & _)]; [done|].
    by apply elem_of_nil in Hin.
  - rewrite IH, elem_of_union. split.
    + intros [[?|Hd]|(tag & s & Hin & Hs & Hi)]; [by left| |].
      * destruct (T !! t) as [s|] eqn:Ht; simpl in Hd; [|set_solver].
        right. exists t, s. split; [left|done].
      * right. exists tag, s. split; [by right|done].
    + intros [?|(tag & s & Hin & Hs & Hi)]; [by left; left|].
      apply elem_of_cons in Hin as [->|Hin].
      * left; right. by rewrite Hs.
      * right. by exists tag, s.
Qed.

Lemma elem_of_list_msgs_tags (w : World) (t : string) (ts : list string)
    (i : Z) :
  i ∈ list_msgs (Some (t :: ts)) w ↔
  ∃ tag s, tag ∈ t :: ts ∧ db_tag w !! tag = Some s ∧ i ∈ s.
Proof.
  unfold list_msgs.
  change (negb (length (t :: ts) =? 0)%nat) with true. cbv iota.
  rewrite elem_of_tag_union. split.
  - intros [Hi|(tag & s & Hf & Hs & Hi)]; [set_solver|].
    apply list_elem_of_filter in Hf as [_ Hf]. by exists tag, s.
  - intros (tag & s & Hf & Hs & Hi). right. exists tag, s.
    split; [|done]. apply list_elem_of_filter. split; [|done].
    apply elem_of_dom. by exists s.
Qed.

(** One tag: [list_msgs([x])] is the member set of [x], or empty. *)
Lemma list_msgs_single (w : World) (x : string) :
  list_msgs (Some [x]) w = default ∅ (db_tag w !! x).
Proof.
  apply set_eq. intros i. rewrite elem_of_list_msgs_tags. split.
  - intros (tag & s & Htag & Hs & Hi).
    apply list_elem_of_singleton in Htag as ->. by rewrite Hs.
  - intros Hi. destruct (db_tag w !! x) as [s|] eqn:Hx; simpl in Hi;
      [|set_solver].
    exists x, s. split; [apply list_elem_of_singleton|]; done.
Qed.

(** C7. [list_msgs()] and [list_msgs([])] are the set of all ids of the
    message table; [list_msgs] of one or more tags is the union of the member
    sets of those tags that the tag table holds, so unknown tags add nothing
    and a query of unknown tags only is empty; for a single tag it is the
    member set of that tag, or the empty set. *)
Theorem list_msgs_spec (w : World) :
  list_msgs None w = dom (db_msg w) ∧
  list_msgs (Some []) w = dom (db_msg w) ∧
  (∀ t ts i,
     i ∈ list_msgs (Some (t :: ts)) w ↔
     ∃ tag s, tag ∈ t :: ts ∧ db_tag w !! tag = Some s ∧ i ∈ s) ∧
  (∀ t ts,
     (∀ tag, tag ∈ t :: ts → db_tag w !! tag = None) →
     list_msgs (Some (t :: ts)) w = ∅) ∧
  (∀ x, list_msgs (Some [x]) w = default ∅ (db_tag w !! x)).
Proof.
  split; [apply msg_keys_dom|]. split; [apply msg_keys_dom|].
  split; [apply elem_of_list_msgs_tags|]. split; [|apply list_msgs_single].
  intros t ts Hnone. apply set_eq. intros i.
  rewrite elem_of_list_msgs_tags. split.
  - intros (tag & s & Htag & Hs & _). by rewrite (Hnone tag Htag) in Hs.
  - intros Hi. set_solver.
Qed.

(** ** [list_tags] *)

Lemma elem_of_table_keys_tags (w : World) (t : string) :
  t ∈ table_keys TAGDB w ↔ t ∈ dom (db_tag w).
Proof.
  unfold table_keys. change (String.eqb TAGDB TAGDB) with true. cbv iota.
  rewrite elem_of_dom, list_elem_of_fmap. split.
  - intros [[t' s] [-> Hin]]. apply elem_of_map_to_list in Hin. by exists s.
  - intros [s Hs]. exists (t, s). split; [done|]. by apply elem_of_map_to_list.
Qed.

(** C4 (at the code). [list_tags] opens its table through the global
    [TABDB], which the module never binds: every call raises [NameError] and
    no tag is returned, whatever the tag table holds.  The name the module
    does bind, [TAGDB], opens the table whose keys are the tags in use. *)
Theorem list_tags_raises (w : World) :
  lookup_global "TABDB" module_globals = None ∧
  list_tags w = inl (NameError "TABDB") ∧
  lookup_global "TAGDB" module_globals = Some TAGDB ∧
  (∀ t, t ∈ table_keys TAGDB w ↔ t ∈ dom (db_tag w)).
Proof.
  split; [reflexivity|]. split; [reflexivity|]. split; [reflexivity|].
  apply elem_of_table_keys_tags.
Qed.

(** ** Tag reconciliation *)

Lemma reconcile_entry_tag (i : Z) (tgs : list string) (w : World)
    (tag : string) (msgs : gset Z) :
  db_tag w !! tag = Some msgs →
  db_tag (reconcile_entry i tgs w (tag, msgs)) =
  <[tag := reconciled i tgs tag msgs]> (db_tag w).
Proof.
  intros Hw. unfold reconcile_entry, reconciled.
  destruct (decide (tag ∈ tgs)) as [Ht|Ht];
    [rewrite (bool_decide_eq_true_2 _ Ht)|rewrite (bool_decide_eq_false_2 _ Ht)];
    destruct (decide (i ∈ msgs)) as [Hi|Hi];
    rewrite ?(bool_decide_eq_true_2 _ Hi), ?(bool_decide_eq_false_2 _ Hi);
    simpl; try done.
  - symmetry. apply insert_id. rewrite Hw. f_equal. symmetry.
    rewrite (comm_L (∪)). by apply subseteq_union_1_L, singleton_subseteq_l.
  - symmetry. apply insert_id. rewrite Hw. f_equal. symmetry.
    by apply difference_disjoint_L, disjoint_singleton_r.
Qed.

Lemma reconcile_entry_frame (i : Z) (tgs : list string) (w : World)
    (item : string * gset Z) :
  db_msg (reconcile_entry i tgs w item) = db_msg w ∧
  db_net (reconcile_entry i tgs w item) = db_net w ∧
  ticks (reconcile_entry i tgs w item) = ticks w ∧
  trace w `suffix_of` trace (reconcile_entry i tgs w item) ∧
  log w `suffix_of` log (reconcile_entry i tgs w item).
Proof.
  destruct item as [tag msgs]. unfold reconcile_entry.
  repeat case_match; simpl; repeat split; try done;
    try apply suffix_cons_r; done.
Qed.

Lemma reconcile_loop_frame (i : Z) (tgs : list string)
    (items : list (string * gset Z)) (w : World) :
  let w' := foldl (reconcile_entry i tgs) w items in
  db_msg w' = db_msg w ∧ db_net w' = db_net w ∧ ticks w' = ticks w ∧
  trace w `suffix_of` trace w' ∧ log w `suffix_of` log w'.
Proof.
  revert w. induction items as [|item items IH]; intros w; simpl.
  - done.
  - destruct (IH (reconcile_entry i tgs w item)) as (-> & -> & -> & Ht & Hl).
    destruct (reconcile_entry_frame i tgs w item) as (-> & -> & -> & Ht' & Hl').
    repeat split; try done; etrans; done.
Qed.

Lemma reconcile_entry_other (i : Z) (tgs : list string) (w : World)
    (tag t : string) (msgs : gset Z) :
  tag ≠ t →
  db_tag (reconcile_entry i tgs w (tag, msgs)) !! t = db_tag w !! t.
Proof.
  intros Hne. unfold reconcile_entry.
  repeat case_match; simpl; by rewrite ?lookup_insert_ne.
Qed.

Lemma reconcile_loop_other (i : Z) (tgs : list string)
    (items : list (string * gset Z)) (w : World) (t : string) :
  t ∉ items.*1 →
  db_tag (foldl (reconcile_entry i tgs) w items) !! t = db_tag w !! t.
Proof.
  revert w. induction items as [|[tag msgs] items IH]; intros w Hnin.
  - done.
  - rewrite fmap_cons, not_elem_of_cons in Hnin. destruct Hnin as [Hne Hnin].
    cbn [foldl]. rewrite IH by done. by apply reconcile_entry_other.
Qed.

Lemma reconcile_loop_lookup (i : Z) (tgs : list string)
    (items : list (string * gset Z)) (w : World) (t : string)
    (msgs : gset Z) :
  NoDup items.*1 →
  (∀ tag s, (tag, s) ∈ items → db_tag w !! tag = Some s) →
  (t, msgs) ∈ items →
  db_tag (foldl (reconcile_entry i tgs) w items) !! t =
  Some (reconciled i tgs t msgs).
Proof.
  revert w. induction items as [|[tag s] items IH]; intros w Hnd Hw Hin.
  - by apply elem_of_nil in Hin.
  - rewrite fmap_cons, NoDup_cons in Hnd. destruct Hnd as [Hnin Hnd].
    assert (Hhead : db_tag w !! tag = Some s) by (apply Hw; left).
    cbn [foldl]. apply elem_of_cons in Hin as [[= <- <-]|Hin].
    + rewrite reconcile_loop_other by done.
      rewrite (reconcile_entry_tag _ _ _ _ _ Hhead). apply lookup_insert_eq.
    + apply IH; [done| |done]. intros t' s' Hin'.
      rewrite reconcile_entry_other; [apply Hw; by right|].
      intros ->. apply Hnin, list_elem_of_fmap. by exists (t', s').
Qed.

Lemma create_loop_frame (i : Z) (fresh : list string) (w : World) :
  let w' := foldl (λ w tag, tag_set tag {[i]} w) w fresh in
  db_msg w' = db_msg w ∧ db_net w' = db_net w ∧ ticks w' = ticks w ∧
  trace w `suffix_of` trace w' ∧ log w' = log w.
Proof.
  revert w. induction fresh as [|tag fresh IH]; intros w; simpl.
  - done.
  - destruct (IH (tag_set tag {[i]} w)) as (-> & -> & -> & Ht & ->).
    repeat split; try done. etrans; [|done]. by apply suffix_cons_r.
Qed.

Lemma create_loop_lookup (i : Z) (fresh : list string) (w : World)
    (t : string) :
  db_tag (foldl (λ w tag, tag_set tag {[i]} w) w fresh) !! t =
  if decide (t ∈ fresh) then Some {[i]} else db_tag w !! t.
Proof.
  revert w. induction fresh as [|tag fresh IH]; intros w; simpl.
  - done.
  - rewrite IH. simpl. destruct (decide (t ∈ fresh)) as [Hin|Hnin].
    + rewrite decide_True; [done|by right].
    + destruct (decide (tag = t)) as [->|Hne].
      * rewrite decide_True; [|by left]. by rewrite lookup_insert_eq.
      * rewrite decide_False; [by rewrite lookup_insert_ne|].
        intros Hc. apply elem_of_cons in Hc as [->|Hc]; done.
Qed.

(** What [reconcile] leaves under each tag: an entry of the table is put in
    line with the tags of the message, a tag of the message that the table
    lacked gets the singleton of its id, and nothing else appears. *)
Lemma reconcile_lookup (i : Z) (m : Msg) (w : World) (t : string) :
  db_tag (reconcile i m w) !! t =
  match db_tag w !! t with
  | Some msgs => Some (reconciled i (tags m) t msgs)
  | None => if decide (t ∈ tags m) then Some {[i]} else None
  end.
Proof.
  unfold reconcile. cbn [db_tag emit].
  set (items := map_to_list (db_tag w)).
  set (w0 := emit (Acquire TAGDB) w).
  assert (Hloop : ∀ t',
    db_tag (foldl (reconcile_entry i (tags m)) w0 items) !! t' =
    match db_tag w !! t' with
    | Some msgs => Some (reconciled i (tags m) t' msgs)
    | None => None
    end).
  { intros t'. destruct (db_tag w !! t') as [msgs|] eqn:Ht'.
    - apply reconcile_loop_lookup.
      + apply NoDup_fst_map_to_list.
      + intros tag s Hin. by apply elem_of_map_to_list in Hin.
      + by apply elem_of_map_to_list.
    - rewrite reconcile_loop_other; [done|].
      intros Hin. apply list_elem_of_fmap in Hin as [[t2 s] [-> Hin]].
      apply elem_of_map_to_list in Hin. simpl in Ht'. congruence. }
  rewrite create_loop_lookup, Hloop.
  destruct (db_tag w !! t) as [msgs|] eqn:Ht.
  - rewrite decide_False; [done|]. intros Hin.
    apply list_elem_of_filter in Hin as [Hnd _]. apply Hnd.
    apply elem_of_dom. rewrite Hloop, Ht. done.
  - destruct (decide (t ∈ tags m)) as [Hin|Hnin].
    + rewrite decide_True; [done|]. apply list_elem_of_filter. split; [|done].
      rewrite elem_of_dom, Hloop, Ht. by intros [? ?].
    + rewrite decide_False; [done|]. intros Hc.
      by apply list_elem_of_filter in Hc as [_ Hc].
Qed.

Lemma reconcile_frame (i : Z) (m : Msg) (w : World) :
  db_msg (reconcile i m w) = db_msg w ∧
  db_net (reconcile i m w) = db_net w ∧
  ticks (reconcile i m w) = ticks w ∧
  trace w `suffix_of` trace (reconcile i m w) ∧
  log w `suffix_of` log (reconcile i m w).
Proof.
  unfold reconcile.
  set (w0 := emit (Acquire TAGDB) w).
  set (w1 := foldl (reconcile_entry i (tags m)) w0 (map_to_list (db_tag w0))).
  set (fresh := filter _ (tags m)).
  destruct (create_loop_frame i fresh w1) as (Hm & Hn & Hk & Ht & Hl).
  destruct (reconcile_loop_frame i (tags m) (map_to_list (db_tag w0)) w0)
    as (Hm' & Hn' & Hk' & Ht' & Hl').
  fold w1 in Hm', Hn', Hk', Ht', Hl'. cbn [db_msg db_net ticks trace log emit].
  rewrite Hm, Hn, Hk, Hm', Hn', Hk', Hl. repeat split; try done.
  apply suffix_cons_r. etrans; [|exact Ht]. etrans; [|exact Ht'].
  by apply suffix_cons_r.
Qed.

Lemma reconcile_dom (i : Z) (m : Msg) (w : World) :
  dom (db_tag w) ⊆ dom (db_tag (reconcile i m w)).
Proof.
  intros t. rewrite !elem_of_dom, reconcile_lookup. intros [msgs ->]. eauto.
Qed.

(** ** The persist step *)

Lemma is_new_false (m : Msg) :
  is_new m = false ↔ ∃ i s, idx m = Some i ∧ stime m = Some s.
Proof.
  unfold is_new. destruct (idx m) as [i|], (stime m) as [s|];
    split; try done; try (intros (? & ? & ? & ?); done).
  intros _. by exists i, s.
Qed.

Lemma persist_old (env : Env) (ct : option time) (m : Msg) (w : World)
    (i : Z) (s : time) :
  idx m = Some i → stime m = Some s →
  persist env ct m w =
  (false, i, m, emit (Release MSGDB) (msg_set i m (emit (Acquire MSGDB) w))).
Proof. intros Hi Hs. unfold persist. by rewrite Hi, Hs. Qed.

(** What every run of [persist] establishes. *)
Lemma persist_spec (env : Env) (ct : option time) (m : Msg) (w : World)
    (new : bool) (i : Z) (m1 : Msg) (w1 : World) :
  persist env ct m w = (new, i, m1, w1) →
  new = is_new m ∧
  idx m1 = Some i ∧ is_Some (stime m1) ∧
  tags m1 = tags m ∧ children m1 = children m ∧ parent m1 = parent m ∧
  body m1 = body m ∧ recipient m1 = recipient m ∧
  db_msg w1 = <[i := m1]> (db_msg w) ∧
  db_tag w1 = db_tag w ∧ db_net w1 = db_net w ∧ log w1 = log w ∧
  trace w1 = Release MSGDB :: SetMsg i :: Acquire MSGDB :: trace w ∧
  (ticks w ≤ ticks w1)%nat ∧
  (if new then i = next_id w ∧ m1 = stamped env ct m w else m1 = m).
Proof.
  intros Hp. unfold persist in Hp. unfold is_new, stamped, next_id.
  destruct (idx m) as [j|] eqn:Hj; [destruct (stime m) as [s|] eqn:Hs|];
    destruct ct as [c|]; simpl in Hp; injection Hp as <- <- <- <-;
    simpl; rewrite ?Hs; repeat split; eauto.
Qed.

(** ** Tables only grow *)

Lemma extends_emit (e : dbevent) (w : World) : extends w (emit e w).
Proof. repeat split; simpl; try done. by apply suffix_cons_r. Qed.

Lemma extends_logger (r : logrec) (w : World) : extends w (logger r w).
Proof. repeat split; simpl; try done. by apply suffix_cons_r. Qed.

Lemma extends_msg_set (i : Z) (m : Msg) (w : World) :
  extends w (msg_set i m w).
Proof.
  repeat split; simpl; try done.
  - rewrite dom_insert_L. set_solver.
  - by apply suffix_cons_r.
Qed.

Lemma extends_net_set (table : string) (i : Z) (v : netval) (w : World) :
  extends w (net_set table i v w).
Proof. repeat split; simpl; try done. by apply suffix_cons_r. Qed.

Lemma extends_reconcile (i : Z) (m : Msg) (w : World) :
  extends w (reconcile i m w).
Proof.
  destruct (reconcile_frame i m w) as (Hm & Hn & Hk & Ht & Hl).
  repeat split; try done.
  - by rewrite Hm.
  - apply reconcile_dom.
  - by rewrite Hk.
Qed.

Lemma extends_persist (env : Env) (ct : option time) (m : Msg) (w : World)
    (new : bool) (i : Z) (m1 : Msg) (w1 : World) :
  persist env ct m w = (new, i, m1, w1) → extends w w1.
Proof.
  intros Hp. apply persist_spec in Hp
    as (_&_&_&_&_&_&_&_& Hdb & Ht & _ & Hl & Htr & Hk & _).
  repeat split.
  - rewrite Hdb, dom_insert_L. set_solver.
  - by rewrite Ht.
  - rewrite Htr. by do 3 apply suffix_cons_r.
  - by rewrite Hl.
  - done.
Qed.

Section Extends.

Variable rec : bool → option time → Msg → World → result.
Variable env : Env.
Hypothesis rec_extends :
  ∀ nq ct m w, extends w (res_world (rec nq ct m w)).

Lemma thread_step_extends (i : Z) (m : Msg) (w : World) :
  extends w (res_world (thread_step rec i m w)).
Proof.
  unfold thread_step.
  destruct (parent_not_child m); [|done]. simpl.
  destruct (parent m) as [p|]; [|done].
  destruct (get_msg p w) as [e|pm]; [done|].
  case_bool_decide.
  - specialize (rec_extends false None (add_child i pm) w).
    by destruct (rec false None (add_child i pm) w) as [[? ?] ?].
  - unfold res_world. simpl.
    etrans; [apply (extends_logger LogStripParent)|].
    etrans; [apply (extends_emit (Acquire MSGDB))|].
    etrans; [apply extends_msg_set|]. apply extends_emit.
Qed.

Lemma route_extends (networks server_tags : list string) (origin : string)
    (i : Z) (ts : list string) (m : Msg) (w : World) :
  extends w (res_world (route rec env networks server_tags origin i ts m w)).
Proof.
  induction ts as [|t ts IH]; [done|]. simpl.
  case_bool_decide; [|case_bool_decide]; [| |done].
  - destruct (cfg_get _ _ _) as [e|name]; [done|].
    specialize (rec_extends false None
      (with_body (body m +:+ origin) m) (emit (Acquire name) w)).
    destruct (rec false None _ _) as [[m' w'] out].
    unfold res_world in *. simpl in rec_extends.
    assert (extends w w') by (etrans; [apply extends_emit|done]).
    destruct out; simpl; [|done..].
    etrans; [done|]. etrans; [apply extends_net_set|].
    etrans; [apply extends_emit|]. apply extends_logger.
  - destruct (cfg_get _ _ _) as [e|name]; [done|]. unfold res_world. simpl.
    etrans; [apply (extends_emit (Acquire name))|].
    etrans; [apply extends_net_set|].
    etrans; [apply extends_emit|]. apply extends_logger.
Qed.

Lemma dispatch_extends (i : Z) (m : Msg) (w : World) :
  extends w (res_world (dispatch rec env i m w)).
Proof.
  unfold dispatch. repeat case_match; try done; apply route_extends.
Qed.

Lemma save_body_extends (nq : bool) (ct : option time) (m : Msg)
    (w : World) :
  extends w (res_world (save_body rec env nq ct m w)).
Proof.
  unfold save_body. destruct (cfg_get _ _ _) as [e|dp]; [done|].
  destruct (persist env ct m w) as [[[new i] m1] w1] eqn:Hp.
  apply extends_persist in Hp.
  pose proof (extends_reconcile i m1 w1) as Hr.
  pose proof (thread_step_extends i m1 (reconcile i m1 w1)) as Ht.
  destruct (thread_step _ _ _ _) as [[m2 w2] out2]. unfold res_world in *.
  simpl in Ht.
  assert (extends w w2) by (etrans; [done|]; etrans; done).
  destruct out2; simpl; [|done..].
  assert (Hd : extends w2 (res_world
    (if negb nq && new then dispatch rec env i m2 w2 else (m2, w2, Returned)))).
  { destruct (negb nq && new); [apply dispatch_extends|done]. }
  destruct (if negb nq && new then _ else _) as [[m3 w3] out3].
  unfold res_world in Hd. simpl in Hd.
  assert (extends w w3) by (etrans; done).
  destruct out3; simpl; [|done..].
  etrans; [done|]. apply extends_logger.
Qed.

End Extends.

(** Whatever a save does and however it ends, no key of the message table
    or of the tag table is lost, and the log and the trace only grow. *)
Lemma save_extends (fuel : nat) (env : Env) (nq : bool) (ct : option time)
    (m : Msg) (w : World) :
  extends w (res_world (save fuel env nq ct m w)).
Proof.
  revert nq ct m w. induction fuel as [|fuel IH]; intros nq ct m w.
  - done.
  - simpl. by apply save_body_extends.
Qed.

(** ** What a save leaves of the object it is called on *)

Lemma thread_step_msg (rec : bool → option time → Msg → World → result)
    (i : Z) (m : Msg) (w : World) :
  res_msg (thread_step rec i m w) = m ∨
  res_msg (thread_step rec i m w) = with_parent None m.
Proof.
  unfold thread_step. destruct (parent_not_child m); [|by left]. simpl.
  destruct (parent m) as [p|]; [|by left].
  destruct (get_msg p w) as [e|pm]; [by left|].
  case_bool_decide; [|by right].
  destruct (rec false None (add_child i pm) w) as [[? ?] ?]. by left.
Qed.

(** A message that is not new comes back from [save] as it went in, or
    without its parent. *)
Lemma save_old_msg (fuel : nat) (env : Env) (nq : bool) (ct : option time)
    (m : Msg) (w : World) :
  is_new m = false →
  res_msg (save fuel env nq ct m w) = m ∨
  res_msg (save fuel env nq ct m w) = with_parent None m.
Proof.
  intros Hold. destruct fuel as [|fuel]; [by left|]. simpl. unfold save_body.
  destruct (cfg_get _ _ _) as [e|dp]; [by left|].
  apply is_new_false in Hold as (i & s & Hi & Hs).
  rewrite (persist_old env ct m w i s Hi Hs).
  rewrite andb_false_r.
  pose proof (thread_step_msg (save fuel env) i m
    (reconcile i m (emit (Release MSGDB) (msg_set i m (emit (Acquire MSGDB) w)))))
    as Hm.
  destruct (thread_step _ _ _ _) as [[m2 w2] out2]. unfold res_msg in *.
  by destruct out2.
Qed.

Section Identity.

Variable rec : bool → option time → Msg → World → result.
Variable env : Env.
Hypothesis rec_identity :
  ∀ m w, is_new m = false → same_identity m (res_msg (rec false None m w)).

Lemma route_identity (networks server_tags : list string) (origin : string)
    (i : Z) (ts : list string) (m : Msg) (w : World) :
  is_new m = false →
  same_identity m
    (res_msg (route rec env networks server_tags origin i ts m w)).
Proof.
  intros Hold. induction ts as [|t ts IH]; [done|]. simpl.
  case_bool_decide; [|case_bool_decide]; [| |done].
  - destruct (cfg_get _ _ _) as [e|name]; [done|].
    pose proof (rec_identity (with_body (body m +:+ origin) m)
                  (emit (Acquire name) w) Hold) as Hr.
    destruct (rec false None _ _) as [[m' w'] out]. unfold res_msg in *.
    simpl in Hr. by destruct out.
  - by destruct (cfg_get _ _ _).
Qed.

Lemma save_body_identity (nq : bool) (ct : option time) (m : Msg)
    (w : World) (dp : string) :
  cfg_get env "system" "datapath" = inr dp →
  same_identity (persist env ct m w).1.2
                (res_msg (save_body rec env nq ct m w)).
Proof.
  intros Hdp. unfold save_body. rewrite Hdp.
  destruct (persist env ct m w) as [[[new i] m1] w1] eqn:Hp. simpl.
  apply persist_spec in Hp as (_ & Hi & [s Hs] & _).
  assert (Hold : is_new m1 = false) by (apply is_new_false; eauto).
  pose proof (thread_step_msg rec i m1 (reconcile i m1 w1)) as Hm.
  destruct (thread_step _ _ _ _) as [[m2 w2] out2]. unfold res_msg in *.
  simpl in Hm.
  assert (Hid2 : same_identity m1 m2) by (destruct Hm as [->| ->]; done).
  assert (Hold2 : is_new m2 = false) by (destruct Hm as [->| ->]; done).
  destruct out2; simpl; [|done..].
  assert (Hd : same_identity m2 (res_msg
    (if negb nq && new then dispatch rec env i m2 w2 else (m2, w2, Returned)))).
  { destruct (negb nq && new); [|done]. unfold dispatch.
    repeat case_match; try done; by apply route_identity. }
  destruct (if negb nq && new then _ else _) as [[m3 w3] out3].
  unfold res_msg in Hd. simpl in Hd.
  destruct out3; simpl; by etrans.
Qed.

End Identity.

Lemma save_old_identity (fuel : nat) (env : Env) (nq : bool)
    (ct : option time) (m : Msg) (w : World) :
  is_new m = false → same_identity m (res_msg (save fuel env nq ct m w)).
Proof.
  intros Hold.
  by destruct (save_old_msg fuel env nq ct m w Hold) as [-> | ->].
Qed.

(** A save leaves the identity that [persist] gave the object. *)
Lemma save_identity (fuel : nat) (env : Env) (nq : bool) (ct : option time)
    (m : Msg) (w : World) (dp : string) :
  cfg_get env "system" "datapath" = inr dp →
  same_identity (persist env ct m w).1.2
                (res_msg (save (S fuel) env nq ct m w)).
Proof.
  intros Hdp. simpl. eapply save_body_identity; [|done].
  intros m' w'. apply save_old_identity.
Qed.

(** The key of a save is in the message table from [persist] on. *)
Lemma save_key_present (fuel : nat) (env : Env) (nq : bool)
    (ct : option time) (m : Msg) (w : World) (dp : string) :
  cfg_get env "system" "datapath" = inr dp →
  (persist env ct m w).1.1.2 ∈ dom (db_msg (res_world (save (S fuel) env nq ct m w))) ∧
  extends (persist env ct m w).2 (res_world (save (S fuel) env nq ct m w)).
Proof.
  intros Hdp.
  assert (Hext : extends (persist env ct m w).2
                         (res_world (save (S fuel) env nq ct m w))).
  { simpl. unfold save_body. rewrite Hdp.
    destruct (persist env ct m w) as [[[new i] m1] w1] eqn:Hp. simpl.
    pose proof (extends_reconcile i m1 w1) as Hr.
    pose proof (thread_step_extends (save fuel env) (save_extends fuel env)
                  i m1 (reconcile i m1 w1)) as Ht.
    destruct (thread_step _ _ _ _) as [[m2 w2] out2]. unfold res_world in *.
    simpl in Ht. assert (extends w1 w2) by (etrans; done).
    destruct out2; simpl; [|done..].
    assert (Hd : extends w2 (res_world
      (if negb nq && new then dispatch (save fuel env) env i m2 w2
       else (m2, w2, Returned)))).
    { destruct (negb nq && new); [|done].
      apply dispatch_extends, save_extends. }
    destruct (if negb nq && new then _ else _) as [[m3 w3] out3].
    unfold res_world in Hd. simpl in Hd. assert (extends w1 w3) by (etrans; done).
    destruct out3; simpl; [|done..]. etrans; [done|]. apply extends_logger. }
  split; [|done]. destruct Hext as (Hdom & _). apply Hdom.
  destruct (persist env ct m w) as [[[new i] m1] w1] eqn:Hp. simpl.
  apply persist_spec in Hp as (_&_&_&_&_&_&_&_& -> & _).
  rewrite dom_insert_L. set_solver.
Qed.

(** ** Identifiers *)

Lemma minted_next_id (fuel : nat) (env : Env) (nq : bool) (ct : option time)
    (m : Msg) (w : World) (i : Z) :
  minted m (res_msg (save fuel env nq ct m w)) = Some i →
  i = next_id w ∧ i ∈ dom (db_msg (res_world (save fuel env nq ct m w))).
Proof.
  unfold minted. destruct (is_new m) eqn:Hnew; [|done].
  destruct fuel as [|fuel].
  { simpl. unfold res_msg. simpl. by rewrite Hnew. }
  destruct (cfg_get env "system" "datapath") as [e|dp] eqn:Hdp.
  { simpl. unfold save_body. rewrite Hdp. unfold res_msg. simpl.
    by rewrite Hnew. }
  pose proof (save_identity fuel env nq ct m w dp Hdp) as (Hid & _).
  pose proof (save_key_present fuel env nq ct m w dp Hdp) as [Hkey _].
  set (r := save (S fuel) env nq ct m w) in *. clearbody r.
  destruct (persist env ct m w) as [[[new j] m1] w1] eqn:Hp.
  simpl in Hid, Hkey.
  apply persist_spec in Hp as (-> & Hj & _ & _ & _ & _ & _ & _ & _ & _ & _ & _ & _ & _ & Hn).
  rewrite Hnew in Hn. destruct Hn as [-> _].
  rewrite Hid, Hj. destruct (negb _); simpl; [|done].
  by intros [= <-].
Qed.

Lemma run_saves_increasing (fuel : nat) (env : Env) (reqs : list request)
    (w : World) :
  StronglySorted Z.lt (run_saves fuel env reqs w).1 ∧
  Forall (λ i, ∀ k, k ∈ dom (db_msg w) → k < i) (run_saves fuel env reqs w).1.
Proof.
  revert w. induction reqs as [|q reqs IH]; intros w; simpl.
  - split; constructor.
  - set (r := save fuel env (req_noqueue q) (req_ctime q) (req_msg q) w).
    destruct (IH (res_world r)) as [Hsorted Hall].
    pose proof (save_extends fuel env (req_noqueue q) (req_ctime q)
                  (req_msg q) w) as (Hdom & _). fold r in Hdom.
    destruct (run_saves fuel env reqs (res_world r)) as [ids w'].
    simpl in *.
    assert (Hall' : Forall (λ i, ∀ k, k ∈ dom (db_msg w) → k < i) ids).
    { eapply Forall_impl; [exact Hall|]. intros i Hi k Hk. apply Hi, Hdom, Hk. }
    destruct (minted _ _) as [i|] eqn:Hm; simpl; [|done].
    apply minted_next_id in Hm as [-> Hin]. fold r in Hin. split.
    + constructor; [done|]. eapply Forall_impl; [exact Hall|].
      intros i Hi. by apply Hi.
    + constructor; [|done]. apply next_id_fresh.
Qed.

(** C1. A save of a new message gives it the id [max(keys or [-1]) + 1], an
    id above every key of the message table (0 on an empty table), and
    writes the record under that id between the acquire and the release of
    the lock of the message table.  Hence over any sequence of saves the
    ids minted are strictly increasing in the order of the saves, so never
    minted twice, and none of them was a key of the table before. *)
Theorem save_ids_increasing (fuel : nat) (env : Env) :
  (∀ nq ct m w dp,
     is_new m = true →
     cfg_get env "system" "datapath" = inr dp →
     let r := save (S fuel) env nq ct m w in
     idx (res_msg r) = Some (max_or_minus1 (msg_keys w) + 1) ∧
     minted m (res_msg r) = Some (max_or_minus1 (msg_keys w) + 1) ∧
     (db_msg w = ∅ → idx (res_msg r) = Some 0) ∧
     (∀ k, k ∈ dom (db_msg w) → k < max_or_minus1 (msg_keys w) + 1) ∧
     max_or_minus1 (msg_keys w) + 1 ∈ dom (db_msg (res_world r)) ∧
     ∃ later,
       trace (res_world r) =
       later ++ [Release MSGDB; SetMsg (max_or_minus1 (msg_keys w) + 1);
                 Acquire MSGDB] ++ trace w) ∧
  (∀ reqs w,
     let ids := (run_saves fuel env reqs w).1 in
     StronglySorted Z.lt ids ∧ NoDup ids ∧
     Forall (λ i, (i ∉ dom (db_msg w)) ∧ (∀ k, k ∈ dom (db_msg w) → k < i))
            ids).
Proof.
  split.
  - intros nq ct m w dp Hnew Hdp r. fold (next_id w).
    pose proof (save_identity fuel env nq ct m w dp Hdp) as Hid.
    pose proof (save_key_present fuel env nq ct m w dp Hdp) as [Hkey Hext].
    fold r in Hid, Hkey, Hext. clearbody r.
    destruct (persist env ct m w) as [[[new j] m1] w1] eqn:Hp.
    simpl in Hid, Hkey, Hext. destruct Hid as (Hidx & _ & Hst & _).
    apply persist_spec in Hp
      as (-> & Hj & [s Hs] & _ & _ & _ & _ & _ & _ & _ & _ & _ & Htr & _ & Hn).
    rewrite Hnew in Hn. destruct Hn as [-> _].
    assert (Hr : idx (res_msg r) = Some (next_id w)) by congruence.
    repeat split.
    + done.
    + unfold minted. rewrite Hnew.
      assert (is_new (res_msg r) = false) as ->; [|done].
      apply is_new_false. exists (next_id w), s. split; congruence.
    + intros He. by rewrite Hr, (next_id_empty w He).
    + apply next_id_fresh.
    + done.
    + destruct Hext as (_ & _ & [later Hlater] & _). exists later.
      by rewrite Hlater, Htr.
  - intros reqs w ids.
    destruct (run_saves_increasing fuel env reqs w) as [Hsorted Hall].
    fold ids in Hsorted, Hall. repeat split.
    + done.
    + clear Hall. induction Hsorted as [|i l Hl IH Hi]; constructor; [|done].
      intros Hin. rewrite Forall_forall in Hi. specialize (Hi i Hin). lia.
    + eapply Forall_impl; [exact Hall|]. intros i Hi. split; [|done].
      intros Hin. specialize (Hi i Hin). lia.
Qed.

(** ** Well-formed stores and the steps of a re-save *)

Lemma rtc_step_run (m : Msg) (w w' : World) :
  rtc step w w' → rtc (run m) w w'.
Proof. apply rtc_subrel. intros ? ?. apply run_step. Qed.

Lemma wf_store_insert (i : Z) (m : Msg) (w w' : World) :
  wf_store w → idx m = Some i → is_Some (stime m) →
  db_msg w' = <[i := m]> (db_msg w) → wf_store w'.
Proof.
  unfold wf_store. intros Hwf Hi Hs ->. by apply map_Forall_insert_2.
Qed.

Lemma wf_store_eq (w w' : World) :
  wf_store w → db_msg w' = db_msg w → wf_store w'.
Proof. unfold wf_store. by intros Hwf ->. Qed.

Lemma wf_store_step (w w' : World) : step w w' → wf_store w → wf_store w'.
Proof.
  intros [p r c Hr Hdb _ _|j r Hr Hdb _ _|j r _ Hdb _ _|Hdb _ _] Hwf.
  - destruct (Hwf p r Hr) as [Hi Hs].
    eapply wf_store_insert; [exact Hwf| | |exact Hdb]; done.
  - destruct (Hwf j r Hr) as [Hi Hs].
    eapply wf_store_insert; [exact Hwf| | |exact Hdb]; done.
  - by eapply wf_store_eq.
  - by eapply wf_store_eq.
Qed.

Lemma wf_store_steps (w w' : World) :
  rtc step w w' → wf_store w → wf_store w'.
Proof. induction 1; eauto using wf_store_step. Qed.

Lemma wf_store_run (m : Msg) (w w' : World) :
  run m w w' → wf_store w → wf_store w'.
Proof.
  intros [i x Hi Hid Hs Hdb _ _|Hdb _|Hstep] Hwf.
  - eapply wf_store_insert; [done| |done|done].
    destruct Hid as (-> & _). done.
  - by eapply wf_store_eq.
  - by eapply wf_store_step.
Qed.

Lemma wf_store_runs (m : Msg) (w w' : World) :
  rtc (run m) w w' → wf_store w → wf_store w'.
Proof. induction 1; eauto using wf_store_run. Qed.

Lemma step_db_net (w w' : World) : rtc step w w' → db_net w' = db_net w.
Proof.
  induction 1 as [|w1 w2 w3 Hs _ IH]; [done|]. rewrite IH.
  by destruct Hs.
Qed.

Section ThreadSteps.

Variable rec : bool → option time → Msg → World → result.
Hypothesis rec_child_steps :
  ∀ p r c w, wf_store w → db_msg w !! p = Some r →
             rtc step w (res_world (rec false None (add_child c r) w)).

Lemma thread_step_steps (i : Z) (m : Msg) (w : World) :
  wf_store w → db_msg w !! i = Some m →
  rtc step w (res_world (thread_step rec i m w)).
Proof.
  intros Hwf Hm. unfold thread_step.
  destruct (parent_not_child m); [|done]. simpl.
  destruct (parent m) as [p|]; [|done].
  unfold get_msg. destruct (db_msg w !! p) as [pm|] eqn:Hp; [|done].
  case_bool_decide.
  - specialize (rec_child_steps p pm i w Hwf Hp).
    by destruct (rec false None (add_child i pm) w) as [[? ?] ?].
  - apply rtc_once. by eapply (step_strip _ _ i m).
Qed.

End ThreadSteps.

(** The save of a stored record that has gained a child only takes steps. *)
Lemma save_child_steps (fuel : nat) (env : Env) (nq : bool)
    (ct : option time) (p : Z) (r : Msg) (c : Z) (w : World) :
  wf_store w → db_msg w !! p = Some r →
  rtc step w (res_world (save fuel env nq ct (add_child c r) w)).
Proof.
  revert nq ct p r c w. induction fuel as [|fuel IH];
    intros nq ct p r c w Hwf Hr; [done|].
  simpl. unfold save_body. destruct (cfg_get _ _ _) as [e|dp]; [done|].
  destruct (Hwf p r Hr) as [Hi [s Hs]].
  rewrite (persist_old env ct (add_child c r) w p s Hi Hs).
  set (x := add_child c r).
  set (w1 := emit (Release MSGDB) (msg_set p x (emit (Acquire MSGDB) w))).
  assert (Hs1 : step w w1) by (by eapply (step_child _ _ p r c)).
  assert (Hwf1 : wf_store w1) by (by eapply wf_store_step).
  destruct (reconcile_frame p x w1) as (Hm2 & Hn2 & _).
  assert (Hs2 : step w1 (reconcile p x w1)).
  { eapply (step_tags _ _ p x); [|done..]. apply lookup_insert_eq. }
  assert (Hwf2 : wf_store (reconcile p x w1)) by (by eapply wf_store_step).
  assert (Hx2 : db_msg (reconcile p x w1) !! p = Some x).
  { rewrite Hm2. apply lookup_insert_eq. }
  pose proof (thread_step_steps (save fuel env) (IH false None) p x
                (reconcile p x w1) Hwf2 Hx2) as Hs3.
  destruct (thread_step _ _ _ _) as [[m3 w3] out3].
  unfold res_world in *. simpl in Hs3.
  assert (rtc step w w3).
  { eapply rtc_l; [exact Hs1|]. eapply rtc_l; [exact Hs2|]. exact Hs3. }
  rewrite andb_false_r.
  destruct out3; simpl; [|done..].
  eapply rtc_r; [done|]. by apply step_quiet.
Qed.

(** The save of a message that is not new writes its record, puts the tag
    table in line with it, and takes steps. *)
Lemma save_old_run (fuel : nat) (env : Env) (nq : bool) (ct : option time)
    (x : Msg) (w : World) :
  wf_store w → is_new x = false →
  rtc (run x) w (res_world (save fuel env nq ct x w)).
Proof.
  intros Hwf Hold. destruct fuel as [|fuel]; [done|].
  simpl. unfold save_body. destruct (cfg_get _ _ _) as [e|dp]; [done|].
  apply is_new_false in Hold as (i & s & Hi & Hs).
  rewrite (persist_old env ct x w i s Hi Hs).
  set (w1 := emit (Release MSGDB) (msg_set i x (emit (Acquire MSGDB) w))).
  destruct (reconcile_frame i x w1) as (Hm2 & Hn2 & _).
  assert (Hr2 : run x w (reconcile i x w1)).
  { eapply (run_self _ _ _ i x); [done|done|by rewrite Hs|by rewrite Hm2| |done].
    apply map_eq. intros t. by rewrite !reconcile_lookup. }
  assert (Hwf2 : wf_store (reconcile i x w1)) by (by eapply wf_store_run).
  assert (Hx2 : db_msg (reconcile i x w1) !! i = Some x).
  { rewrite Hm2. apply lookup_insert_eq. }
  pose proof (thread_step_steps (save fuel env)
                (save_child_steps fuel env false None) i x
                (reconcile i x w1) Hwf2 Hx2) as Hs3.
  destruct (thread_step _ _ _ _) as [[m3 w3] out3].
  unfold res_world in *. simpl in Hs3.
  assert (rtc (run x) w w3).
  { eapply rtc_l; [exact Hr2|]. by apply rtc_step_run. }
  rewrite andb_false_r.
  destruct out3; simpl; [|done..].
  eapply rtc_r; [done|]. by apply run_net.
Qed.

Lemma run_mono (m m' : Msg) (w w' : World) :
  same_identity m m' → run m' w w' → run m w w'.
Proof.
  intros Hid [i x Hi Hid' Hs Hdb Ht Hn|Hdb Ht|Hstep].
  - eapply (run_self _ _ _ i x); try done.
    + destruct Hid as (<- & _). done.
    + by etrans.
  - by apply run_net.
  - by apply run_step.
Qed.

Lemma runs_mono (m m' : Msg) (w w' : World) :
  same_identity m m' → rtc (run m') w w' → rtc (run m) w w'.
Proof. intros Hid. apply rtc_subrel. intros ? ?. by apply run_mono. Qed.

Lemma route_run (fuel : nat) (env : Env) (networks server_tags : list string)
    (origin : string) (i : Z) (ts : list string) (m : Msg) (w : World) :
  wf_store w → is_new m = false →
  rtc (run m) w
      (res_world (route (save fuel env) env networks server_tags origin i ts
                        m w)).
Proof.
  intros Hwf Hold. induction ts as [|t ts IH]; [done|]. simpl.
  case_bool_decide; [|case_bool_decide]; [| |done].
  - destruct (cfg_get _ _ _) as [e|name]; [done|].
    set (x := with_body (body m +:+ origin) m).
    assert (Hidx : same_identity m x) by done.
    pose proof (save_old_run fuel env false None x (emit (Acquire name) w))
      as Hrun.
    destruct (save fuel env false None x _) as [[m' w'] out].
    unfold res_world in *. simpl in Hrun.
    assert (rtc (run m) w w').
    { eapply rtc_l; [by apply (run_net m w (emit (Acquire name) w))|].
      eapply runs_mono; [exact Hidx|]. apply Hrun; [|done].
      by eapply wf_store_eq. }
    destruct out; simpl; [|done..].
    eapply rtc_r; [done|]. by apply run_net.
  - destruct (cfg_get _ _ _) as [e|name]; [done|].
    apply rtc_once. by apply run_net.
Qed.

Lemma dispatch_run (fuel : nat) (env : Env) (i : Z) (m : Msg) (w : World) :
  wf_store w → is_new m = false →
  rtc (run m) w (res_world (dispatch (save fuel env) env i m w)).
Proof.
  intros Hwf Hold. unfold dispatch.
  repeat case_match; try done; by apply route_run.
Qed.

(** The shape of every save: after [persist] and [reconcile], the rest of
    the call is a sequence of [run] changes. *)
Lemma save_run (fuel : nat) (env : Env) (nq : bool) (ct : option time)
    (m : Msg) (w : World) (dp : string) :
  wf_store w →
  cfg_get env "system" "datapath" = inr dp →
  ∀ new i m1 w1,
    persist env ct m w = (new, i, m1, w1) →
    wf_store (reconcile i m1 w1) ∧
    db_msg (reconcile i m1 w1) = <[i := m1]> (db_msg w) ∧
    db_net (reconcile i m1 w1) = db_net w ∧
    rtc (run m1) (reconcile i m1 w1)
        (res_world (save (S fuel) env nq ct m w)).
Proof.
  intros Hwf Hdp new i m1 w1 Hp.
  assert (Hsave : save (S fuel) env nq ct m w =
                  save_body (save fuel env) env nq ct m w) by done.
  rewrite Hsave. clear Hsave. unfold save_body. rewrite Hdp, Hp.
  apply persist_spec in Hp
    as (_ & Hi & [s Hs] & _ & _ & _ & _ & _ & Hdb & _ & Hnet & _).
  destruct (reconcile_frame i m1 w1) as (Hm2 & Hn2 & _).
  assert (Hwf2 : wf_store (reconcile i m1 w1)).
  { eapply wf_store_insert; [exact Hwf|exact Hi|by rewrite Hs|].
    by rewrite Hm2. }
  assert (Hx2 : db_msg (reconcile i m1 w1) !! i = Some m1).
  { rewrite Hm2, Hdb. apply lookup_insert_eq. }
  split; [done|]. split; [by rewrite Hm2|]. split; [by rewrite Hn2|].
  cbv beta iota.
  pose proof (thread_step_steps (save fuel env)
                (save_child_steps fuel env false None) i m1
                (reconcile i m1 w1) Hwf2 Hx2) as Hs3.
  pose proof (thread_step_msg (save fuel env) i m1 (reconcile i m1 w1)) as Hm3.
  destruct (thread_step _ _ _ _) as [[m3 w3] out3].
  unfold res_world, res_msg in *. simpl in Hs3, Hm3.
  apply (rtc_step_run m1) in Hs3.
  destruct out3; simpl; [|done..].
  assert (Hold : is_new m1 = false) by (apply is_new_false; eauto).
  assert (Hid3 : same_identity m1 m3) by (destruct Hm3 as [->| ->]; done).
  assert (Hold3 : is_new m3 = false) by (destruct Hm3 as [->| ->]; done).
  assert (Hd : rtc (run m1) w3 (res_world
    (if negb nq && new then dispatch (save fuel env) env i m3 w3
     else (m3, w3, Returned)))).
  { destruct (negb nq && new); [|done].
    eapply runs_mono; [exact Hid3|]. apply dispatch_run; [|done].
    by eapply wf_store_runs. }
  destruct (if negb nq && new then _ else _) as [[m4 w4] out4].
  unfold res_world in Hd. simpl in Hd.
  assert (rtc (run m1) (reconcile i m1 w1) w4) by (by etrans).
  destruct out4; simpl; [|done..].
  eapply rtc_r; [done|]. by apply run_net.
Qed.

(** Saves keep the store well formed, however they end. *)
Lemma save_wf (fuel : nat) (env : Env) (nq : bool) (ct : option time)
    (m : Msg) (w : World) :
  wf_store w → wf_store (res_world (save fuel env nq ct m w)).
Proof.
  intros Hwf. destruct fuel as [|fuel]; [done|].
  destruct (cfg_get env "system" "datapath") as [e|dp] eqn:Hdp.
  { simpl. unfold save_body. by rewrite Hdp. }
  destruct (persist env ct m w) as [[[new i] m1] w1] eqn:Hp.
  destruct (save_run fuel env nq ct m w dp Hwf Hdp new i m1 w1 Hp)
    as (Hwf2 & _ & _ & Hrun).
  by eapply wf_store_runs.
Qed.

Lemma wf_store_empty : wf_store empty_world.
Proof. apply map_Forall_empty. Qed.

Lemma run_saves_wf (fuel : nat) (env : Env) (reqs : list request)
    (w : World) :
  wf_store w → wf_store (run_saves fuel env reqs w).2.
Proof.
  revert w. induction reqs as [|q reqs IH]; intros w Hwf; [done|]. simpl.
  specialize (IH _ (save_wf fuel env (req_noqueue q) (req_ctime q)
                            (req_msg q) w Hwf)).
  by destruct (run_saves fuel env reqs _).
Qed.

(** ** The tag index after a save *)

Lemma reconciled_member (i j : Z) (tgs : list string) (t : string)
    (s : gset Z) :
  i ∈ reconciled j tgs t s ↔
  if decide (i = j) then t ∈ tgs else i ∈ s.
Proof.
  unfold reconciled. destruct (decide (i = j)) as [->|Hne];
    destruct (decide (t ∈ tgs)); set_solver.
Qed.

(** Reconciling a stored record keeps [tag_inv]. *)
Lemma tag_inv_reconcile (i : Z) (tg fresh : list string) (w w' : World)
    (j : Z) (r : Msg) :
  (∀ t, t ∈ fresh → t ∈ tg) →
  (j = i → tags r = tg) →
  (j ≠ i → ∀ t, t ∈ fresh → t ∉ tags r) →
  db_msg w' !! i = db_msg w !! i ∨ (∃ x, db_msg w' !! i = Some x ∧ tags x = tg) →
  (∀ k x, k ≠ i → db_msg w' !! k = Some x →
          ∃ x0, db_msg w !! k = Some x0 ∧ tags x = tags x0) →
  db_tag w' = db_tag (reconcile j r w) →
  tag_inv i tg fresh w → tag_inv i tg fresh w'.
Proof.
  intros Hsub Hsame Hother Hi Hk Ht [HA HB HC HD HE]. split.
  - intros x Hx. destruct Hi as [Hi|(x' & Hx' & Htg)].
    + apply HA. by rewrite <- Hi.
    + congruence.
  - intros t Htg. rewrite Ht. by apply reconcile_dom, HB.
  - intros t s. rewrite Ht, reconcile_lookup.
    destruct (db_tag w !! t) as [s0|] eqn:Hs0.
    + intros [= <-]. rewrite reconciled_member.
      destruct (decide (i = j)) as [->|Hne]; [by rewrite Hsame|by apply HC].
    + case_decide as Hin; [|done]. intros [= <-].
      rewrite elem_of_singleton. split.
      * intros ->. rewrite <- Hsame by done. done.
      * intros Htg. apply HB, elem_of_dom in Htg as [? ?]. congruence.
  - intros k x t Hne Hx Hf. destruct (Hk k x Hne Hx) as (x0 & Hx0 & ->).
    by eapply HD.
  - intros t Hf. rewrite Ht, reconcile_lookup, (HE t Hf). f_equal.
    unfold reconciled. destruct (decide (j = i)) as [->|Hne].
    + rewrite decide_True; [set_solver|]. rewrite Hsame by done. auto.
    + rewrite decide_False; [set_solver|]. by apply Hother.
Qed.

Lemma tag_inv_insert (i : Z) (tg fresh : list string) (w w' : World)
    (k : Z) (r x : Msg) :
  db_msg w !! k = Some r → tags x = tags r →
  db_msg w' = <[k := x]> (db_msg w) → db_tag w' = db_tag w →
  tag_inv i tg fresh w → tag_inv i tg fresh w'.
Proof.
  intros Hr Htags Hdb Ht [HA HB HC HD HE]. split.
  - intros y. rewrite Hdb. destruct (decide (k = i)) as [->|Hne].
    + rewrite lookup_insert_eq. intros [= <-]. rewrite Htags. by apply HA.
    + rewrite lookup_insert_ne by done. apply HA.
  - intros t Htg. rewrite Ht. by apply HB.
  - intros t s. rewrite Ht. apply HC.
  - intros j y t Hne. rewrite Hdb. destruct (decide (k = j)) as [->|Hkj].
    + rewrite lookup_insert_eq. intros [= <-] Hf. rewrite Htags.
      by eapply HD.
    + rewrite lookup_insert_ne by done. by apply HD.
  - intros t Hf. rewrite Ht. by apply HE.
Qed.

Lemma tag_inv_step (i : Z) (tg fresh : list string) (w w' : World) :
  (∀ t, t ∈ fresh → t ∈ tg) →
  step w w' → tag_inv i tg fresh w → tag_inv i tg fresh w'.
Proof.
  intros Hsub [p r c Hr Hdb Ht _|j r Hr Hdb Ht _|j r Hr Hdb Ht _|Hdb Ht _] Hinv.
  - by eapply (tag_inv_insert _ _ _ _ _ p r (add_child c r)).
  - by eapply (tag_inv_insert _ _ _ _ _ j r (with_parent None r)).
  - eapply (tag_inv_reconcile _ _ _ w w' j r); try done.
    + intros ->. by apply (ti_stored _ _ _ _ Hinv).
    + intros Hne t Hf. by eapply (ti_others _ _ _ _ Hinv).
    + left. by rewrite Hdb.
    + intros k x _. rewrite Hdb. eauto.
  - destruct Hinv as [HA HB HC HD HE].
    split; rewrite ?Hdb, ?Ht; done.
Qed.

Lemma tag_inv_run (i : Z) (tg fresh : list string) (m : Msg) (w w' : World) :
  (∀ t, t ∈ fresh → t ∈ tg) →
  idx m = Some i → tags m = tg →
  run m w w' → tag_inv i tg fresh w → tag_inv i tg fresh w'.
Proof.
  intros Hsub Hi Htg [i' x Hi' Hid Hs Hdb Ht _|Hdb Ht|Hstep] Hinv.
  - assert (i' = i) as -> by congruence.
    assert (Hx : tags x = tg) by (destruct Hid as (_&_&_&_&_&_&->&_); done).
    eapply (tag_inv_reconcile _ _ _ w w' i x); try done.
    + right. exists x. by rewrite Hdb, lookup_insert_eq.
    + intros k y Hne. rewrite Hdb, lookup_insert_ne by done. eauto.
  - destruct Hinv as [HA HB HC HD HE].
    split; rewrite ?Hdb, ?Ht; done.
  - by eapply tag_inv_step.
Qed.

Lemma tag_inv_runs (i : Z) (tg fresh : list string) (m : Msg) (w w' : World) :
  (∀ t, t ∈ fresh → t ∈ tg) →
  idx m = Some i → tags m = tg →
  rtc (run m) w w' → tag_inv i tg fresh w → tag_inv i tg fresh w'.
Proof. intros Hsub Hi Htg. induction 1; eauto using tag_inv_run. Qed.

(** Right after [persist] and [reconcile] the tag table is in line with
    the message. *)
Lemma tag_inv_init (i : Z) (m1 : Msg) (w w1 : World) :
  db_msg w1 = <[i := m1]> (db_msg w) → db_tag w1 = db_tag w →
  tag_inv i (tags m1) [] (reconcile i m1 w1) ∧
  (tags_indexed w →
   tag_inv i (tags m1) (fresh_tags m1 w) (reconcile i m1 w1)).
Proof.
  intros Hdb Ht.
  destruct (reconcile_frame i m1 w1) as (Hm2 & _).
  assert (HA : ∀ r, db_msg (reconcile i m1 w1) !! i = Some r →
                    tags r = tags m1).
  { intros r. rewrite Hm2, Hdb, lookup_insert_eq. by intros [= <-]. }
  assert (HB : ∀ t, t ∈ tags m1 → t ∈ dom (db_tag (reconcile i m1 w1))).
  { intros t Hin. rewrite elem_of_dom, reconcile_lookup.
    destruct (db_tag w1 !! t); [eauto|]. rewrite decide_True by done. eauto. }
  assert (HC : ∀ t s, db_tag (reconcile i m1 w1) !! t = Some s →
                      (i ∈ s ↔ t ∈ tags m1)).
  { intros t s. rewrite reconcile_lookup.
    destruct (db_tag w1 !! t) as [s0|].
    - intros [= <-]. rewrite reconciled_member. by rewrite decide_True.
    - case_decide; [|done]. intros [= <-]. set_solver. }
  split.
  - split; try done.
    + intros j r t _ _ Hin. by apply elem_of_nil in Hin.
    + intros t Hin. by apply elem_of_nil in Hin.
  - intros Hidx. split; try done.
    + intros j r t Hne. rewrite Hm2, Hdb, lookup_insert_ne by done.
      intros Hr Hf Hin. apply list_elem_of_filter in Hf as [Hnd _].
      apply Hnd. by eapply Hidx.
    + intros t Hf. apply list_elem_of_filter in Hf as [Hnd Hin].
      rewrite reconcile_lookup, Ht.
      apply not_elem_of_dom in Hnd. rewrite Hnd. by rewrite decide_True.
Qed.

(** C2. After the save of [m] under id [i], every tag that the tag table
    held before the save has [i] in its member set exactly when it is a tag
    of [m]; and every tag of [m] that the table did not hold is created with
    the member set [{i}].  Both hold right after the reconcile step of the
    save, and still hold when the save is over, however it ends, in a store
    that is well formed and whose tags are indexed, as [save] keeps it. *)
Theorem save_reconciles_tags (fuel : nat) (env : Env) (nq : bool)
    (ct : option time) (m : Msg) (w : World) (dp : string) :
  cfg_get env "system" "datapath" = inr dp →
  ∀ new i m1 w1,
    persist env ct m w = (new, i, m1, w1) →
    let w2 := reconcile i m1 w1 in
    let w' := res_world (save (S fuel) env nq ct m w) in
    idx (res_msg (save (S fuel) env nq ct m w)) = Some i ∧
    (∀ t, t ∈ dom (db_tag w) →
          ∃ s, db_tag w2 !! t = Some s ∧ (i ∈ s ↔ t ∈ tags m)) ∧
    (∀ t, t ∈ tags m → t ∉ dom (db_tag w) → db_tag w2 !! t = Some {[i]}) ∧
    (wf_store w →
     ∀ t, t ∈ dom (db_tag w) →
          ∃ s, db_tag w' !! t = Some s ∧ (i ∈ s ↔ t ∈ tags m)) ∧
    (wf_store w → tags_indexed w →
     ∀ t, t ∈ tags m → t ∉ dom (db_tag w) → db_tag w' !! t = Some {[i]}).
Proof.
  intros Hdp new i m1 w1 Hp w2 w'.
  pose proof (save_identity fuel env nq ct m w dp Hdp) as (Hid & _).
  rewrite Hp in Hid. cbn [fst snd] in Hid.
  pose proof Hp as Hspec. apply persist_spec in Hspec
    as (_ & Hi & _ & Htg & _ & _ & _ & _ & Hdb & Ht & _).
  destruct (tag_inv_init i m1 w w1 Hdb Ht) as [Hinv0 Hinv1].
  rewrite Htg in Hinv0.
  assert (Hdom2 : ∀ t, t ∈ dom (db_tag w) → t ∈ dom (db_tag w2)).
  { intros t Hin. apply reconcile_dom. by rewrite Ht. }
  split; [congruence|]. split; [|split; [|split]].
  - intros t Hin. apply Hdom2, elem_of_dom in Hin as [s Hs].
    exists s. split; [done|]. by apply (ti_member _ _ _ _ Hinv0).
  - intros t Hin Hnd. unfold w2. rewrite reconcile_lookup, Ht.
    apply not_elem_of_dom in Hnd. rewrite Hnd, Htg. by rewrite decide_True.
  - intros Hwf t Hin.
    destruct (save_run fuel env nq ct m w dp Hwf Hdp new i m1 w1 Hp)
      as (_ & _ & _ & Hrun).
    assert (Hinv : tag_inv i (tags m) [] w').
    { eapply (tag_inv_runs _ _ _ m1); [| | |exact Hrun|exact Hinv0]; try done.
      intros ? Hnil. by apply elem_of_nil in Hnil. }
    pose proof (save_extends (S fuel) env nq ct m w) as (_ & Hdom & _).
    apply Hdom, elem_of_dom in Hin as [s Hs]. exists s. split; [done|].
    by apply (ti_member _ _ _ _ Hinv).
  - intros Hwf Hidx t Hin Hnd.
    destruct (save_run fuel env nq ct m w dp Hwf Hdp new i m1 w1 Hp)
      as (_ & _ & _ & Hrun).
    specialize (Hinv1 Hidx). rewrite Htg in Hinv1.
    assert (Hinv : tag_inv i (tags m) (fresh_tags m1 w) w').
    { eapply (tag_inv_runs _ _ _ m1); [| | |exact Hrun|exact Hinv1]; try done.
      intros ? Hf. apply list_elem_of_filter in Hf as [_ Hf]. congruence. }
    apply (ti_fresh _ _ _ _ Hinv). apply list_elem_of_filter.
    split; [done|congruence].
Qed.

Lemma save_S (fuel : nat) (env : Env) (nq : bool) (ct : option time)
    (m : Msg) (w : World) :
  save (S fuel) env nq ct m w = save_body (save fuel env) env nq ct m w.
Proof. reflexivity. Qed.

(** ** What steps keep of a stored record *)

Lemma holds_at_insert (k : Z) (Q : Msg → Prop) (w w' : World) (j : Z)
    (x : Msg) :
  db_msg w' = <[j := x]> (db_msg w) → (j = k → Q x) →
  holds_at k Q w → holds_at k Q w'.
Proof.
  intros Hdb Hx (r & Hr & HQ). unfold holds_at. rewrite Hdb.
  destruct (decide (j = k)) as [->|Hne].
  - exists x. rewrite lookup_insert_eq. auto.
  - exists r. by rewrite lookup_insert_ne.
Qed.

Lemma holds_at_step (k : Z) (Q : Msg → Prop) (w w' : World) :
  stable Q → step w w' → holds_at k Q w → holds_at k Q w'.
Proof.
  intros [Hchild Hstrip] [p r c Hr Hdb _ _|j r Hr Hdb _ _|j r _ Hdb _ _|Hdb _ _]
    Hk.
  - eapply holds_at_insert; [exact Hdb| |exact Hk].
    intros ->. destruct Hk as (r' & Hr' & HQ). apply Hchild. congruence.
  - eapply holds_at_insert; [exact Hdb| |exact Hk].
    intros ->. destruct Hk as (r' & Hr' & HQ). apply Hstrip. congruence.
  - unfold holds_at. by rewrite Hdb.
  - unfold holds_at. by rewrite Hdb.
Qed.

Lemma holds_at_steps (k : Z) (Q : Msg → Prop) (w w' : World) :
  stable Q → rtc step w w' → holds_at k Q w → holds_at k Q w'.
Proof. intros HQ. induction 1; eauto using holds_at_step. Qed.

Lemma holds_at_run (k : Z) (Q : Msg → Prop) (m : Msg) (w w' : World) :
  stable Q →
  (idx m = Some k → ∀ x, same_identity m x → Q x) →
  run m w w' → holds_at k Q w → holds_at k Q w'.
Proof.
  intros HQ Hself [i x Hi Hid Hs Hdb _ _|Hdb _|Hstep] Hk.
  - eapply holds_at_insert; [exact Hdb| |exact Hk].
    intros ->. by apply Hself.
  - unfold holds_at. by rewrite Hdb.
  - by eapply holds_at_step.
Qed.

Lemma holds_at_runs (k : Z) (Q : Msg → Prop) (m : Msg) (w w' : World) :
  stable Q →
  (idx m = Some k → ∀ x, same_identity m x → Q x) →
  rtc (run m) w w' → holds_at k Q w → holds_at k Q w'.
Proof. intros HQ Hself. induction 1; eauto using holds_at_run. Qed.

(** The save of a message that is not new either stops before it writes
    anything, and then does not return, or writes the record, reconciles
    the tags and takes steps. *)
Lemma save_old_shape (fuel : nat) (env : Env) (nq : bool) (ct : option time)
    (x : Msg) (w : World) (i : Z) (s : time) :
  wf_store w → idx x = Some i → stime x = Some s →
  let r := save fuel env nq ct x w in
  (res_world r = w ∧ res_out r ≠ Returned) ∨
  (∃ w2, db_msg w2 = <[i := x]> (db_msg w) ∧
         db_tag w2 = db_tag (reconcile i x w) ∧
         db_net w2 = db_net w ∧
         rtc step w2 (res_world r)).
Proof.
  intros Hwf Hi Hs r. subst r. destruct fuel as [|fuel]; [by left|].
  rewrite save_S. unfold save_body.
  destruct (cfg_get _ _ _) as [e|dp]; [by left|].
  right. rewrite (persist_old env ct x w i s Hi Hs).
  set (w1 := emit (Release MSGDB) (msg_set i x (emit (Acquire MSGDB) w))).
  destruct (reconcile_frame i x w1) as (Hm2 & Hn2 & _).
  exists (reconcile i x w1).
  split; [by rewrite Hm2|]. split.
  { apply map_eq. intros t. by rewrite !reconcile_lookup. }
  split; [by rewrite Hn2|].
  assert (Hwf2 : wf_store (reconcile i x w1)).
  { eapply wf_store_insert; [exact Hwf|exact Hi|by rewrite Hs|by rewrite Hm2]. }
  assert (Hx2 : db_msg (reconcile i x w1) !! i = Some x).
  { rewrite Hm2. apply lookup_insert_eq. }
  pose proof (thread_step_steps (save fuel env)
                (save_child_steps fuel env false None) i x
                (reconcile i x w1) Hwf2 Hx2) as Hs3.
  destruct (thread_step _ _ _ _) as [[m3 w3] out3].
  unfold res_world in *. simpl in Hs3.
  rewrite andb_false_r.
  destruct out3; simpl; [|done..].
  eapply rtc_r; [done|]. by apply step_quiet.
Qed.

(** ** The assertion on parent and children *)

(** C10. When the parent of a message is among its children, [save] raises
    [AssertionError] at line 178: by then the record has been written under
    its id and the tag table reconciled, and nothing is rolled back; the
    thread link is not touched, so every other record of the message table,
    the parent's included, is as it was. *)
Theorem save_asserts_parent_not_child (fuel : nat) (env : Env) (nq : bool)
    (ct : option time) (m : Msg) (w : World) (dp : string) (p : Z) :
  cfg_get env "system" "datapath" = inr dp →
  parent m = Some p → p ∈ children m →
  ∀ new i m1 w1,
    persist env ct m w = (new, i, m1, w1) →
    save (S fuel) env nq ct m w =
      (m1, reconcile i m1 w1, Raised AssertionError) ∧
    db_msg (reconcile i m1 w1) = <[i := m1]> (db_msg w) ∧
    (∀ k, k ≠ i → db_msg (reconcile i m1 w1) !! k = db_msg w !! k) ∧
    (∀ t, db_tag (reconcile i m1 w1) !! t =
          match db_tag w !! t with
          | Some msgs => Some (reconciled i (tags m) t msgs)
          | None => if decide (t ∈ tags m) then Some {[i]} else None
          end) ∧
    db_net (reconcile i m1 w1) = db_net w.
Proof.
  intros Hdp Hp Hc new i m1 w1 Hper.
  pose proof Hper as Hspec. apply persist_spec in Hspec
    as (_ & _ & _ & Htg & Hch & Hpar & _ & _ & Hdb & Ht & Hn & _).
  destruct (reconcile_frame i m1 w1) as (Hm2 & Hn2 & _).
  split; [|split; [|split; [|split]]].
  - rewrite save_S. unfold save_body. rewrite Hdp, Hper. unfold thread_step.
    assert (parent_not_child m1 = false) as ->; [|done].
    unfold parent_not_child. rewrite Hpar, Hp, Hch.
    by rewrite bool_decide_eq_true_2.
  - by rewrite Hm2.
  - intros k Hne. by rewrite Hm2, Hdb, lookup_insert_ne.
  - intros t. by rewrite reconcile_lookup, Ht, Htg.
  - by rewrite Hn2.
Qed.

(** ** Id and times of a persisted message *)

(** C9. A message that has been persisted (id and save time set) keeps its
    id, creation time and save time over any further save, whatever the
    arguments and however the call ends: the object comes back as it went in,
    or without its parent, and in a well-formed store the record under its
    id carries the same id and times.  The save time itself is set by the
    first persist, from [ctime] or the clock, and the message is not new
    afterwards. *)
Theorem resave_keeps_id_and_times (fuel : nat) (env : Env) :
  (∀ nq ct m w i s,
     idx m = Some i → stime m = Some s →
     let r := save fuel env nq ct m w in
     (res_msg r = m ∨ res_msg r = with_parent None m) ∧
     idx (res_msg r) = Some i ∧
     ctime (res_msg r) = ctime m ∧
     stime (res_msg r) = Some s ∧
     (∀ dp, wf_store w → cfg_get env "system" "datapath" = inr dp →
            (0 < fuel)%nat →
            holds_at i (λ rec, idx rec = Some i ∧ ctime rec = ctime m ∧
                               stime rec = Some s) (res_world r))) ∧
  (∀ nq ct m w dp,
     is_new m = true → cfg_get env "system" "datapath" = inr dp →
     let r := save (S fuel) env nq ct m w in
     stime (res_msg r) =
       Some (match ct with Some c => c | None => clock env (ticks w) end) ∧
     is_new (res_msg r) = false).
Proof.
  split.
  - intros nq ct m w i s Hi Hs r.
    assert (Hold : is_new m = false) by (apply is_new_false; eauto).
    pose proof (save_old_msg fuel env nq ct m w Hold) as Hm. fold r in Hm.
    split; [done|].
    split; [destruct Hm as [-> | ->]; done|].
    split; [destruct Hm as [-> | ->]; done|].
    split; [destruct Hm as [-> | ->]; done|].
    intros dp Hwf Hdp Hfuel. destruct fuel as [|fuel]; [lia|].
    pose proof (persist_old env ct m w i s Hi Hs) as Hp.
    destruct (save_run fuel env nq ct m w dp Hwf Hdp _ _ _ _ Hp)
      as (_ & Hdb & _ & Hrun).
    eapply holds_at_runs; [| |exact Hrun|].
    + split; intros; done.
    + intros _ x (Hx1 & Hx2 & Hx3 & _). repeat split; congruence.
    + exists m. rewrite Hdb, lookup_insert_eq. done.
  - intros nq ct m w dp Hnew Hdp r.
    pose proof (save_identity fuel env nq ct m w dp Hdp) as (Hid & _ & Hst & _).
    fold r in Hid, Hst. clearbody r.
    destruct (persist env ct m w) as [[[new j] m1] w1] eqn:Hp.
    cbn [fst snd] in Hid, Hst.
    apply persist_spec in Hp
      as (-> & Hj & _ & _ & _ & _ & _ & _ & _ & _ & _ & _ & _ & _ & Hn).
    rewrite Hnew in Hn. destruct Hn as [_ ->].
    assert (Hs : stime (res_msg r) =
      Some (match ct with Some c => c | None => clock env (ticks w) end)).
    { rewrite Hst. unfold stamped. by destruct ct. }
    split; [done|]. apply is_new_false.
    exists j, (match ct with Some c => c | None => clock env (ticks w) end).
    split; [congruence|done].
Qed.

(** ** A message that names itself as parent *)

Lemma cfg_get_error (env : Env) (section option : string) (e : exn) :
  cfg_get env section option = inl e → e = ConfigError section option.
Proof. unfold cfg_get. destruct (cfg env section option); congruence. Qed.

Lemma format_origin_line_error (env : Env) (e : exn) :
  format_origin_line env = inl e → ∃ s o, e = ConfigError s o.
Proof.
  unfold format_origin_line, get_origin_line.
  destruct (has_option env "msg" "origin_line").
  - destruct (cfg_get env "msg" "origin_line") as [e'|] eqn:He; [|done].
    intros [= <-]. apply cfg_get_error in He. eauto.
  - destruct (cfg_get env "system" "bbsname") as [e'|] eqn:He; [|done].
    intros [= <-]. apply cfg_get_error in He. eauto.
Qed.

Lemma thread_step_self (rec : bool → option time → Msg → World → result)
    (i : Z) (m pm : Msg) (w : World) :
  parent m = Some i → i ∉ children m →
  db_msg w !! i = Some pm → idx pm = Some i →
  thread_step rec i m w =
  (with_parent None m,
   emit (Release MSGDB)
     (msg_set i (with_parent None m)
        (emit (Acquire MSGDB) (logger LogStripParent w))),
   Returned).
Proof.
  intros Hp Hc Hpm Hi. unfold thread_step, parent_not_child, get_msg.
  rewrite Hp, Hpm, Hi. rewrite (bool_decide_eq_false_2 _ Hc). simpl.
  rewrite bool_decide_eq_false_2; [done|]. by intros [].
Qed.

(** The save of a message that is not new and has no parent returns, and
    changes the message table only under the id of the message. *)
Lemma save_orphan (fuel : nat) (env : Env) (nq : bool) (ct : option time)
    (x : Msg) (w : World) (i : Z) (s : time) (dp : string) :
  cfg_get env "system" "datapath" = inr dp →
  idx x = Some i → stime x = Some s → parent x = None →
  ∃ w', save (S fuel) env nq ct x w = (x, w', Returned) ∧
        db_msg w' = <[i := x]> (db_msg w) ∧ db_net w' = db_net w.
Proof.
  intros Hdp Hi Hs Hp. rewrite save_S. unfold save_body.
  rewrite Hdp, (persist_old env ct x w i s Hi Hs).
  unfold thread_step, parent_not_child. rewrite Hp. cbn [negb and_then].
  rewrite andb_false_r. cbn [and_then]. eexists. split; [reflexivity|].
  cbn [db_msg db_net logger].
  set (w1 := emit (Release MSGDB) (msg_set i x (emit (Acquire MSGDB) w))).
  destruct (reconcile_frame i x w1) as (-> & -> & _). done.
Qed.

Lemma route_cons (rec : bool → option time → Msg → World → result)
    (env : Env) (networks server_tags : list string) (origin : string)
    (i : Z) (t : string) (ts : list string) (m : Msg) (w : World) :
  route rec env networks server_tags origin i (t :: ts) m w =
  if bool_decide (t ∈ server_tags) then
    match cfg_get env ("msgnet_" +:+ t) "trans_db_name" with
    | inl e => (m, w, Raised e)
    | inr transdb_name =>
        rec false None (with_body (body m +:+ origin) m)
            (emit (Acquire transdb_name) w) >>> λ m w,
        (m, logger (LogOriginAdded t i)
              (emit (Release transdb_name)
                 (net_set transdb_name i (NetId i) w)), Returned)
    end
  else if bool_decide (t ∈ networks) then
    match cfg_get env ("msgnet_" +:+ t) "queue_db_name" with
    | inl e => (m, w, Raised e)
    | inr queuedb_name =>
        (m, logger (LogQueued t i)
              (emit (Release queuedb_name)
                 (net_set queuedb_name i (NetTag t)
                    (emit (Acquire queuedb_name) w))), Returned)
    end
  else route rec env networks server_tags origin i ts m w.
Proof. reflexivity. Qed.

Lemma route_orphan (fuel : nat) (env : Env) (networks server_tags : list string)
    (origin : string) (i : Z) (ts : list string) (m : Msg) (w : World)
    (s : time) (dp : string) :
  cfg_get env "system" "datapath" = inr dp →
  idx m = Some i → stime m = Some s → parent m = None →
  let r := route (save (S fuel) env) env networks server_tags origin i ts m w
  in
  parent (res_msg r) = None ∧
  (holds_at i (λ rec, parent rec = None) w →
   holds_at i (λ rec, parent rec = None) (res_world r)) ∧
  config_or_returned (res_out r).
Proof.
  intros Hdp Hi Hs Hp. induction ts as [|t ts IH].
  { split; [done|]. split; [done|]. by left. }
  rewrite route_cons.
  case_bool_decide; [|case_bool_decide]; [| |done].
  - destruct (cfg_get env _ "trans_db_name") as [e|name] eqn:He.
    { apply cfg_get_error in He as ->.
      split; [done|]. split; [done|]. right; eauto. }
    set (x := with_body (body m +:+ origin) m).
    destruct (save_orphan fuel env false None x (emit (Acquire name) w) i s dp
                Hdp Hi Hs Hp) as (w' & -> & Hdb & _).
    unfold res_msg, res_world, res_out. cbn [and_then fst snd].
    split; [done|]. split; [|by left].
    intros _. exists x. cbn [db_msg logger emit net_set].
    by rewrite Hdb, lookup_insert_eq.
  - destruct (cfg_get env _ "queue_db_name") as [e|name] eqn:He.
    { apply cfg_get_error in He as ->.
      split; [done|]. split; [done|]. right; eauto. }
    split; [done|]. split; [done|]. by left.
Qed.

Lemma dispatch_orphan (fuel : nat) (env : Env) (i : Z) (m : Msg) (w : World)
    (s : time) (dp : string) :
  cfg_get env "system" "datapath" = inr dp →
  idx m = Some i → stime m = Some s → parent m = None →
  let r := dispatch (save (S fuel) env) env i m w in
  parent (res_msg r) = None ∧
  (holds_at i (λ rec, parent rec = None) w →
   holds_at i (λ rec, parent rec = None) (res_world r)) ∧
  config_or_returned (res_out r).
Proof.
  intros Hdp Hi Hs Hp. unfold dispatch.
  destruct (negb _); [split; [done|]; split; [done|]; by left|].
  destruct (cfg_get env "msg" "network_tags") as [e|nets] eqn:He.
  { apply cfg_get_error in He as ->.
    split; [done|]. split; [done|]. right; eauto. }
  destruct (_ =? _)%nat; [split; [done|]; split; [done|]; by left|].
  destruct (format_origin_line env) as [e|origin] eqn:Ho.
  { apply format_origin_line_error in Ho as (s' & o & ->).
    split; [done|]. split; [done|]. right; eauto. }
  by eapply route_orphan.
Qed.

(** C5 (amended). A message saved with its own id as parent, and without
    that id among its children, loses the link: the object comes back with
    no parent, the record under its id has no parent, the condition is
    logged with [logger.error], and the call does not raise for it: it
    returns, or fails in a configuration lookup of the dispatch step, and
    it returns whenever dispatch is not entered. *)
Theorem save_strips_self_parent (fuel : nat) (env : Env) (nq : bool)
    (ct : option time) (m : Msg) (w : World) (dp : string) :
  cfg_get env "system" "datapath" = inr dp →
  ∀ new i m1 w1,
    persist env ct m w = (new, i, m1, w1) →
    parent m = Some i → i ∉ children m →
    let r := save (S (S fuel)) env nq ct m w in
    parent (res_msg r) = None ∧
    holds_at i (λ rec, parent rec = None) (res_world r) ∧
    LogStripParent ∈ log (res_world r) ∧
    config_or_returned (res_out r) ∧
    (nq = true ∨ new = false → res_out r = Returned).
Proof.
  intros Hdp new i m1 w1 Hper Hp Hc r. subst r. rewrite save_S.
  unfold save_body. rewrite Hdp, Hper.
  apply persist_spec in Hper
    as (_ & Hi & [s Hs] & _ & Hch & Hpar & _ & _ & Hdb & _).
  destruct (reconcile_frame i m1 w1) as (Hm2 & _).
  rewrite (thread_step_self _ i m1 m1);
    [|congruence|congruence|by rewrite Hm2, Hdb, lookup_insert_eq|done].
  cbn [and_then].
  set (m3 := with_parent None m1).
  set (w3 := emit (Release MSGDB) (msg_set i m3 _)).
  assert (Hh3 : holds_at i (λ rec, parent rec = None) w3).
  { exists m3. split; [|done]. apply lookup_insert_eq. }
  assert (Hl3 : LogStripParent ∈ log w3) by (simpl; left).
  destruct (negb nq && new) eqn:Hd.
  - destruct (dispatch_orphan fuel env i m3 w3 s dp Hdp Hi Hs eq_refl)
      as (Hpar4 & Hh4 & Hout4).
    pose proof (dispatch_extends (save (S fuel) env) env
                  (save_extends (S fuel) env) i m3 w3) as (_ & _ & _ & Hlog & _).
    destruct (dispatch _ _ _ _ _) as [[m4 w4] out4].
    unfold res_msg, res_world, res_out in *. cbn [fst snd] in *.
    specialize (Hh4 Hh3).
    assert (Hl4 : LogStripParent ∈ log w4).
    { destruct Hlog as [l ->]. apply elem_of_app. by right. }
    assert (Hnq : nq = true ∨ new = false → False).
    { intros [-> | ->]; [done|]. by rewrite andb_false_r in Hd. }
    destruct out4; cbn [and_then fst snd].
    + split_and!; [done|done|by right|by left|done].
    + split_and!; [done..|by intros ?%Hnq].
    + split_and!; [done..|by intros ?%Hnq].
  - unfold res_msg, res_world, res_out. cbn [and_then fst snd].
    split_and!; [done|done|by right|by left|done].
Qed.

(** ** The thread link *)

(** C6. When a message is saved with parent [p], a stored message other
    than itself, and the save returns, then the parent's record has been
    loaded, has gained the id of the message as a child, and has gone
    through [save] itself (all of it, with the default arguments), which
    returned.  That save is part of this one: the world it leaves is the
    world the thread step of this save leaves, and the rest of this save
    runs on from it.  So the record of the parent has been written once
    more under the lock of the message table, after the record of the
    message, and these writes are in the trace at the end; and at the end
    the record under [p] is the parent's as it was, with the id of the
    message among its children. *)
Theorem save_links_child_to_parent (fuel : nat) (env : Env) (nq : bool)
    (ct : option time) (m : Msg) (w : World) (dp : string) :
  wf_store w →
  cfg_get env "system" "datapath" = inr dp →
  ∀ new i m1 w1 p pm,
    persist env ct m w = (new, i, m1, w1) →
    parent m = Some p → db_msg w !! p = Some pm → p ≠ i →
    res_out (save (S fuel) env nq ct m w) = Returned →
    get_msg p (reconcile i m1 w1) = inr pm ∧
    ∃ pm' w3,
      save fuel env false None (add_child i pm) (reconcile i m1 w1) =
        (pm', w3, Returned) ∧
      thread_step (save fuel env) i m1 (reconcile i m1 w1) =
        (m1, w3, Returned) ∧
      save (S fuel) env nq ct m w =
        ((if negb nq && new then dispatch (save fuel env) env i m1 w3
          else (m1, w3, Returned)) >>> λ m' w',
         (m',
          logger (LogSaved new (bool_decide ("public"%string ∈ tags m'))
                           (bool_decide (parent m' ≠ None)) (recipient m'))
                 w',
          Returned)) ∧
      (∃ later,
         trace w3 =
         later ++ [Release MSGDB; SetMsg p; Acquire MSGDB]
               ++ trace (reconcile i m1 w1)) ∧
      trace w3 `suffix_of` trace (res_world (save (S fuel) env nq ct m w)) ∧
      holds_at p (λ rec, i ∈ children rec ∧ links_grown pm rec) w3 ∧
      holds_at p (λ rec, i ∈ children rec ∧ links_grown pm rec)
               (res_world (save (S fuel) env nq ct m w)) ∧
      (∃ rec, get_msg p (res_world (save (S fuel) env nq ct m w)) = inr rec ∧
              i ∈ children rec).
Proof.
  intros Hwf Hdp new i m1 w1 p pm Hper Hp Hpm Hne Hout.
  destruct (save_run fuel env nq ct m w dp Hwf Hdp new i m1 w1 Hper)
    as (Hwf2 & Hdb2 & _ & _).
  pose proof Hper as Hspec. apply persist_spec in Hspec
    as (_ & Hi & [s Hs] & _ & _ & Hpar & _).
  set (w2 := reconcile i m1 w1) in *.
  assert (Hpm2 : db_msg w2 !! p = Some pm).
  { by rewrite Hdb2, lookup_insert_ne. }
  assert (Hget : get_msg p w2 = inr pm) by (unfold get_msg; by rewrite Hpm2).
  destruct (Hwf p pm Hpm) as [Hpi [ps Hps]].
  assert (Hbody : save (S fuel) env nq ct m w =
    thread_step (save fuel env) i m1 w2 >>> λ m' w',
    (if negb nq && new then dispatch (save fuel env) env i m' w'
     else (m', w', Returned)) >>> λ m' w',
    (m',
     logger (LogSaved new (bool_decide ("public"%string ∈ tags m'))
                      (bool_decide (parent m' ≠ None)) (recipient m')) w',
     Returned)).
  { rewrite save_S. unfold save_body. by rewrite Hdp, Hper. }
  assert (Hpc : parent_not_child m1 = true).
  { destruct (parent_not_child m1) eqn:Hc; [done|]. exfalso.
    revert Hout. rewrite Hbody. unfold thread_step. rewrite Hc. done. }
  pose proof (save_old_shape fuel env false None (add_child i pm) w2 p ps
                Hwf2 Hpi Hps) as Hshape.
  pose proof (save_extends fuel env false None (add_child i pm) w2) as Hext.
  destruct (save fuel env false None (add_child i pm) w2)
    as [[pm' w3] out3] eqn:Hnested.
  assert (Hts : thread_step (save fuel env) i m1 w2 = (m1, w3, out3)).
  { unfold thread_step. rewrite Hpc, Hpar, Hp, Hget. cbn [negb].
    rewrite bool_decide_eq_true_2 by (rewrite Hpi; congruence).
    by rewrite Hnested. }
  assert (out3 = Returned) as ->.
  { destruct out3; [done|exfalso..]; revert Hout; rewrite Hbody, Hts; done. }
  rewrite Hts in Hbody. cbn [and_then] in Hbody.
  unfold res_world, res_out in Hshape, Hext. cbn [fst snd] in Hshape, Hext.
  destruct Hshape as [[_ Hnr]|(w2' & Hdb' & _ & _ & Hsteps)]; [done|].
  assert (Hst : stable (λ rec, i ∈ children rec ∧ links_grown pm rec)).
  { split.
    - intros r c (Hin & ?&?&?&?&?&?&?&?&?&?). unfold links_grown.
      split_and!; try done; simpl; set_solver.
    - intros r (Hin & ?&?&?&?&?&?&?&?&?&?). unfold links_grown.
      split_and!; try done. by right. }
  assert (Hh3 : holds_at p (λ rec, i ∈ children rec ∧ links_grown pm rec) w3).
  { eapply holds_at_steps; [exact Hst|exact Hsteps|].
    exists (add_child i pm). rewrite Hdb', lookup_insert_eq.
    split; [done|]. split; [simpl; set_solver|].
    unfold links_grown. split_and!; try done; [simpl; set_solver|by left]. }
  assert (Htr : ∃ later,
            trace w3 =
            later ++ [Release MSGDB; SetMsg p; Acquire MSGDB] ++ trace w2).
  { destruct fuel as [|f]; [simpl in Hnested; congruence|].
    destruct (save_key_present f env false None (add_child i pm) w2 dp Hdp)
      as (_ & _ & _ & [later Hlater] & _).
    rewrite Hnested in Hlater. unfold res_world in Hlater.
    cbn [fst snd] in Hlater.
    rewrite (persist_old env None (add_child i pm) w2 p ps Hpi Hps)
      in Hlater.
    by exists later. }
  assert (Hwf3 : wf_store w3).
  { eapply wf_store_steps; [exact Hsteps|].
    eapply wf_store_insert; [exact Hwf2| | |exact Hdb']; [done|]. simpl. eauto. }
  assert (Hold : is_new m1 = false) by (apply is_new_false; eauto).
  assert (Hd : holds_at p (λ rec, i ∈ children rec ∧ links_grown pm rec)
    (res_world (if negb nq && new then dispatch (save fuel env) env i m1 w3
                else (m1, w3, Returned)))).
  { destruct (negb nq && new); [|done].
    eapply holds_at_runs; [exact Hst| |apply dispatch_run; done|done].
    intros Hc. congruence. }
  assert (Hx : extends w3
    (res_world (if negb nq && new then dispatch (save fuel env) env i m1 w3
                else (m1, w3, Returned)))).
  { destruct (negb nq && new); [|done].
    apply dispatch_extends. apply save_extends. }
  split; [done|]. exists pm', w3.
  split; [done|]. split; [done|]. split; [exact Hbody|].
  split; [exact Htr|].
  rewrite Hbody. clear Hbody Hout.
  destruct (if negb nq && new then _ else _) as [[m4 w4] out4].
  unfold res_world in Hd, Hx |- *. cbn [fst snd] in Hd, Hx.
  destruct Hx as (_ & _ & Hsuf & _).
  assert (Hget4 : ∃ rec, get_msg p w4 = inr rec ∧ i ∈ children rec).
  { destruct Hd as (rec & Hrec & Hin & _). exists rec. unfold get_msg.
    by rewrite Hrec. }
  destruct out4; cbn [and_then fst snd trace logger]; split_and!; done.
Qed.

(** ** Network dispatch *)

Lemma split_on_nonempty (sep : ascii) (s : string) : split_on sep s ≠ [].
Proof.
  destruct s as [|c s']; simpl; [done|].
  destruct (Ascii.eqb c sep); [done|]. by destruct (split_on sep s').
Qed.

Lemma parse_tag_list_length (value : string) :
  (length (parse_tag_list value) =? 0)%nat = false.
Proof.
  unfold parse_tag_list. rewrite length_fmap.
  pose proof (split_on_nonempty ","%char value).
  by destruct (split_on _ _).
Qed.

Lemma route_skip (rec : bool → option time → Msg → World → result)
    (env : Env) (networks servers : list string) (origin : string) (i : Z)
    (pre rest : list string) (m : Msg) (w : World) :
  Forall (unrouted networks servers) pre →
  route rec env networks servers origin i (pre ++ rest) m w =
  route rec env networks servers origin i rest m w.
Proof.
  induction 1 as [|u pre [Hs Hn] _ IH]; [done|].
  rewrite <- app_comm_cons, route_cons.
  by rewrite (bool_decide_eq_false_2 _ Hs), (bool_decide_eq_false_2 _ Hn).
Qed.

Lemma route_unrouted (rec : bool → option time → Msg → World → result)
    (env : Env) (networks servers : list string) (origin : string) (i : Z)
    (ts : list string) (m : Msg) (w : World) :
  Forall (unrouted networks servers) ts →
  route rec env networks servers origin i ts m w = (m, w, Returned).
Proof.
  intros Hts. rewrite <- (app_nil_r ts). by rewrite route_skip.
Qed.

(** The one action of the routing loop, taken for the first tag that is a
    server tag or a network tag. *)
Lemma route_first (fuel : nat) (env : Env) (networks servers : list string)
    (origin : string) (i : Z) (m : Msg) (w : World) (s : time)
    (pre post : list string) (t : string) :
  wf_store w → idx m = Some i → stime m = Some s →
  Forall (unrouted networks servers) pre →
  let r := route (save fuel env) env networks servers origin i
                 (pre ++ t :: post) m w in
  res_out r = Returned →
  (t ∈ servers →
     ∃ name, cfg env ("msgnet_" +:+ t) "trans_db_name" = Some name ∧
       body (res_msg r) = body m +:+ origin ∧
       holds_at i (λ rec, body rec = body m +:+ origin) (res_world r) ∧
       db_net (res_world r) = net_insert name i (NetId i) (db_net w)) ∧
  (t ∉ servers → t ∈ networks →
     ∃ name, cfg env ("msgnet_" +:+ t) "queue_db_name" = Some name ∧
       res_msg r = m ∧
       db_msg (res_world r) = db_msg w ∧
       db_net (res_world r) = net_insert name i (NetTag t) (db_net w)).
Proof.
  intros Hwf Hi Hs Hpre r. subst r. rewrite route_skip by done.
  rewrite route_cons. case_bool_decide as Hsrv.
  - unfold cfg_get. destruct (cfg env _ "trans_db_name") as [name|]; [|done].
    set (x := with_body (body m +:+ origin) m).
    set (w0 := emit (Acquire name) w).
    assert (Hwf0 : wf_store w0) by (by eapply wf_store_eq).
    pose proof (save_old_shape fuel env false None x w0 i s Hwf0 Hi Hs)
      as Hshape.
    assert (Hold : is_new x = false) by (apply is_new_false; eauto).
    pose proof (save_old_msg fuel env false None x w0 Hold) as Hmsg.
    destruct (save fuel env false None x w0) as [[m' w'] out].
    unfold res_world, res_out, res_msg in *. cbn [fst snd] in *.
    destruct out; cbn [and_then fst snd]; [|done..]. intros _.
    split; [|done]. intros _. exists name. split; [done|].
    destruct Hshape as [[_ Hnr]|(w2 & Hdb & _ & Hn & Hsteps)]; [done|].
    split; [by destruct Hmsg as [-> | ->]|]. split.
    + assert (Hh : holds_at i (λ rec, body rec = body m +:+ origin) w').
      { eapply holds_at_steps; [|exact Hsteps|].
        - split; intros; done.
        - exists x. by rewrite Hdb, lookup_insert_eq. }
      destruct Hh as (rec & Hrec & Hq). by exists rec.
    + cbn [db_net logger emit net_set]. unfold net_insert.
      apply step_db_net in Hsteps. by rewrite Hsteps, Hn.
  - case_bool_decide as Hnet.
    + unfold cfg_get. destruct (cfg env _ "queue_db_name") as [name|]; [|done].
      intros _. split; [done|]. intros _ _. by exists name.
    + intros _. split; done.
Qed.

(** C3 (amended). Nothing is routed by a save that is not new, or that the
    caller suppressed, or when no network tags are configured: the network
    tables and the body stay as they are.  A new save that is not
    suppressed and returns takes at most one routing action, decided by the
    first tag of the message, in iteration order, that is a server tag or a
    network tag: if that tag is a server tag, the origin line is appended
    to the body, the message is saved again, and id ↦ id is written to the
    transit table of that tag; otherwise id ↦ tag is written to the queue
    table of that tag and the body is unchanged.  No other network table
    entry is written, whatever tags follow; with no such tag nothing is
    routed. *)
Theorem dispatch_first_match (fuel : nat) (env : Env) (nq : bool)
    (ct : option time) (m : Msg) (w : World) (dp : string) :
  wf_store w →
  cfg_get env "system" "datapath" = inr dp →
  ∀ new i m1 w1,
    persist env ct m w = (new, i, m1, w1) →
    let r := save (S fuel) env nq ct m w in
    (nq = true ∨ new = false ∨ cfg env "msg" "network_tags" = None →
       db_net (res_world r) = db_net w ∧ body (res_msg r) = body m) ∧
    (∀ networks_ini,
       nq = false → new = true → res_out r = Returned →
       cfg env "msg" "network_tags" = Some networks_ini →
       let networks := parse_tag_list networks_ini in
       let servers := server_tags_of env in
       (Forall (unrouted networks servers) (tags m) →
          db_net (res_world r) = db_net w ∧ body (res_msg r) = body m) ∧
       (∀ pre t post,
          tags m = pre ++ t :: post →
          Forall (unrouted networks servers) pre →
          (t ∈ servers →
             ∃ name origin,
               cfg env ("msgnet_" +:+ t) "trans_db_name" = Some name ∧
               format_origin_line env = inr origin ∧
               body (res_msg r) = body m +:+ origin ∧
               holds_at i (λ rec, body rec = body m +:+ origin)
                        (res_world r) ∧
               db_net (res_world r) =
                 net_insert name i (NetId i) (db_net w)) ∧
          (t ∉ servers → t ∈ networks →
             ∃ name,
               cfg env ("msgnet_" +:+ t) "queue_db_name" = Some name ∧
               body (res_msg r) = body m ∧
               db_net (res_world r) =
                 net_insert name i (NetTag t) (db_net w)))).
Proof.
  intros Hwf Hdp new i m1 w1 Hper r. subst r.
  destruct (save_run fuel env nq ct m w dp Hwf Hdp new i m1 w1 Hper)
    as (Hwf2 & Hdb2 & Hn2 & _).
  rewrite save_S. unfold save_body. rewrite Hdp, Hper.
  apply persist_spec in Hper
    as (_ & Hi & [s Hs] & Htg & _ & _ & Hbody & _).
  set (w2 := reconcile i m1 w1) in *.
  assert (Hx2 : db_msg w2 !! i = Some m1).
  { rewrite Hdb2. apply lookup_insert_eq. }
  pose proof (thread_step_steps (save fuel env)
                (save_child_steps fuel env false None) i m1 w2 Hwf2 Hx2)
    as Hsteps.
  pose proof (thread_step_msg (save fuel env) i m1 w2) as Hm3.
  destruct (thread_step _ _ _ _) as [[m3 w3] out3].
  unfold res_world, res_msg, res_out in *. cbn [fst snd] in *.
  assert (Hn3 : db_net w3 = db_net w).
  { apply step_db_net in Hsteps. congruence. }
  assert (Hb3 : body m3 = body m).
  { destruct Hm3 as [-> | ->]; done. }
  assert (Hwf3 : wf_store w3) by (by eapply wf_store_steps).
  assert (Hi3 : idx m3 = Some i) by (destruct Hm3 as [-> | ->]; done).
  assert (Hs3 : stime m3 = Some s) by (destruct Hm3 as [-> | ->]; done).
  assert (Htg3 : tags m3 = tags m) by (destruct Hm3 as [-> | ->]; done).
  split.
  - intros Hquiet. destruct out3; cbn [and_then fst snd]; [|done..].
    assert (Hd : (if negb nq && new then dispatch (save fuel env) env i m3 w3
                  else (m3, w3, Returned)) = (m3, w3, Returned)).
    { destruct Hquiet as [-> | [-> | Hnone]];
        [done|by rewrite andb_false_r|].
      destruct (negb nq && new); [|done].
      unfold dispatch, has_option. by rewrite Hnone. }
    rewrite Hd. done.
  - intros networks_ini -> -> Hout Hnets.
    set (networks := parse_tag_list networks_ini).
    set (servers := server_tags_of env).
    destruct out3; cbn [and_then fst snd] in Hout |- *; [|done..].
    cbn [negb andb] in Hout |- *.
    assert (Hd : dispatch (save fuel env) env i m3 w3 =
      match format_origin_line env with
      | inl e => (m3, w3, Raised e)
      | inr origin =>
          route (save fuel env) env networks servers origin i (tags m) m3 w3
      end).
    { unfold dispatch, has_option, cfg_get. rewrite Hnets. cbn [negb].
      rewrite parse_tag_list_length.
      unfold networks, servers, server_tags_of. rewrite Htg3.
      by destruct (cfg env "msg" "server_tags"). }
    rewrite Hd in Hout |- *. clear Hd.
    destruct (format_origin_line env) as [e|origin]; [done|].
    split.
    + intros Hnone. rewrite (route_unrouted _ _ _ _ _ _ _ _ _ Hnone) in Hout |- *.
      done.
    + intros pre t post Htags Hpre. rewrite Htags in Hout |- *.
      assert (Hr : res_out (route (save fuel env) env networks servers origin
                              i (pre ++ t :: post) m3 w3) = Returned).
      { by destruct (route _ _ _ _ _ _ _ _ _) as [[? ?] []]. }
      destruct (route_first fuel env networks servers origin i m3 w3 s pre
                  post t Hwf3 Hi3 Hs3 Hpre Hr) as [Hsrv Hnet].
      destruct (route _ _ _ _ _ _ _ _ _) as [[m4 w4] out4].
      unfold res_world, res_msg, res_out in *. cbn [fst snd] in *. subst out4.
      cbn [and_then fst snd db_net db_msg logger]. split.
      * intros Ht. destruct (Hsrv Ht) as (name & Hname & Hb & Hh & Hn).
        exists name, origin. rewrite <- Hb3, <- Hn3. done.
      * intros Hns Ht. destruct (Hnet Hns Ht) as (name & Hname & -> & _ & Hn).
        exists name. rewrite <- Hn3. done.
Qed.

(** ** Termination of the parent recursion *)

Lemma link_le_refl (d : gmap Z Msg) : link_le d d.
Proof. intros k. destruct (d !! k) as [r|] eqn:Hk; eauto. Qed.

Lemma link_le_trans (d1 d2 d3 : gmap Z Msg) :
  link_le d1 d2 → link_le d2 d3 → link_le d1 d3.
Proof.
  intros H12 H23 k. specialize (H12 k). specialize (H23 k).
  destruct (d1 !! k) as [r1|].
  - destruct H12 as (r2 & Hr2 & Hp12). rewrite Hr2 in H23.
    destruct H23 as (r3 & Hr3 & Hp23). exists r3. split; [done|].
    destruct Hp12 as [->|]; [done|by right].
  - by rewrite H12 in H23.
Qed.

Lemma link_le_insert (d' d : gmap Z Msg) (k : Z) (x r : Msg) :
  link_le d' d → d !! k = Some r →
  parent x = parent r ∨ parent x = None →
  link_le (<[k := x]> d') d.
Proof.
  intros Hle Hr Hp j. destruct (decide (k = j)) as [<-|Hne].
  - rewrite lookup_insert_eq. eauto.
  - rewrite lookup_insert_ne by done. apply Hle.
Qed.

Lemma link_le_step (w w' : World) :
  step w w' → link_le (db_msg w') (db_msg w).
Proof.
  intros [p r c Hr -> _ _|j r Hr -> _ _|j r _ -> _ _| -> _ _];
    try apply link_le_refl.
  - eapply link_le_insert; [apply link_le_refl|exact Hr|by left].
  - eapply link_le_insert; [apply link_le_refl|exact Hr|by right].
Qed.

Lemma link_le_steps (w w' : World) :
  rtc step w w' → link_le (db_msg w') (db_msg w).
Proof.
  induction 1 as [|w1 w2 w3 Hs _ IH]; [apply link_le_refl|].
  eapply link_le_trans; [exact IH|]. by apply link_le_step.
Qed.

Lemma chain_ends_le (d' d : gmap Z Msg) (i : Z) (h : nat) (o : option Z) :
  link_le d' d → chain_ends d i h o → chain_ends d' i h o.
Proof.
  intros Hle. induction 1 as [i h|i h p Hp|i h|i h p r Hr _ IH].
  - constructor.
  - apply chain_missing. specialize (Hle p).
    destruct (d' !! p) as [r'|]; [|done].
    destruct Hle as (r & Hr & _). congruence.
  - apply chain_self.
  - specialize (Hle p). destruct (d' !! p) as [r'|] eqn:Hr';
      [|by apply chain_missing].
    destruct Hle as (r0 & Hr0 & [Hp|Hp]).
    + eapply chain_link; [exact Hr'|]. by replace (parent r') with (parent r)
        by congruence.
    + eapply chain_link; [exact Hr'|]. rewrite Hp. constructor.
Qed.

(** The thread step ends when the saves it calls do. *)
Lemma thread_step_ends (fuel : nat) (env : Env) (h : nat) (i : Z) (x : Msg)
    (w : World) :
  (∀ h' y w' j s,
     wf_store w' → idx y = Some j → stime y = Some s →
     chain_ends (<[j := y]> (db_msg w')) j h' (parent y) → (h' < fuel)%nat →
     res_out (save fuel env false None y w') ≠ OutOfFuel) →
  wf_store w → db_msg w !! i = Some x →
  chain_ends (db_msg w) i h (parent x) → (h ≤ fuel)%nat →
  res_out (thread_step (save fuel env) i x w) ≠ OutOfFuel.
Proof.
  intros Hrec Hwf Hx Hchain Hfuel. unfold thread_step.
  destruct (parent_not_child x); [|done]. cbn [negb].
  destruct (parent x) as [p|] eqn:Hp; [|done].
  unfold get_msg. destruct (db_msg w !! p) as [pm|] eqn:Hpm; [|done].
  case_bool_decide as Hne; [|done].
  destruct (Hwf p pm Hpm) as [Hpi [ps Hps]].
  assert (Hout : res_out (save fuel env false None (add_child i pm) w)
                 ≠ OutOfFuel).
  { inversion Hchain as [|? ? ? Hnone| |? h' ? r Hr Hrest]; subst.
    - congruence.
    - congruence.
    - assert (r = pm) as -> by congruence.
      apply (Hrec h' _ _ p ps); [done|done|done| |lia].
      eapply chain_ends_le; [|exact Hrest].
      eapply link_le_insert; [apply link_le_refl|exact Hpm|by left]. }
  by destruct (save fuel env false None (add_child i pm) w) as [[? ?] ?].
Qed.

(** The save of a message that is not new ends when its parent chain does:
    a call stack one deeper than the chain is long is enough. *)
Lemma resave_ends (env : Env) (fuel : nat) :
  ∀ h nq ct x w i s,
    wf_store w → idx x = Some i → stime x = Some s →
    chain_ends (<[i := x]> (db_msg w)) i h (parent x) → (h < fuel)%nat →
    res_out (save fuel env nq ct x w) ≠ OutOfFuel.
Proof.
  induction fuel as [|fuel IH]; intros h nq ct x w i s Hwf Hi Hs Hchain Hh;
    [lia|].
  rewrite save_S. unfold save_body.
  destruct (cfg_get _ _ _) as [e|dp]; [done|].
  rewrite (persist_old env ct x w i s Hi Hs).
  set (w1 := emit (Release MSGDB) (msg_set i x (emit (Acquire MSGDB) w))).
  destruct (reconcile_frame i x w1) as (Hm2 & _).
  assert (Hdb2 : db_msg (reconcile i x w1) = <[i := x]> (db_msg w))
    by (by rewrite Hm2).
  assert (Hwf2 : wf_store (reconcile i x w1)).
  { eapply wf_store_insert; [exact Hwf|exact Hi|by rewrite Hs|done]. }
  assert (Hout : res_out (thread_step (save fuel env) i x (reconcile i x w1))
                 ≠ OutOfFuel).
  { eapply (thread_step_ends fuel env h); [|done| | |lia].
    - intros h' y w' j s' ? ? ? ? ?. by eapply (IH h').
    - rewrite Hdb2. apply lookup_insert_eq.
    - by rewrite Hdb2. }
  destruct (thread_step _ _ _ _) as [[m3 w3] out3].
  unfold res_out in *. cbn [snd] in Hout.
  rewrite andb_false_r. by destruct out3.
Qed.

Lemma route_ends (rec : bool → option time → Msg → World → result)
    (env : Env) (networks servers : list string) (origin : string) (i : Z)
    (ts : list string) (m : Msg) (w : World) :
  (∀ w', db_msg w' = db_msg w →
         res_out (rec false None (with_body (body m +:+ origin) m) w')
         ≠ OutOfFuel) →
  res_out (route rec env networks servers origin i ts m w) ≠ OutOfFuel.
Proof.
  intros Hrec. induction ts as [|t ts IH]; [done|]. rewrite route_cons.
  case_bool_decide; [|case_bool_decide]; [| |done].
  - destruct (cfg_get _ _ _) as [e|name]; [done|].
    specialize (Hrec (emit (Acquire name) w) eq_refl).
    destruct (rec false None _ _) as [[m' w'] out].
    unfold res_out in *. cbn [snd] in Hrec. by destruct out.
  - by destruct (cfg_get _ _ _).
Qed.

(** C8 (amended). [save] ends whenever the chain of parent links from the
    message ends within [h] links (at a message without a parent, at an id
    with no record, or at a message that is its own parent): a call stack of
    depth [h + 2] is never exhausted, the parent chain taking [h + 1] frames
    and the re-save of dispatch one more. *)
Theorem save_ends_on_finite_chain (fuel : nat) (env : Env) (nq : bool)
    (ct : option time) (m : Msg) (w : World) (h : nat) :
  wf_store w →
  ∀ new i m1 w1,
    persist env ct m w = (new, i, m1, w1) →
    chain_ends (db_msg w1) i h (parent m) →
    (h + 2 ≤ fuel)%nat →
    res_out (save fuel env nq ct m w) ≠ OutOfFuel.
Proof.
  intros Hwf new i m1 w1 Hper Hchain Hfuel.
  destruct fuel as [|fuel]; [lia|].
  destruct (cfg_get env "system" "datapath") as [e|dp] eqn:Hdp.
  { rewrite save_S. unfold save_body. by rewrite Hdp. }
  destruct (save_run fuel env nq ct m w dp Hwf Hdp new i m1 w1 Hper)
    as (Hwf2 & Hdb2 & _ & _).
  rewrite save_S. unfold save_body. rewrite Hdp, Hper.
  apply persist_spec in Hper
    as (_ & Hi & [s Hs] & _ & _ & Hpar & _ & _ & Hdb & _).
  set (w2 := reconcile i m1 w1) in *.
  assert (Hx2 : db_msg w2 !! i = Some m1).
  { rewrite Hdb2. apply lookup_insert_eq. }
  assert (Hdb21 : db_msg w2 = db_msg w1) by congruence.
  rewrite <- Hpar in Hchain.
  assert (Hout : res_out (thread_step (save fuel env) i m1 w2) ≠ OutOfFuel).
  { eapply (thread_step_ends fuel env h); [|done|done| |lia].
    - intros h' y w' j s' ? ? ? ? ?. by eapply (resave_ends env fuel h').
    - by rewrite Hdb21. }
  pose proof (thread_step_steps (save fuel env)
                (save_child_steps fuel env false None) i m1 w2 Hwf2 Hx2)
    as Hsteps.
  pose proof (thread_step_msg (save fuel env) i m1 w2) as Hm3.
  destruct (thread_step _ _ _ _) as [[m3 w3] out3].
  unfold res_world, res_msg, res_out in *. cbn [fst snd] in *.
  destruct out3; cbn [and_then fst snd]; [|done..].
  assert (Hd : res_out (if negb nq && new
                        then dispatch (save fuel env) env i m3 w3
                        else (m3, w3, Returned)) ≠ OutOfFuel).
  { destruct (negb nq && new); [|done]. unfold dispatch.
    repeat case_match; try done; apply route_ends; intros w' Hw';
      (eapply (resave_ends env fuel h);
       [eapply wf_store_eq; [eapply wf_store_steps; [exact Hsteps|exact Hwf2]
                            |exact Hw']
       |destruct Hm3 as [-> | ->]; exact Hi
       |destruct Hm3 as [-> | ->]; exact Hs
       |
       |lia]);
      (destruct Hm3 as [-> | ->]; [|apply chain_none]);
      (eapply chain_ends_le; [|exact Hchain]);
      (eapply link_le_insert; [|rewrite Hdb; apply lookup_insert_eq|by left]);
      rewrite Hw', <- Hdb21; by apply link_le_steps. }
  destruct (if negb nq && new then _ else _) as [[m4 w4] out4].
  unfold res_out in Hd. cbn [snd] in Hd. by destruct out4.
Qed.

(** ** A cycle of three messages *)

Lemma cycle_diverges (env : Env) (dp : string) (fuel : nat) :
  cfg_get env "system" "datapath" = inr dp →
  ∀ nq ct x w k,
    0 ≤ k < 3 → on_cycle k x →
    (∀ j, 0 ≤ j < 3 → j ≠ k → ∃ r, db_msg w !! j = Some r ∧ on_cycle j r) →
    res_out (save fuel env nq ct x w) = OutOfFuel.
Proof.
  intros Hdp. induction fuel as [|fuel IH];
    intros nq ct x w k Hk (Hi & [s Hs] & Hp & Hc) Hw; [done|].
  rewrite save_S. unfold save_body.
  rewrite Hdp, (persist_old env ct x w k s Hi Hs).
  set (w1 := emit (Release MSGDB) (msg_set k x (emit (Acquire MSGDB) w))).
  destruct (reconcile_frame k x w1) as (Hm2 & _).
  assert (Hdb2 : db_msg (reconcile k x w1) = <[k := x]> (db_msg w))
    by (by rewrite Hm2).
  assert (Hpk : 0 ≤ cycle_parent k < 3 ∧ cycle_parent k ≠ k ∧
                cycle_parent k ≠ cycle_child k ∧
                cycle_child (cycle_parent k) = k).
  { unfold cycle_parent, cycle_child.
    assert (k = 0 ∨ k = 1 ∨ k = 2) as [-> | [-> | ->]] by lia; done. }
  destruct Hpk as (Hrange & Hne & Hnc & Hback).
  destruct (Hw (cycle_parent k) Hrange Hne)
    as (r & Hr & Hri & Hrs & Hrp & Hrc).
  unfold thread_step, parent_not_child, get_msg.
  rewrite Hp, Hdb2, lookup_insert_ne, Hr by done.
  rewrite bool_decide_eq_false_2 by set_solver. cbn [negb].
  rewrite bool_decide_eq_true_2 by (rewrite Hri; congruence).
  assert (Hn : res_out (save fuel env false None (add_child k r)
                          (reconcile k x w1)) = OutOfFuel).
  { apply (IH _ _ _ _ (cycle_parent k)); [done| |].
    - split; [done|]. split; [done|]. split; [done|].
      simpl. rewrite Hback. set_solver.
    - intros j Hj Hjp. rewrite Hdb2. destruct (decide (j = k)) as [->|Hjk].
      + exists x. rewrite lookup_insert_eq. split; [done|].
        split; [done|]. split; [eauto|]. done.
      + rewrite lookup_insert_ne by done. by apply Hw. }
  destruct (save fuel env false None _ _) as [[pm' w3] out3].
  unfold res_out in *. cbn [snd] in Hn. by subst out3.
Qed.

(** ** Invariants of the store over saves *)

Lemma tags_indexed_step (w w' : World) :
  step w w' → tags_indexed w → tags_indexed w'.
Proof.
  intros [p r c Hr Hdb Ht _|j r Hr Hdb Ht _|j r Hr Hdb Ht _|Hdb Ht _] Hidx
    k x t; rewrite Hdb, Ht.
  - destruct (decide (p = k)) as [->|Hne].
    + rewrite lookup_insert_eq. intros [= <-]. by apply (Hidx k r).
    + rewrite lookup_insert_ne by done. apply Hidx.
  - destruct (decide (j = k)) as [->|Hne].
    + rewrite lookup_insert_eq. intros [= <-]. by apply (Hidx k r).
    + rewrite lookup_insert_ne by done. apply Hidx.
  - intros Hx Hin. by apply reconcile_dom, (Hidx k x).
  - apply Hidx.
Qed.

Lemma tags_indexed_run (m : Msg) (w w' : World) :
  run m w w' → tags_indexed w → tags_indexed w'.
Proof.
  intros [i x Hi Hid Hs Hdb Ht _|Hdb Ht|Hstep] Hidx.
  - intros k y t. rewrite Hdb, Ht. destruct (decide (i = k)) as [->|Hne].
    + rewrite lookup_insert_eq. intros [= <-] Hin.
      rewrite elem_of_dom, reconcile_lookup.
      destruct (db_tag w !! t); [eauto|]. rewrite decide_True by done. eauto.
    + rewrite lookup_insert_ne by done. intros Hy Hin.
      by apply reconcile_dom, (Hidx k y).
  - intros k y t. rewrite Hdb, Ht. apply Hidx.
  - by eapply tags_indexed_step.
Qed.

Lemma tags_indexed_runs (m : Msg) (w w' : World) :
  rtc (run m) w w' → tags_indexed w → tags_indexed w'.
Proof. induction 1; eauto using tags_indexed_run. Qed.

(** Saves keep every tag of every stored message a key of the tag table. *)
Lemma save_tags_indexed (fuel : nat) (env : Env) (nq : bool)
    (ct : option time) (m : Msg) (w : World) :
  wf_store w → tags_indexed w →
  tags_indexed (res_world (save fuel env nq ct m w)).
Proof.
  intros Hwf Hidx. destruct fuel as [|fuel]; [done|].
  destruct (cfg_get env "system" "datapath") as [e|dp] eqn:Hdp.
  { rewrite save_S. unfold save_body. by rewrite Hdp. }
  destruct (persist env ct m w) as [[[new i] m1] w1] eqn:Hp.
  destruct (save_run fuel env nq ct m w dp Hwf Hdp new i m1 w1 Hp)
    as (_ & Hdb2 & Hn2 & Hrun).
  apply persist_spec in Hp
    as (_ & Hi & Hs & _ & _ & _ & _ & _ & _ & Ht & _).
  assert (Hfirst : run m1 w (reconcile i m1 w1)).
  { eapply (run_self _ _ _ i m1); try done.
    apply map_eq. intros t. by rewrite !reconcile_lookup, Ht. }
  assert (Hidx2 : tags_indexed (reconcile i m1 w1))
    by (by eapply tags_indexed_run).
  by eapply tags_indexed_runs.
Qed.

Lemma tags_indexed_empty : tags_indexed empty_world.
Proof. intros k r t Hr. simpl in Hr. by rewrite lookup_empty in Hr. Qed.

(** * Worked examples *)

Lemma wf_saved_hello : wf_store (res_world saved_hello).
Proof. apply save_wf, wf_store_empty. Qed.

Lemma wf_saved_reply : wf_store (res_world saved_reply).
Proof. apply save_wf, wf_saved_hello. Qed.

Lemma indexed_saved_hello : tags_indexed (res_world saved_hello).
Proof. apply save_tags_indexed; [apply wf_store_empty|apply tags_indexed_empty]. Qed.

(** The scenario of two saves: ids 0 and 1, and the listings. *)
Example scenario_two_saves :
  idx (res_msg saved_hello) = Some 0 ∧
  idx (res_msg saved_reply) = Some 1 ∧
  list_msgs (Some ["offtopic"]) (res_world saved_reply) = {[1]} ∧
  list_msgs None (res_world saved_reply) = {[0; 1]} ∧
  list_msgs (Some ["nosuchtag"]) (res_world saved_reply) = ∅.
Proof. by vm_compute. Qed.

Lemma save_ids_increasing_witness :
  is_new msg_hello = true ∧
  cfg_get demo_env "system" "datapath" = inr "/var/x84"%string ∧
  idx (res_msg saved_hello) = Some 0 ∧
  (run_saves 3 demo_env demo_requests empty_world).1 = [0; 1; 2] ∧
  StronglySorted Z.lt (run_saves 3 demo_env demo_requests empty_world).1.
Proof.
  destruct (save_ids_increasing 2 demo_env) as [Hone _].
  destruct (save_ids_increasing 3 demo_env) as [_ Hseq].
  split; [reflexivity|]. split; [reflexivity|]. split.
  - destruct (Hone false None msg_hello empty_world "/var/x84"%string
                eq_refl eq_refl) as (_ & _ & Hzero & _).
    apply Hzero. reflexivity.
  - split; [vm_compute; reflexivity|].
    pose proof (Hseq demo_requests empty_world) as Hsorted.
    cbv zeta in Hsorted. exact (proj1 Hsorted).
Defined.

Lemma save_reconciles_tags_witness :
  cfg_get demo_env "system" "datapath" = inr "/var/x84"%string ∧
  wf_store (res_world saved_hello) ∧
  tags_indexed (res_world saved_hello) ∧
  idx (res_msg saved_reply) = Some 1 ∧
  (∃ s, db_tag (res_world saved_reply) !! "public"%string = Some s ∧
        (1 ∈ s ↔ "public"%string ∈ tags msg_reply)) ∧
  db_tag (res_world saved_reply) !! "offtopic"%string = Some {[1]}.
Proof.
  pose (p := persist demo_env None msg_reply (res_world saved_hello)).
  assert (Hp : persist demo_env None msg_reply (res_world saved_hello) =
               (true, 1, p.1.2, p.2)) by (vm_compute; reflexivity).
  destruct (save_reconciles_tags 2 demo_env false None msg_reply
              (res_world saved_hello) "/var/x84"%string eq_refl
              true 1 p.1.2 p.2 Hp) as (Hid & _ & _ & Hknown & Hfresh).
  split; [reflexivity|]. split; [apply wf_saved_hello|].
  split; [apply indexed_saved_hello|]. split; [exact Hid|]. split.
  - apply (Hknown wf_saved_hello). by vm_compute.
  - apply (Hfresh wf_saved_hello indexed_saved_hello).
    + left.
    + by vm_compute.
Defined.

Lemma dispatch_first_match_witness :
  wf_store (res_world saved_reply) ∧
  tags msg_local = [] ++ "local"%string :: ["fidonet"%string] ∧
  "local"%string ∈ server_tags_of demo_env ∧
  res_out (save 3 demo_env false None msg_local (res_world saved_reply))
    = Returned ∧
  ∃ name origin,
    cfg demo_env "msgnet_local" "trans_db_name" = Some name ∧
    format_origin_line demo_env = inr origin ∧
    body (res_msg (save 3 demo_env false None msg_local
                        (res_world saved_reply)))
      = body msg_local +:+ origin ∧
    holds_at 2 (λ rec, body rec = body msg_local +:+ origin)
      (res_world (save 3 demo_env false None msg_local
                       (res_world saved_reply))) ∧
    db_net (res_world (save 3 demo_env false None msg_local
                            (res_world saved_reply)))
      = net_insert name 2 (NetId 2) (db_net (res_world saved_reply)).
Proof.
  pose (p := persist demo_env None msg_local (res_world saved_reply)).
  assert (Hp : persist demo_env None msg_local (res_world saved_reply) =
               (true, 2, p.1.2, p.2)) by (vm_compute; reflexivity).
  assert (Hsrv : "local"%string ∈ server_tags_of demo_env)
    by (vm_compute; left).
  assert (Hout : res_out (save 3 demo_env false None msg_local
                               (res_world saved_reply)) = Returned)
    by (vm_compute; reflexivity).
  destruct (dispatch_first_match 2 demo_env false None msg_local
              (res_world saved_reply) "/var/x84"%string wf_saved_reply eq_refl
              true 2 p.1.2 p.2 Hp) as [_ Hroute].
  destruct (Hroute "fidonet, x84net, local"%string eq_refl eq_refl Hout
              eq_refl)
    as [_ Hfirst].
  destruct (Hfirst [] "local"%string ["fidonet"%string] eq_refl
              (Forall_nil_2 _)) as [Htransit _].
  split; [apply wf_saved_reply|]. split; [reflexivity|].
  split; [exact Hsrv|]. split; [exact Hout|].
  exact (Htransit Hsrv).
Defined.

(** C3, as stated, fails: the message carries the server tag [local], yet
    its set yields the network tag [x84net] first, so the save queues it
    for [x84net], leaves the body alone and writes no transit entry. *)
Lemma dispatch_server_tag_not_first :
  "local"%string ∈ tags msg_cross ∧
  "local"%string ∈ server_tags_of demo_env ∧
  is_new msg_cross = true ∧
  res_out (save 3 demo_env false None msg_cross (res_world saved_reply))
    = Returned ∧
  body (res_msg (save 3 demo_env false None msg_cross
                      (res_world saved_reply))) = body msg_cross ∧
  db_net (res_world (save 3 demo_env false None msg_cross
                          (res_world saved_reply))) !! "localtrans"%string
    = None ∧
  db_net (res_world (save 3 demo_env false None msg_cross
                          (res_world saved_reply))) !! "x84queue"%string
    = Some {[2 := NetTag "x84net"]}.
Proof.
  split; [right; left|]. split; [vm_compute; left|].
  by vm_compute.
Qed.

Lemma save_strips_self_parent_witness :
  cfg_get demo_env "system" "datapath" = inr "/var/x84"%string ∧
  parent msg_selfnew = Some 1 ∧ (1 ∉ children msg_selfnew) ∧
  parent (res_msg (save 3 demo_env false None msg_selfnew
                        (res_world saved_hello))) = None ∧
  holds_at 1 (λ rec, parent rec = None)
    (res_world (save 3 demo_env false None msg_selfnew
                     (res_world saved_hello))) ∧
  LogStripParent ∈ log (res_world (save 3 demo_env false None msg_selfnew
                                        (res_world saved_hello))) ∧
  config_or_returned (res_out (save 3 demo_env false None msg_selfnew
                                    (res_world saved_hello))).
Proof.
  pose (p := persist demo_env None msg_selfnew (res_world saved_hello)).
  assert (Hp : persist demo_env None msg_selfnew (res_world saved_hello) =
               (true, 1, p.1.2, p.2)) by (vm_compute; reflexivity).
  assert (Hc : 1 ∉ children msg_selfnew) by (by vm_compute).
  destruct (save_strips_self_parent 1 demo_env false None msg_selfnew
              (res_world saved_hello) "/var/x84"%string eq_refl
              true 1 p.1.2 p.2 Hp eq_refl Hc)
    as (Hpar & Hrec & Hlog & Hout & _).
  split; [reflexivity|]. split; [reflexivity|]. split; [exact Hc|].
  split; [exact Hpar|]. split; [exact Hrec|]. split; [exact Hlog|exact Hout].
Defined.

(** C5, as stated, fails: the message is its own parent, but it also lists
    itself as a child, so line 178 raises [AssertionError] before the link
    is looked at: the record stays persisted with the parent, and nothing
    is logged. *)
Lemma self_parent_and_child_raises :
  idx msg_selfchild = Some 0 ∧ parent msg_selfchild = Some 0 ∧
  res_out (save 3 demo_env false None msg_selfchild (res_world saved_hello))
    = Raised AssertionError ∧
  parent <$> db_msg (res_world (save 3 demo_env false None msg_selfchild
                                     (res_world saved_hello))) !! 0
    = Some (Some 0) ∧
  log (res_world (save 3 demo_env false None msg_selfchild
                       (res_world saved_hello)))
    = log (res_world saved_hello).
Proof. by vm_compute. Qed.

Lemma save_links_child_to_parent_witness :
  wf_store (res_world saved_hello) ∧
  parent msg_reply = Some 0 ∧
  db_msg (res_world saved_hello) !! 0 = Some (res_msg saved_hello) ∧
  res_out saved_reply = Returned ∧
  (∃ rec, get_msg 0 (res_world saved_reply) = inr rec ∧ 1 ∈ children rec).
Proof.
  pose (p := persist demo_env None msg_reply (res_world saved_hello)).
  assert (Hp : persist demo_env None msg_reply (res_world saved_hello) =
               (true, 1, p.1.2, p.2)) by (vm_compute; reflexivity).
  assert (Hpm : db_msg (res_world saved_hello) !! 0 =
                Some (res_msg saved_hello)) by (vm_compute; reflexivity).
  assert (Hout : res_out saved_reply = Returned) by (vm_compute; reflexivity).
  destruct (save_links_child_to_parent 2 demo_env false None msg_reply
              (res_world saved_hello) "/var/x84"%string wf_saved_hello eq_refl
              true 1 p.1.2 p.2 0 (res_msg saved_hello) Hp eq_refl Hpm
              ltac:(discriminate) Hout)
    as (_ & pm' & w3 & _ & _ & _ & _ & _ & _ & _ & Hchild).
  split; [apply wf_saved_hello|]. split; [reflexivity|].
  split; [exact Hpm|]. split; [exact Hout|exact Hchild].
Defined.

Lemma save_ends_on_finite_chain_witness :
  wf_store (res_world saved_hello) ∧
  chain_ends
    (db_msg (persist demo_env None msg_reply (res_world saved_hello)).2)
    1 1%nat (parent msg_reply) ∧
  (1 + 2 ≤ 3)%nat ∧
  res_out saved_reply ≠ OutOfFuel.
Proof.
  pose (p := persist demo_env None msg_reply (res_world saved_hello)).
  assert (Hp : persist demo_env None msg_reply (res_world saved_hello) =
               (true, 1, p.1.2, p.2)) by (vm_compute; reflexivity).
  assert (Hchain : chain_ends (db_msg p.2) 1 1%nat (parent msg_reply)).
  { apply (chain_link _ 1 0%nat 0 (res_msg saved_hello)).
    - vm_compute. reflexivity.
    - apply chain_none. }
  split; [apply wf_saved_hello|]. split; [exact Hchain|]. split; [lia|].
  exact (save_ends_on_finite_chain 3 demo_env false None msg_reply
           (res_world saved_hello) 1%nat wf_saved_hello true 1 p.1.2 p.2 Hp
           Hchain ltac:(lia)).
Defined.

(** C8, as stated, fails: after the three saves above the caller makes
    message 0 a reply to message 2 and saves it.  The parent links now run
    0, 2, 1, 0: each save calls the save of the next record, nothing sees
    that an id is visited again, nothing is raised, and no call stack is
    deep enough. *)
Lemma save_diverges_on_cycle :
  diverges demo_env false None msg_hello_cycled (res_world saved_third).
Proof.
  assert (H0 : on_cycle 0 msg_hello_cycled).
  { split; [vm_compute; reflexivity|]. split; [vm_compute; by eexists|].
    split; [vm_compute; reflexivity|]. by vm_compute. }
  assert (H1 : ∃ r, db_msg (res_world saved_third) !! 1 = Some r ∧
                    on_cycle 1 r).
  { exists (add_child 2 (res_msg saved_reply)).
    split; [vm_compute; reflexivity|].
    split; [vm_compute; reflexivity|]. split; [vm_compute; by eexists|].
    split; [vm_compute; reflexivity|]. by vm_compute. }
  assert (H2 : ∃ r, db_msg (res_world saved_third) !! 2 = Some r ∧
                    on_cycle 2 r).
  { exists (res_msg saved_third).
    split; [vm_compute; reflexivity|].
    split; [vm_compute; reflexivity|]. split; [vm_compute; by eexists|].
    split; [vm_compute; reflexivity|]. by vm_compute. }
  assert (Hdp : cfg_get demo_env "system" "datapath" = inr "/var/x84"%string)
    by (vm_compute; reflexivity).
  intros fuel.
  apply (cycle_diverges demo_env "/var/x84"%string fuel Hdp
           false None msg_hello_cycled (res_world saved_third) 0);
    [lia|exact H0|].
  intros j Hj Hne. assert (j = 1 ∨ j = 2) as [-> | ->] by lia; done.
Qed.

Lemma resave_keeps_id_and_times_witness :
  idx (res_msg saved_hello) = Some 0 ∧
  stime (res_msg saved_hello) = Some 1000 ∧
  wf_store (res_world saved_reply) ∧
  idx (res_msg (save 3 demo_env false (Some 77) (res_msg saved_hello)
                     (res_world saved_reply))) = Some 0 ∧
  ctime (res_msg (save 3 demo_env false (Some 77) (res_msg saved_hello)
                       (res_world saved_reply))) = 1 ∧
  stime (res_msg (save 3 demo_env false (Some 77) (res_msg saved_hello)
                       (res_world saved_reply))) = Some 1000 ∧
  holds_at 0 (λ rec, idx rec = Some 0 ∧ ctime rec = 1 ∧
                     stime rec = Some 1000)
    (res_world (save 3 demo_env false (Some 77) (res_msg saved_hello)
                     (res_world saved_reply))) ∧
  stime (res_msg saved_hello) = Some (clock demo_env 0).
Proof.
  destruct (resave_keeps_id_and_times 3 demo_env) as [Hold _].
  destruct (resave_keeps_id_and_times 2 demo_env) as [_ Hnew].
  destruct (Hold false (Some 77) (res_msg saved_hello) (res_world saved_reply)
              0 1000 eq_refl eq_refl) as (_ & Hi & Hc & Hs & Hrec).
  destruct (Hnew false None msg_hello empty_world "/var/x84"%string
              eq_refl eq_refl) as (Hfirst & _).
  split; [reflexivity|]. split; [reflexivity|].
  split; [apply wf_saved_reply|]. split; [exact Hi|]. split; [exact Hc|].
  split; [exact Hs|]. split; [|exact Hfirst].
  exact (Hrec "/var/x84"%string wf_saved_reply eq_refl ltac:(lia)).
Defined.

Lemma save_asserts_parent_not_child_witness :
  cfg_get demo_env "system" "datapath" = inr "/var/x84"%string ∧
  parent msg_knot = Some 0 ∧ 0 ∈ children msg_knot ∧
  res_out (save 3 demo_env false None msg_knot (res_world saved_hello))
    = Raised AssertionError ∧
  is_Some (db_msg (res_world (save 3 demo_env false None msg_knot
                                   (res_world saved_hello))) !! 1) ∧
  db_msg (res_world (save 3 demo_env false None msg_knot
                          (res_world saved_hello))) !! 0
    = db_msg (res_world saved_hello) !! 0.
Proof.
  pose (p := persist demo_env None msg_knot (res_world saved_hello)).
  assert (Hp : persist demo_env None msg_knot (res_world saved_hello) =
               (true, 1, p.1.2, p.2)) by (vm_compute; reflexivity).
  assert (Hc : 0 ∈ children msg_knot) by (by vm_compute).
  destruct (save_asserts_parent_not_child 2 demo_env false None msg_knot
              (res_world saved_hello) "/var/x84"%string 0 eq_refl eq_refl Hc
              true 1 p.1.2 p.2 Hp) as (Heq & Hdb & Hother & _).
  split; [reflexivity|]. split; [reflexivity|]. split; [exact Hc|].
  change (save 3 demo_env false None msg_knot (res_world saved_hello))
    with (save (S 2) demo_env false None msg_knot (res_world saved_hello)).
  rewrite Heq. unfold res_out, res_world. cbn [fst snd].
  split; [reflexivity|]. split.
  - rewrite Hdb, lookup_insert_eq. by eexists.
  - apply Hother. discriminate.
Defined.

(** * Further properties of the store *)

Lemma persist_envelope (env : Env) (ct : option time) (m : Msg) (w : World) :
  author (persist env ct m w).1.2 = author m ∧
  subject (persist env ct m w).1.2 = subject m.
Proof.
  unfold persist.
  destruct (idx m) as [j|]; [destruct (stime m) as [s|]|];
    destruct ct as [c|]; done.
Qed.

Lemma dom_step (w w' : World) :
  step w w' → dom (db_msg w') = dom (db_msg w).
Proof.
  intros [p r c Hr -> _ _|j r Hr -> _ _|j r _ -> _ _| -> _ _]; try done.
  - rewrite dom_insert_L. apply elem_of_dom_2 in Hr. set_solver.
  - rewrite dom_insert_L. apply elem_of_dom_2 in Hr. set_solver.
Qed.

Lemma dom_runs (m : Msg) (i : Z) (w w' : World) :
  idx m = Some i → rtc (run m) w w' → i ∈ dom (db_msg w) →
  dom (db_msg w') = dom (db_msg w).
Proof.
  intros Hi. induction 1 as [|w1 w2 w3 Hr _ IH]; [done|]. intros Hin.
  assert (Hd : dom (db_msg w2) = dom (db_msg w1)).
  { destruct Hr as [i' x Hi' _ _ Hdb _ _|Hdb _|Hstep].
    - assert (i' = i) as -> by congruence.
      rewrite Hdb, dom_insert_L. set_solver.
    - by rewrite Hdb.
    - by apply dom_step. }
  rewrite IH; [done|]. by rewrite Hd.
Qed.

(** X1. The store stays well formed: every record sits under its own id and
    carries a save time, from the empty store on and over every save,
    however the save ends. *)
Theorem store_stays_well_formed :
  wf_store empty_world ∧
  (∀ fuel env nq ct m w,
     wf_store w → wf_store (res_world (save fuel env nq ct m w))) ∧
  (∀ fuel env reqs, wf_store (run_saves fuel env reqs empty_world).2).
Proof.
  split; [apply wf_store_empty|]. split.
  - intros. by apply save_wf.
  - intros. apply run_saves_wf, wf_store_empty.
Qed.

(** X2. The tag table covers the stored messages: every tag of every record of
    the message table is a key of the tag table, from the empty store on
    and over every save. *)
Theorem stored_tags_stay_indexed :
  tags_indexed empty_world ∧
  (∀ fuel env nq ct m w,
     wf_store w → tags_indexed w →
     tags_indexed (res_world (save fuel env nq ct m w))).
Proof.
  split; [apply tags_indexed_empty|]. intros. by apply save_tags_indexed.
Qed.

(** X3. No save deletes a key of the tag table or of the message table, even
    when reconciliation leaves a tag with no member. *)
Theorem save_deletes_no_entry (fuel : nat) (env : Env) (nq : bool)
    (ct : option time) (m : Msg) (w : World) :
  dom (db_tag w) ⊆ dom (db_tag (res_world (save fuel env nq ct m w))) ∧
  dom (db_msg w) ⊆ dom (db_msg (res_world (save fuel env nq ct m w))) ∧
  (∀ i t, idx m = Some i → stime m ≠ None → tags m = [] →
          db_tag w !! t = Some {[i]} →
          db_tag (reconcile i m (persist env ct m w).2) !! t = Some ∅).
Proof.
  destruct (save_extends fuel env nq ct m w) as (Hm & Ht & _).
  split; [done|]. split; [done|].
  intros i t Hi Hs Htags Ht0.
  destruct (stime m) as [s|] eqn:Hst; [|done].
  rewrite (persist_old env ct m w i s Hi Hst). cbn [snd].
  rewrite reconcile_lookup. cbn [db_tag emit msg_set]. rewrite Ht0.
  f_equal. unfold reconciled. rewrite Htags.
  rewrite decide_False by (intros Hin; by apply elem_of_nil in Hin).
  set_solver.
Qed.

(** X4. A save adds exactly the key of the saved message to the message
    table;
    so [list_msgs()] afterwards is [list_msgs()] before plus that id. *)
Theorem save_adds_one_key (fuel : nat) (env : Env) (nq : bool)
    (ct : option time) (m : Msg) (w : World) (dp : string) :
  wf_store w →
  cfg_get env "system" "datapath" = inr dp →
  ∀ new i m1 w1,
    persist env ct m w = (new, i, m1, w1) →
    dom (db_msg (res_world (save (S fuel) env nq ct m w)))
      = {[i]} ∪ dom (db_msg w) ∧
    list_msgs None (res_world (save (S fuel) env nq ct m w))
      = {[i]} ∪ list_msgs None w.
Proof.
  intros Hwf Hdp new i m1 w1 Hp.
  destruct (save_run fuel env nq ct m w dp Hwf Hdp new i m1 w1 Hp)
    as (_ & Hdb2 & _ & Hrun).
  apply persist_spec in Hp as (_ & Hi & _).
  assert (Hdom : dom (db_msg (res_world (save (S fuel) env nq ct m w)))
                 = {[i]} ∪ dom (db_msg w)).
  { rewrite (dom_runs m1 i _ _ Hi Hrun); rewrite Hdb2, dom_insert_L;
      [done|set_solver]. }
  split; [done|]. unfold list_msgs. by rewrite !msg_keys_dom.
Qed.

(** X5. Round trip: after a save, [get_msg] of the id of the message yields a
    record with the author, recipient, subject and tags the caller set. *)
Theorem save_round_trip (fuel : nat) (env : Env) (nq : bool)
    (ct : option time) (m : Msg) (w : World) (dp : string) :
  wf_store w →
  cfg_get env "system" "datapath" = inr dp →
  ∀ i, idx (res_msg (save (S fuel) env nq ct m w)) = Some i →
  ∃ rec, get_msg i (res_world (save (S fuel) env nq ct m w)) = inr rec ∧
         idx rec = Some i ∧ author rec = author m ∧
         recipient rec = recipient m ∧ subject rec = subject m ∧
         tags rec = tags m.
Proof.
  intros Hwf Hdp i Hidx.
  pose proof (save_identity fuel env nq ct m w dp Hdp) as (Hid & _).
  pose proof (persist_envelope env ct m w) as [Hau Hsu].
  destruct (persist env ct m w) as [[[new j] m1] w1] eqn:Hp.
  cbn [fst snd] in Hid, Hau, Hsu.
  destruct (save_run fuel env nq ct m w dp Hwf Hdp new j m1 w1 Hp)
    as (_ & Hdb2 & _ & Hrun).
  apply persist_spec in Hp
    as (_ & Hj & _ & Htg & _ & _ & _ & Hre & _).
  assert (j = i) as -> by congruence.
  assert (Hh : holds_at i
    (λ rec, idx rec = Some i ∧ author rec = author m ∧
            recipient rec = recipient m ∧ subject rec = subject m ∧
            tags rec = tags m)
    (res_world (save (S fuel) env nq ct m w))).
  { eapply holds_at_runs; [| |exact Hrun|].
    - split; intros; done.
    - intros _ x (Hx1 & _ & _ & Hx4 & Hx5 & Hx6 & Hx7 & _).
      repeat split; congruence.
    - exists m1. rewrite Hdb2, lookup_insert_eq. done. }
  destruct Hh as (rec & Hrec & HQ). exists rec. split; [|done].
  unfold get_msg. by rewrite Hrec.
Qed.

(** The scenario of a forwarded network: the queue table of [fidonet] gains
    id ↦ tag, and the body is as it was. *)
Example scenario_fidonet_queue :
  db_net (res_world (save 3 fido_env false None msg_fido empty_world))
    = {["fidoqueue"%string := {[0 := NetTag "fidonet"]}]} ∧
  body (res_msg (save 3 fido_env false None msg_fido empty_world))
    = "body"%string ∧
  res_out (save 3 fido_env false None msg_fido empty_world) = Returned.
Proof. by vm_compute. Qed.

(** The scenario of a hosted network: the body gains the origin line, and
    the transit table of [local] gains id ↦ id. *)
Example scenario_local_transit :
  db_net (res_world (save 3 local_env false None msg_hosted empty_world))
    = {["localtrans"%string := {[0 := NetId 0]}]} ∧
  body (res_msg (save 3 local_env false None msg_hosted empty_world))
    = ("body" +:+ origin_rule +:+ "Sent from afar")%string ∧
  (body <$> db_msg (res_world (save 3 local_env false None msg_hosted
                                    empty_world)) !! 0)
    = Some ("body" +:+ origin_rule +:+ "Sent from afar")%string ∧
  res_out (save 3 local_env false None msg_hosted empty_world) = Returned.
Proof. by vm_compute. Qed.

Lemma save_deletes_no_entry_witness :
  "public"%string ∈ dom (db_tag (res_world saved_hello)) ∧
  "public"%string ∈ dom (db_tag (res_world saved_reply)).
Proof.
  split; [by vm_compute|].
  apply (save_deletes_no_entry 3 demo_env false None msg_reply
           (res_world saved_hello)). by vm_compute.
Defined.

Lemma save_adds_one_key_witness :
  wf_store (res_world saved_hello) ∧
  list_msgs None (res_world saved_reply)
    = {[1]} ∪ list_msgs None (res_world saved_hello).
Proof.
  pose (p := persist demo_env None msg_reply (res_world saved_hello)).
  assert (Hp : persist demo_env None msg_reply (res_world saved_hello) =
               (true, 1, p.1.2, p.2)) by (vm_compute; reflexivity).
  split; [apply wf_saved_hello|].
  apply (save_adds_one_key 2 demo_env false None msg_reply
           (res_world saved_hello) "/var/x84"%string wf_saved_hello eq_refl
           true 1 p.1.2 p.2 Hp).
Defined.

Lemma save_round_trip_witness :
  wf_store (res_world saved_hello) ∧
  idx (res_msg saved_reply) = Some 1 ∧
  ∃ rec, get_msg 1 (res_world saved_reply) = inr rec ∧
         idx rec = Some 1 ∧ author rec = author msg_reply ∧
         recipient rec = recipient msg_reply ∧
         subject rec = subject msg_reply ∧ tags rec = tags msg_reply.
Proof.
  assert (Hi : idx (res_msg saved_reply) = Some 1)
    by (vm_compute; reflexivity).
  split; [apply wf_saved_hello|]. split; [exact Hi|].
  exact (save_round_trip 2 demo_env false None msg_reply
           (res_world saved_hello) "/var/x84"%string wf_saved_hello eq_refl
           1 Hi).
Defined.

(** * The rest of the module *)

(** ** The tag table agrees with the stored records *)

Lemma tag_consistent_reconcile (w w' : World) (j : Z) (x : Msg) :
  db_msg w' !! j = Some x →
  (∀ k, k ≠ j → db_msg w' !! k = db_msg w !! k) →
  db_tag w' = db_tag (reconcile j x w) →
  tag_consistent w → tag_consistent w'.
Proof.
  intros Hj Hother Ht Hc t i. rewrite Ht, reconcile_lookup.
  destruct (decide (i = j)) as [->|Hne].
  - transitivity (t ∈ tags x).
    + destruct (db_tag w !! t) as [s0|] eqn:Hs0.
      * split.
        -- intros (s & [= <-] & Hin).
           apply reconciled_member in Hin. by rewrite decide_True in Hin.
        -- intros Hin. eexists. split; [done|].
           apply reconciled_member. by rewrite decide_True.
      * destruct (decide (t ∈ tags x)) as [Hin|Hin].
        -- split; [done|]. intros _. exists {[j]}. split; [done|set_solver].
        -- split; [|done]. by intros (s & ? & _).
    + split.
      * intros Hin. by exists x.
      * intros (r & Hr & Hin). congruence.
  - rewrite (Hother i Hne), <- (Hc t i).
    destruct (db_tag w !! t) as [s0|] eqn:Hs0.
    + split.
      * intros (s & [= <-] & Hin). apply reconciled_member in Hin.
        rewrite decide_False in Hin by done. by exists s0.
      * intros (s & [= <-] & Hin). eexists. split; [done|].
        apply reconciled_member. by rewrite decide_False.
    + destruct (decide (t ∈ tags x)) as [Hin|Hin].
      * split.
        -- intros (s & [= <-] & Hi). set_solver.
        -- by intros (s & ? & _).
      * split; by intros (s & ? & _).
Qed.

Lemma tag_consistent_insert (w w' : World) (k : Z) (r x : Msg) :
  db_msg w !! k = Some r → tags x = tags r →
  db_msg w' = <[k := x]> (db_msg w) → db_tag w' = db_tag w →
  tag_consistent w → tag_consistent w'.
Proof.
  intros Hr Htg Hdb Ht Hc t i. rewrite Ht, Hdb, (Hc t i).
  destruct (decide (i = k)) as [->|Hne].
  - rewrite lookup_insert_eq. split.
    + intros (r' & Hr' & Hin). exists x. split; [done|]. congruence.
    + intros (r' & [= <-] & Hin). exists r. split; [done|]. congruence.
  - by rewrite lookup_insert_ne.
Qed.

Lemma tag_consistent_step (w w' : World) :
  step w w' → tag_consistent w → tag_consistent w'.
Proof.
  intros [p r c Hr Hdb Ht _|j r Hr Hdb Ht _|j r Hr Hdb Ht _|Hdb Ht _] Hc.
  - by eapply (tag_consistent_insert w w' p r (add_child c r)).
  - by eapply (tag_consistent_insert w w' j r (with_parent None r)).
  - eapply (tag_consistent_reconcile w w' j r); try done.
    + by rewrite Hdb.
    + intros k _. by rewrite Hdb.
  - intros t i. by rewrite Ht, Hdb.
Qed.

Lemma tag_consistent_run (m : Msg) (w w' : World) :
  run m w w' → tag_consistent w → tag_consistent w'.
Proof.
  intros [i x Hi Hid Hs Hdb Ht _|Hdb Ht|Hstep] Hc.
  - eapply (tag_consistent_reconcile w w' i x); try done.
    + by rewrite Hdb, lookup_insert_eq.
    + intros k Hk. by rewrite Hdb, lookup_insert_ne.
  - intros t i. by rewrite Ht, Hdb.
  - by eapply tag_consistent_step.
Qed.

Lemma tag_consistent_runs (m : Msg) (w w' : World) :
  rtc (run m) w w' → tag_consistent w → tag_consistent w'.
Proof. induction 1; eauto using tag_consistent_run. Qed.

Lemma save_tag_consistent (fuel : nat) (env : Env) (nq : bool)
    (ct : option time) (m : Msg) (w : World) :
  wf_store w → tag_consistent w →
  tag_consistent (res_world (save fuel env nq ct m w)).
Proof.
  intros Hwf Hc. destruct fuel as [|fuel]; [done|].
  destruct (cfg_get env "system" "datapath") as [e|dp] eqn:Hdp.
  { rewrite save_S. unfold save_body. by rewrite Hdp. }
  destruct (persist env ct m w) as [[[new i] m1] w1] eqn:Hp.
  destruct (save_run fuel env nq ct m w dp Hwf Hdp new i m1 w1 Hp)
    as (_ & Hdb2 & _ & Hrun).
  apply persist_spec in Hp as (_ & _ & _ & _ & _ & _ & _ & _ & Hdb1 & Ht1 & _).
  eapply tag_consistent_runs; [exact Hrun|].
  eapply (tag_consistent_reconcile w _ i m1); try done.
  - by rewrite Hdb2, lookup_insert_eq.
  - intros k Hk. by rewrite Hdb2, lookup_insert_ne.
  - apply map_eq. intros t. rewrite !reconcile_lookup. by rewrite Ht1.
Qed.

Lemma get_msg_inr (i : Z) (w : World) (r : Msg) :
  get_msg i w = inr r ↔ db_msg w !! i = Some r.
Proof.
  unfold get_msg. destruct (db_msg w !! i); split; intros; congruence.
Qed.

Lemma tag_consistent_empty : tag_consistent empty_world.
Proof.
  intros t i. simpl. split.
  - intros (s & Hs & _). by rewrite lookup_empty in Hs.
  - intros (r & Hr & _). by rewrite lookup_empty in Hr.
Qed.

Lemma run_saves_tag_consistent (fuel : nat) (env : Env) (reqs : list request)
    (w : World) :
  wf_store w → tag_consistent w →
  tag_consistent (run_saves fuel env reqs w).2.
Proof.
  revert w. induction reqs as [|q reqs IH]; intros w Hwf Hc; [done|].
  simpl.
  pose proof (IH (res_world (save fuel env (req_noqueue q) (req_ctime q)
                                  (req_msg q) w))
                 (save_wf _ _ _ _ _ _ Hwf)
                 (save_tag_consistent _ _ _ _ _ _ Hwf Hc)) as H.
  by destruct (run_saves fuel env reqs _) as [ids w'].
Qed.

(** X6. The tag table and the message table agree, from the empty store on
    and over every save on a well-formed store, however the save ends: an
    id is a member of a tag exactly when the record stored under that id
    carries the tag.  So after any sequence of saves [list_msgs([t])] is
    the set of the ids of the stored messages tagged [t]. *)
Theorem tag_table_stays_consistent :
  tag_consistent empty_world ∧
  (∀ fuel env nq ct m w,
     wf_store w → tag_consistent w →
     tag_consistent (res_world (save fuel env nq ct m w))) ∧
  (∀ fuel env reqs t i,
     let w := (run_saves fuel env reqs empty_world).2 in
     i ∈ list_msgs (Some [t]) w ↔
     ∃ r, get_msg i w = inr r ∧ t ∈ tags r).
Proof.
  split; [apply tag_consistent_empty|]. split.
  - intros. by apply save_tag_consistent.
  - intros fuel env reqs t i w.
    pose proof (run_saves_tag_consistent fuel env reqs empty_world
                  wf_store_empty tag_consistent_empty) as Hc.
    fold w in Hc. rewrite list_msgs_single.
    transitivity (∃ r, db_msg w !! i = Some r ∧ t ∈ tags r).
    + rewrite <- (Hc t i). destruct (db_tag w !! t) as [s|] eqn:Hs; simpl.
      * split; [intros ?; by exists s|]. by intros (s' & [= <-] & ?).
      * split; [set_solver|]. by intros (s' & ? & _).
    + split; intros (r & Hr & Hin); exists r; split; try done;
        by apply get_msg_inr.
Qed.

(** X7. On a store whose tag table agrees with its records, listing by
    tags is exact and never yields an id without a record: an id is listed
    under a non-empty list of tags exactly when its stored record carries
    one of them, and whatever [list_msgs(tags)] yields, [list_msgs()]
    yields too. *)
Theorem list_msgs_by_tag_exact (w : World) :
  tag_consistent w →
  (∀ t ts i,
     i ∈ list_msgs (Some (t :: ts)) w ↔
     ∃ r, get_msg i w = inr r ∧ ∃ tag, tag ∈ t :: ts ∧ tag ∈ tags r) ∧
  (∀ tgs, list_msgs tgs w ⊆ list_msgs None w).
Proof.
  intros Hc.
  assert (Hex : ∀ t ts i,
     i ∈ list_msgs (Some (t :: ts)) w ↔
     ∃ r, db_msg w !! i = Some r ∧ ∃ tag, tag ∈ t :: ts ∧ tag ∈ tags r).
  { intros t ts i. rewrite elem_of_list_msgs_tags. split.
    - intros (tag & s & Hin & Hs & Hi).
      destruct (proj1 (Hc tag i)) as (r & Hr & Htag); [by exists s|].
      exists r. split; [done|]. by exists tag.
    - intros (r & Hr & tag & Hin & Htag).
      destruct (proj2 (Hc tag i)) as (s & Hs & Hi); [by exists r|].
      by exists tag, s. }
  split.
  - intros t ts i. rewrite Hex.
    split; intros (r & Hr & Hin); exists r; split; try done;
      by apply get_msg_inr.
  - intros [[|t ts]|]; [done| |done]. intros i Hi.
    apply Hex in Hi as (r & Hr & _).
    unfold list_msgs. rewrite msg_keys_dom. by apply elem_of_dom_2 in Hr.
Qed.

Lemma consistent_saved_reply : tag_consistent (res_world saved_reply).
Proof.
  apply save_tag_consistent; [apply wf_saved_hello|].
  apply save_tag_consistent; [apply wf_store_empty|apply tag_consistent_empty].
Qed.

Lemma list_msgs_by_tag_exact_witness :
  tag_consistent (res_world saved_reply) ∧
  (1 ∈ list_msgs (Some ["offtopic"%string; "public"%string])
         (res_world saved_reply)) ∧
  list_msgs (Some ["public"%string]) (res_world saved_reply)
    ⊆ list_msgs None (res_world saved_reply).
Proof.
  destruct (list_msgs_by_tag_exact (res_world saved_reply)
              consistent_saved_reply) as [Hex Hsub].
  split; [apply consistent_saved_reply|]. split; [|apply Hsub].
  apply Hex. exists (res_msg saved_reply).
  split; [vm_compute; reflexivity|].
  exists "offtopic"%string. split; [left|]. vm_compute. left.
Defined.

(** ** Locks *)

Lemma held_reconcile_entry (table : string) (i : Z) (tgs : list string)
    (w : World) (item : string * gset Z) :
  held table (trace (reconcile_entry i tgs w item)) = held table (trace w).
Proof.
  destruct item as [tag msgs]. unfold reconcile_entry.
  repeat case_match; done.
Qed.

Lemma held_reconcile_loop (table : string) (i : Z) (tgs : list string)
    (items : list (string * gset Z)) (w : World) :
  held table (trace (foldl (reconcile_entry i tgs) w items))
  = held table (trace w).
Proof.
  revert w. induction items as [|item items IH]; intros w; [done|].
  simpl. by rewrite IH, held_reconcile_entry.
Qed.

Lemma held_create_loop (table : string) (i : Z) (fresh : list string)
    (w : World) :
  held table (trace (foldl (λ w tag, tag_set tag {[i]} w) w fresh))
  = held table (trace w).
Proof.
  revert w. induction fresh as [|t fresh IH]; intros w; [done|].
  simpl. by rewrite IH.
Qed.

Lemma held_reconcile (table : string) (i : Z) (m : Msg) (w : World) :
  held table (trace (reconcile i m w)) = held table (trace w).
Proof.
  unfold reconcile. cbn [trace emit held].
  rewrite held_create_loop, held_reconcile_loop. cbn [trace emit held].
  destruct (String.eqb TAGDB table); lia.
Qed.

Lemma held_persist (table : string) (env : Env) (ct : option time) (m : Msg)
    (w : World) :
  held table (trace (persist env ct m w).2) = held table (trace w).
Proof.
  pose proof (persist_spec env ct m w) as H.
  destruct (persist env ct m w) as [[[new i] m1] w1].
  destruct (H new i m1 w1 eq_refl)
    as (_ & _ & _ & _ & _ & _ & _ & _ & _ & _ & _ & _ & Htr & _).
  cbn [snd]. rewrite Htr. cbn [held].
  destruct (String.eqb MSGDB table); lia.
Qed.

Section Locks.

Variable rec : bool → option time → Msg → World → result.
Variable env : Env.
Variable table : string.
Variable strict : bool.
Hypothesis loose_table : strict = false → not_a_net_table env table.
Hypothesis rec_held :
  ∀ nq ct m w,
    held table (trace w) ≤ held table (trace (res_world (rec nq ct m w))) ∧
    (lock_case strict (res_out (rec nq ct m w)) →
     held table (trace (res_world (rec nq ct m w))) = held table (trace w)).

Lemma lock_case_returned : lock_case strict Returned.
Proof. unfold lock_case. by destruct strict. Qed.

Lemma thread_step_held (i : Z) (m : Msg) (w : World) :
  held table (trace w)
    ≤ held table (trace (res_world (thread_step rec i m w))) ∧
  (lock_case strict (res_out (thread_step rec i m w)) →
   held table (trace (res_world (thread_step rec i m w)))
   = held table (trace w)).
Proof.
  unfold thread_step.
  destruct (negb (parent_not_child m)); [done|].
  destruct (parent m) as [p|]; [|done].
  destruct (get_msg p w) as [e|pm]; [done|].
  case_bool_decide.
  - pose proof (rec_held false None (add_child i pm) w) as Hrec.
    destruct (rec false None (add_child i pm) w) as [[x w'] out]. exact Hrec.
  - unfold res_world. cbn [fst snd trace emit msg_set logger held].
    destruct (String.eqb MSGDB table); split; intros; lia.
Qed.

Lemma route_held (networks server_tags : list string) (origin : string)
    (i : Z) (ts : list string) (m : Msg) (w : World) :
  held table (trace w)
    ≤ held table
        (trace (res_world
                  (route rec env networks server_tags origin i ts m w))) ∧
  (lock_case strict
     (res_out (route rec env networks server_tags origin i ts m w)) →
   held table
     (trace (res_world (route rec env networks server_tags origin i ts m w)))
   = held table (trace w)).
Proof.
  induction ts as [|t ts IH]; [done|]. rewrite route_cons.
  case_bool_decide; [|case_bool_decide; [|exact IH]].
  - unfold cfg_get.
    destruct (cfg env ("msgnet_" +:+ t) "trans_db_name") as [name|] eqn:Hn;
      [|done].
    pose proof (rec_held false None (with_body (body m +:+ origin) m)
                  (emit (Acquire name) w)) as [Hle Heq].
    destruct (rec false None (with_body (body m +:+ origin) m)
                  (emit (Acquire name) w)) as [[x w'] out].
    unfold res_out, res_world in *. cbn [fst snd trace emit held] in Hle, Heq.
    destruct out; cbn [and_then fst snd].
    + cbn [trace emit net_set logger held].
      rewrite (Heq lock_case_returned).
      destruct (String.eqb name table); split; intros; lia.
    + split; [destruct (String.eqb name table); lia|].
      intros Hc. rewrite (Heq Hc).
      unfold lock_case in Hc. destruct strict; [done|].
      rewrite (proj2 (String.eqb_neq name table)); [lia|].
      eapply loose_table; eauto.
    + split; [destruct (String.eqb name table); lia|].
      intros Hc. rewrite (Heq Hc).
      unfold lock_case in Hc. destruct strict; [done|].
      rewrite (proj2 (String.eqb_neq name table)); [lia|].
      eapply loose_table; eauto.
  - unfold cfg_get.
    destruct (cfg env ("msgnet_" +:+ t) "queue_db_name") as [name|]; [|done].
    unfold res_world. cbn [fst snd trace emit net_set logger held].
    destruct (String.eqb name table); split; intros; lia.
Qed.

Lemma dispatch_held (i : Z) (m : Msg) (w : World) :
  held table (trace w)
    ≤ held table (trace (res_world (dispatch rec env i m w))) ∧
  (lock_case strict (res_out (dispatch rec env i m w)) →
   held table (trace (res_world (dispatch rec env i m w)))
   = held table (trace w)).
Proof.
  unfold dispatch.
  destruct (negb (has_option env "msg" "network_tags")); [done|].
  destruct (cfg_get env "msg" "network_tags") as [e|v]; [done|].
  destruct (length (parse_tag_list v) =? 0)%nat; [done|].
  destruct (format_origin_line env) as [e|origin]; [done|].
  apply route_held.
Qed.

Lemma save_body_held (nq : bool) (ct : option time) (m : Msg) (w : World) :
  held table (trace w)
    ≤ held table (trace (res_world (save_body rec env nq ct m w))) ∧
  (lock_case strict (res_out (save_body rec env nq ct m w)) →
   held table (trace (res_world (save_body rec env nq ct m w)))
   = held table (trace w)).
Proof.
  unfold save_body.
  destruct (cfg_get env "system" "datapath") as [e|dp]; [done|].
  pose proof (held_persist table env ct m w) as Hp.
  destruct (persist env ct m w) as [[[new i] m1] w1]. cbn [snd] in Hp.
  pose proof (held_reconcile table i m1 w1) as Hr.
  pose proof (thread_step_held i m1 (reconcile i m1 w1)) as [Htle Ht].
  destruct (thread_step rec i m1 (reconcile i m1 w1)) as [[m2 w2] out2].
  unfold res_out, res_world in *. cbn [fst snd] in Htle, Ht.
  destruct out2; cbn [and_then fst snd];
    try (split; [lia|]; intros Hc; rewrite (Ht Hc); congruence).
  specialize (Ht lock_case_returned).
  destruct (negb nq && new).
  - pose proof (dispatch_held i m2 w2) as [Hdle Hd].
    destruct (dispatch rec env i m2 w2) as [[m3 w3] out3].
    unfold res_out, res_world in *. cbn [fst snd] in Hdle, Hd.
    destruct out3; cbn [and_then fst snd trace logger];
      (split; [lia|]; intros Hc; rewrite (Hd Hc); congruence).
  - cbn [and_then fst snd trace logger]. split; [lia|]. intros _. congruence.
Qed.

End Locks.

Lemma save_held (strict : bool) (env : Env) (table : string) (fuel : nat) :
  (strict = false → not_a_net_table env table) →
  ∀ nq ct m w,
    held table (trace w)
      ≤ held table (trace (res_world (save fuel env nq ct m w))) ∧
    (lock_case strict (res_out (save fuel env nq ct m w)) →
     held table (trace (res_world (save fuel env nq ct m w)))
     = held table (trace w)).
Proof.
  intros Hloose. induction fuel as [|fuel IH]; intros nq ct m w; [done|].
  rewrite save_S. by apply save_body_held.
Qed.

Lemma cfg_lookup_value (l : list (string * string * string))
    (sect opt v : string) :
  cfg_lookup l sect opt = Some v → v ∈ l.*2.
Proof.
  induction l as [|[[s o] v'] l IH]; simpl; [done|].
  destruct (String.eqb s sect && String.eqb o opt).
  - intros [= ->]. by left.
  - intros Hv. right. by apply IH.
Qed.

Lemma demo_not_net_table (table : string) :
  table = MSGDB ∨ table = TAGDB → not_a_net_table demo_env table.
Proof.
  intros Htable section name [Hn|Hn];
    apply cfg_lookup_value in Hn; simpl in Hn;
    repeat (apply elem_of_cons in Hn as [->|Hn]);
    try (by apply elem_of_nil in Hn);
    destruct Htable as [-> | ->]; discriminate.
Qed.

(** X8. Locks.  A save that returns has released every lock it acquired,
    whatever the table.  However a save ends, it releases no lock it has
    not acquired, and it leaves no lock held on a table that is not a
    transit or queue table of the configuration: the locks of the message
    table and of the tag table are always released. *)
Theorem save_releases_locks (fuel : nat) (env : Env) (nq : bool)
    (ct : option time) (m : Msg) (w : World) (table : string) :
  let r := save fuel env nq ct m w in
  (res_out r = Returned →
   held table (trace (res_world r)) = held table (trace w)) ∧
  held table (trace w) ≤ held table (trace (res_world r)) ∧
  (not_a_net_table env table →
   held table (trace (res_world r)) = held table (trace w)).
Proof.
  split_and!.
  - intros Hout. by apply (save_held true).
  - by apply (save_held true).
  - intros Hnot. by apply (save_held false).
Qed.

Lemma save_releases_locks_witness :
  not_a_net_table demo_env MSGDB ∧
  held MSGDB (trace (res_world saved_reply))
    = held MSGDB (trace (res_world saved_hello)).
Proof.
  assert (Hnot : not_a_net_table demo_env MSGDB)
    by (apply demo_not_net_table; by left).
  split; [exact Hnot|].
  destruct (save_releases_locks 3 demo_env false None msg_reply
              (res_world saved_hello) MSGDB) as (_ & _ & Hany).
  exact (Hany Hnot).
Defined.

(** ** A reply to a message that is not stored *)

(** X9. A reply whose parent id has no record: [get_msg] raises [KeyError]
    at line 181 and [save] passes it on.  By then the reply has been written
    under its id, with the parent link that leads nowhere, and it is listed
    under its tags; nothing is rolled back. *)
Theorem save_reply_to_missing_parent (fuel : nat) (env : Env) (nq : bool)
    (ct : option time) (m : Msg) (w : World) (dp : string) (p : Z) :
  cfg_get env "system" "datapath" = inr dp →
  parent m = Some p → p ∉ children m →
  ∀ new i m1 w1,
    persist env ct m w = (new, i, m1, w1) →
    p ≠ i → db_msg w !! p = None →
    save (S fuel) env nq ct m w =
      (m1, reconcile i m1 w1, Raised (KeyError p)) ∧
    get_msg i (reconcile i m1 w1) = inr m1 ∧
    parent m1 = Some p ∧
    get_msg p (reconcile i m1 w1) = inl (KeyError p) ∧
    (∀ t, t ∈ tags m → i ∈ list_msgs (Some [t]) (reconcile i m1 w1)).
Proof.
  intros Hdp Hp Hc new i m1 w1 Hper Hne Hnone.
  pose proof Hper as Hspec. apply persist_spec in Hspec
    as (_ & _ & _ & Htg & Hch & Hpar & _ & _ & Hdb & Ht & Hn & _).
  destruct (reconcile_frame i m1 w1) as (Hm2 & Hn2 & _).
  assert (Hgp : get_msg p (reconcile i m1 w1) = inl (KeyError p)).
  { unfold get_msg. by rewrite Hm2, Hdb, lookup_insert_ne, Hnone. }
  split_and!.
  - rewrite save_S. unfold save_body. rewrite Hdp, Hper. unfold thread_step.
    assert (parent_not_child m1 = true) as ->.
    { unfold parent_not_child. rewrite Hpar, Hp, Hch.
      by rewrite bool_decide_eq_false_2. }
    cbn [negb]. by rewrite Hpar, Hp, Hgp.
  - unfold get_msg. by rewrite Hm2, Hdb, lookup_insert_eq.
  - congruence.
  - exact Hgp.
  - intros t Hin. rewrite list_msgs_single, reconcile_lookup, Ht, Htg.
    destruct (db_tag w !! t) as [s|]; simpl.
    + apply reconciled_member. by rewrite decide_True.
    + rewrite decide_True by done. simpl. set_solver.
Qed.

Lemma save_reply_to_missing_parent_witness :
  cfg_get demo_env "system" "datapath" = inr "/var/x84"%string ∧
  parent msg_stray = Some 7 ∧ (7 ∉ children msg_stray) ∧
  db_msg (res_world saved_hello) !! 7 = None ∧
  res_out (save 3 demo_env false None msg_stray (res_world saved_hello))
    = Raised (KeyError 7) ∧
  (parent <$> db_msg (res_world (save 3 demo_env false None msg_stray
                                      (res_world saved_hello))) !! 1)
    = Some (Some 7).
Proof.
  pose (p := persist demo_env None msg_stray (res_world saved_hello)).
  assert (Hp : persist demo_env None msg_stray (res_world saved_hello) =
               (true, 1, p.1.2, p.2)) by (vm_compute; reflexivity).
  assert (Hc : 7 ∉ children msg_stray) by (by vm_compute).
  assert (Hnone : db_msg (res_world saved_hello) !! 7 = None)
    by (vm_compute; reflexivity).
  destruct (save_reply_to_missing_parent 2 demo_env false None msg_stray
              (res_world saved_hello) "/var/x84"%string 7 eq_refl eq_refl Hc
              true 1 p.1.2 p.2 Hp ltac:(discriminate) Hnone)
    as (Heq & Hget & Hpar & _).
  split; [reflexivity|]. split; [reflexivity|]. split; [exact Hc|].
  split; [exact Hnone|].
  change (save 3 demo_env false None msg_stray (res_world saved_hello))
    with (save (S 2) demo_env false None msg_stray (res_world saved_hello)).
  rewrite Heq. unfold res_out, res_world. cbn [fst snd].
  split; [reflexivity|].
  apply get_msg_inr in Hget. rewrite Hget. exact (f_equal Some Hpar).
Defined.

(** ** Messages without a parent *)

Lemma reconcile_twice (i : Z) (m m' : Msg) (w w' : World) :
  tags m' = tags m → db_tag w' = db_tag (reconcile i m w) →
  db_tag (reconcile i m' w') = db_tag (reconcile i m w).
Proof.
  intros Htg Hw'. apply map_eq. intros t.
  rewrite reconcile_lookup, Hw', reconcile_lookup, Htg.
  destruct (db_tag w !! t) as [s|].
  - f_equal. unfold reconciled. destruct (decide (t ∈ tags m)); set_solver.
  - destruct (decide (t ∈ tags m)) as [Hin|Hin]; [|done].
    f_equal. unfold reconciled. rewrite decide_True by done. set_solver.
Qed.

Lemma reconcile_tags_eq (i : Z) (m m' : Msg) (w w' : World) :
  tags m' = tags m → db_tag w' = db_tag w →
  db_tag (reconcile i m' w') = db_tag (reconcile i m w).
Proof.
  intros Htg Hw'. apply map_eq. intros t.
  by rewrite !reconcile_lookup, Hw', Htg.
Qed.

Lemma save_orphan_exact (fuel : nat) (env : Env) (nq : bool)
    (ct : option time) (x : Msg) (w : World) (i : Z) (s : time) (dp : string) :
  cfg_get env "system" "datapath" = inr dp →
  idx x = Some i → stime x = Some s → parent x = None →
  ∃ w', save (S fuel) env nq ct x w = (x, w', Returned) ∧
        db_msg w' = <[i := x]> (db_msg w) ∧
        db_tag w' = db_tag (reconcile i x w) ∧
        db_net w' = db_net w.
Proof.
  intros Hdp Hi Hs Hp. rewrite save_S. unfold save_body.
  rewrite Hdp, (persist_old env ct x w i s Hi Hs).
  unfold thread_step, parent_not_child. rewrite Hp. cbn [negb and_then].
  rewrite andb_false_r. cbn [and_then]. eexists. split; [reflexivity|].
  cbn [db_msg db_tag db_net logger].
  set (w1 := emit (Release MSGDB) (msg_set i x (emit (Acquire MSGDB) w))).
  destruct (reconcile_frame i x w1) as (-> & -> & _).
  split; [done|]. split; [|done]. by apply reconcile_tags_eq.
Qed.

Lemma route_orphan_frame (fuel : nat) (env : Env)
    (networks server_tags : list string) (origin : string) (i : Z)
    (ts : list string) (m : Msg) (w : World) (s : time) (dp : string) :
  cfg_get env "system" "datapath" = inr dp →
  idx m = Some i → stime m = Some s → parent m = None →
  let r := route (save (S fuel) env) env networks server_tags origin i ts m w
  in
  same_identity m (res_msg r) ∧ parent (res_msg r) = None ∧
  ((res_msg r = m ∧ db_msg (res_world r) = db_msg w ∧
    db_tag (res_world r) = db_tag w) ∨
   (db_msg (res_world r) = <[i := res_msg r]> (db_msg w) ∧
    db_tag (res_world r) = db_tag (reconcile i m w))).
Proof.
  intros Hdp Hi Hs Hp. induction ts as [|t ts IH].
  { split; [done|]. split; [done|]. by left. }
  rewrite route_cons.
  case_bool_decide; [|case_bool_decide]; [| |done].
  - destruct (cfg_get env _ "trans_db_name") as [e|name] eqn:He.
    { split; [done|]. split; [done|]. by left. }
    set (x := with_body (body m +:+ origin) m).
    destruct (save_orphan_exact fuel env false None x (emit (Acquire name) w)
                i s dp Hdp Hi Hs Hp) as (w' & -> & Hdb & Ht & _).
    unfold res_msg, res_world, res_out. cbn [and_then fst snd].
    split; [done|]. split; [done|]. right.
    cbn [db_msg db_tag logger emit net_set]. split; [done|].
    rewrite Ht. by apply reconcile_tags_eq.
  - destruct (cfg_get env _ "queue_db_name") as [e|name] eqn:He.
    { split; [done|]. split; [done|]. by left. }
    split; [done|]. split; [done|]. by left.
Qed.

Lemma dispatch_orphan_frame (fuel : nat) (env : Env) (i : Z) (m : Msg)
    (w : World) (s : time) (dp : string) :
  cfg_get env "system" "datapath" = inr dp →
  idx m = Some i → stime m = Some s → parent m = None →
  let r := dispatch (save (S fuel) env) env i m w in
  same_identity m (res_msg r) ∧ parent (res_msg r) = None ∧
  ((res_msg r = m ∧ db_msg (res_world r) = db_msg w ∧
    db_tag (res_world r) = db_tag w) ∨
   (db_msg (res_world r) = <[i := res_msg r]> (db_msg w) ∧
    db_tag (res_world r) = db_tag (reconcile i m w))).
Proof.
  intros Hdp Hi Hs Hp. unfold dispatch.
  destruct (negb _); [split; [done|]; split; [done|]; by left|].
  destruct (cfg_get env "msg" "network_tags") as [e|nets] eqn:He.
  { split; [done|]. split; [done|]. by left. }
  destruct (_ =? _)%nat; [split; [done|]; split; [done|]; by left|].
  destruct (format_origin_line env) as [e|origin] eqn:Ho.
  { split; [done|]. split; [done|]. by left. }
  by eapply route_orphan_frame.
Qed.

(** What the save of a message without parent leaves: the object that comes
    back, stored under the id, and the tag table reconciled once. *)
Lemma save_orphan_frame (fuel : nat) (env : Env) (nq : bool)
    (ct : option time) (m : Msg) (w : World) (dp : string) :
  cfg_get env "system" "datapath" = inr dp →
  parent m = None →
  ∀ new i m1 w1,
    persist env ct m w = (new, i, m1, w1) →
    let r := save (S (S fuel)) env nq ct m w in
    same_identity m1 (res_msg r) ∧ parent (res_msg r) = None ∧
    db_msg (res_world r) = <[i := res_msg r]> (db_msg w) ∧
    db_tag (res_world r) = db_tag (reconcile i m1 w1) ∧
    config_or_returned (res_out r) ∧
    (nq = true ∨ new = false → res_out r = Returned).
Proof.
  intros Hdp Hp new i m1 w1 Hper r. subst r.
  rewrite save_S. unfold save_body. rewrite Hdp, Hper.
  apply persist_spec in Hper
    as (_ & Hi & [s Hs] & _ & _ & Hpar & _ & _ & Hdb & _).
  destruct (reconcile_frame i m1 w1) as (Hm2 & _).
  assert (Hp1 : parent m1 = None) by congruence.
  unfold thread_step, parent_not_child. rewrite Hp1. cbn [negb and_then].
  destruct (negb nq && new) eqn:Hgo.
  - destruct (dispatch_orphan_frame fuel env i m1 (reconcile i m1 w1) s dp
                Hdp Hi Hs Hp1) as (Hid & Hpr & Hcase).
    destruct (dispatch_orphan fuel env i m1 (reconcile i m1 w1) s dp
                Hdp Hi Hs Hp1) as (_ & _ & Hout).
    destruct (dispatch _ _ _ _ _) as [[m3 w3] out3].
    unfold res_msg, res_world, res_out in *. cbn [fst snd] in *.
    assert (Hgoal : db_msg w3 = <[i := m3]> (db_msg w) ∧
                    db_tag w3 = db_tag (reconcile i m1 w1)).
    { destruct Hcase as [(-> & Hd & Ht)|[Hd Ht]].
      - by rewrite Hd, Ht, Hm2.
      - rewrite Hd, Hm2, Hdb, insert_insert_eq. split; [done|].
        rewrite Ht. by apply reconcile_twice. }
    assert (Hnever : nq = true ∨ new = false → out3 = Returned).
    { intros [-> | ->]; [done|]. by rewrite andb_false_r in Hgo. }
    destruct Hgoal.
    destruct out3; cbn [and_then fst snd db_msg db_tag logger];
      split_and!; try done; by left.
  - unfold res_msg, res_world, res_out.
    cbn [and_then fst snd db_msg db_tag logger].
    split_and!; try done; [by rewrite Hm2, Hdb|by left].
Qed.

(** X10. The save of a message without parent writes one record: afterwards
    the message table is the one before with the returned object under the
    id of the message, so a record the store held under that id is replaced
    as a whole, the children it listed included, and every other record is
    as it was; the tag table is the one a single reconciliation gives, also
    when dispatch saves the message a second time.  The call returns, or
    fails in a configuration lookup of the dispatch step; it returns
    whenever dispatch is not entered. *)
Theorem save_without_parent_writes_one_record (fuel : nat) (env : Env)
    (nq : bool) (ct : option time) (m : Msg) (w : World) (dp : string) :
  cfg_get env "system" "datapath" = inr dp →
  parent m = None →
  ∀ new i m1 w1,
    persist env ct m w = (new, i, m1, w1) →
    let r := save (S (S fuel)) env nq ct m w in
    get_msg i (res_world r) = inr (res_msg r) ∧
    children (res_msg r) = children m ∧
    (∀ k, k ≠ i → get_msg k (res_world r) = get_msg k w) ∧
    (∀ t, db_tag (res_world r) !! t =
          match db_tag w !! t with
          | Some msgs => Some (reconciled i (tags m) t msgs)
          | None => if decide (t ∈ tags m) then Some {[i]} else None
          end) ∧
    config_or_returned (res_out r) ∧
    (nq = true ∨ new = false → res_out r = Returned).
Proof.
  intros Hdp Hp new i m1 w1 Hper r.
  destruct (save_orphan_frame fuel env nq ct m w dp Hdp Hp new i m1 w1 Hper)
    as (Hid & _ & Hdb & Ht & Hout & Hret).
  fold r in Hid, Hdb, Ht, Hout, Hret.
  apply persist_spec in Hper
    as (_ & _ & _ & Htg & Hch & _ & _ & _ & _ & Ht1 & _).
  destruct Hid as (_ & _ & _ & _ & _ & _ & _ & Hch').
  split_and!.
  - unfold get_msg. by rewrite Hdb, lookup_insert_eq.
  - congruence.
  - intros k Hk. unfold get_msg. by rewrite Hdb, lookup_insert_ne.
  - intros t. by rewrite Ht, reconcile_lookup, Ht1, Htg.
  - exact Hout.
  - exact Hret.
Qed.

Lemma save_without_parent_writes_one_record_witness :
  cfg_get demo_env "system" "datapath" = inr "/var/x84"%string ∧
  parent (res_msg saved_hello) = None ∧
  (children <$> db_msg (res_world saved_reply) !! 0) = Some {[1]} ∧
  get_msg 0 (res_world (save 3 demo_env false None (res_msg saved_hello)
                             (res_world saved_reply)))
    = inr (res_msg (save 3 demo_env false None (res_msg saved_hello)
                         (res_world saved_reply))) ∧
  children (res_msg (save 3 demo_env false None (res_msg saved_hello)
                          (res_world saved_reply))) = ∅.
Proof.
  pose (p := persist demo_env None (res_msg saved_hello)
               (res_world saved_reply)).
  assert (Hp : persist demo_env None (res_msg saved_hello)
                 (res_world saved_reply) = (false, 0, p.1.2, p.2))
    by (vm_compute; reflexivity).
  assert (Hpar : parent (res_msg saved_hello) = None)
    by (vm_compute; reflexivity).
  assert (Hch : children (res_msg saved_hello) = ∅)
    by (vm_compute; reflexivity).
  destruct (save_without_parent_writes_one_record 1 demo_env false None
              (res_msg saved_hello) (res_world saved_reply) "/var/x84"%string
              eq_refl Hpar false 0 p.1.2 p.2 Hp) as (Hget & Hc & _).
  split; [reflexivity|]. split; [exact Hpar|].
  split; [vm_compute; reflexivity|]. split; [exact Hget|].
  by rewrite <- Hch.
Defined.

(** X11. Saving twice is saving once, for a message without parent: when the
    object a save hands back is saved again, it comes back as it is, and the
    message table, the tag table and the network tables stay as the first
    save left them. *)
Theorem resave_is_idempotent (fuel fuel' : nat) (env : Env) (nq nq' : bool)
    (ct ct' : option time) (m : Msg) (w : World) (dp : string) :
  cfg_get env "system" "datapath" = inr dp →
  parent m = None →
  let r := save (S (S fuel)) env nq ct m w in
  let r' := save (S fuel') env nq' ct' (res_msg r) (res_world r) in
  res_out r' = Returned ∧
  res_msg r' = res_msg r ∧
  db_msg (res_world r') = db_msg (res_world r) ∧
  db_tag (res_world r') = db_tag (res_world r) ∧
  db_net (res_world r') = db_net (res_world r).
Proof.
  intros Hdp Hp r r'.
  destruct (persist env ct m w) as [[[new i] m1] w1] eqn:Hper.
  destruct (save_orphan_frame fuel env nq ct m w dp Hdp Hp new i m1 w1 Hper)
    as (Hid & Hpr & Hdb & Ht & _).
  fold r in Hid, Hpr, Hdb, Ht.
  apply persist_spec in Hper as (_ & Hi & [s Hs] & _).
  destruct Hid as (Hi' & _ & Hs' & _ & _ & _ & Htg' & _).
  rewrite Hi in Hi'. rewrite Hs in Hs'.
  destruct (save_orphan_exact fuel' env nq' ct' (res_msg r) (res_world r) i s
              dp Hdp Hi' Hs' Hpr) as (w' & Heq & Hdb' & Ht' & Hn').
  subst r'. rewrite Heq. unfold res_out, res_msg, res_world. cbn [fst snd].
  split_and!; try done.
  - fold (res_world r). rewrite Hdb', Hdb. by rewrite insert_insert_eq.
  - fold (res_world r). rewrite Ht'.
    etrans; [|symmetry; exact Ht]. apply reconcile_twice; [done|].
    by rewrite Ht.
Qed.

Lemma resave_is_idempotent_witness :
  cfg_get demo_env "system" "datapath" = inr "/var/x84"%string ∧
  parent msg_hello = None ∧
  db_msg (res_world (save 2 demo_env false None (res_msg saved_hello)
                          (res_world saved_hello)))
    = db_msg (res_world saved_hello) ∧
  db_tag (res_world (save 2 demo_env false None (res_msg saved_hello)
                          (res_world saved_hello)))
    = db_tag (res_world saved_hello).
Proof.
  destruct (resave_is_idempotent 1 1 demo_env false false None None msg_hello
              empty_world "/var/x84"%string eq_refl eq_refl)
    as (_ & _ & Hdb & Ht & _).
  split; [reflexivity|]. split; [reflexivity|]. split; [exact Hdb|exact Ht].
Defined.

(** ** Listing and fetching *)

Lemma max_or_minus1_in (l : list Z) : l ≠ [] → max_or_minus1 l ∈ l.
Proof.
  destruct l as [|a l]; [done|]. intros _. simpl.
  revert a. induction l as [|b l IH]; intros a; [set_solver|].
  simpl. specialize (IH (Z.max a b)).
  destruct (Z.max_spec a b) as [[_ Hm]|[_ Hm]]; rewrite Hm in *; set_solver.
Qed.

(** X12. Listing and fetching agree: [get_msg] finds a record exactly for
    the ids that [list_msgs()] lists, it raises [KeyError] for every other
    id, and the id that the next new message will get, like every id above
    it, is not among them. *)
Theorem listed_ids_are_found (w : World) (k : Z) :
  (k ∈ list_msgs None w ↔ ∃ r, get_msg k w = inr r) ∧
  (k ∉ list_msgs None w ↔ get_msg k w = inl (KeyError k)) ∧
  (next_id w ≤ k → get_msg k w = inl (KeyError k)).
Proof.
  assert (Hl : list_msgs None w = dom (db_msg w)).
  { unfold list_msgs. apply msg_keys_dom. }
  rewrite Hl. unfold get_msg. split_and!.
  - rewrite elem_of_dom. destruct (db_msg w !! k) as [r|]; split.
    + intros _. by exists r.
    + done.
    + by intros [? ?].
    + by intros [? ?].
  - rewrite not_elem_of_dom. destruct (db_msg w !! k); split; congruence.
  - intros Hk. destruct (db_msg w !! k) as [r|] eqn:Hr; [|done].
    apply elem_of_dom_2, next_id_fresh in Hr. lia.
Qed.

(** ** The origin line *)

(** X13. With network tags configured, the first save of a message needs an
    origin line, whatever its tags: when neither [msg.origin_line] nor
    [system.bbsname] is configured, [format_origin_line] raises, and the
    save ends with that error before any tag is looked at.  The record has
    been written by then and stays; the network tables are untouched. *)
Theorem save_raises_without_origin_line (fuel : nat) (env : Env)
    (ct : option time) (m : Msg) (w : World) (dp v : string) :
  cfg_get env "system" "datapath" = inr dp →
  cfg env "msg" "network_tags" = Some v →
  cfg env "msg" "origin_line" = None →
  cfg env "system" "bbsname" = None →
  is_new m = true → parent m = None →
  ∀ new i m1 w1,
    persist env ct m w = (new, i, m1, w1) →
    format_origin_line env = inl (ConfigError "system" "bbsname") ∧
    save (S fuel) env false ct m w =
      (m1, reconcile i m1 w1, Raised (ConfigError "system" "bbsname")) ∧
    get_msg i (reconcile i m1 w1) = inr m1 ∧
    db_net (reconcile i m1 w1) = db_net w.
Proof.
  intros Hdp Hnet Hol Hbn Hnew Hp new i m1 w1 Hper.
  pose proof Hper as Hspec. apply persist_spec in Hspec
    as (Hn & _ & _ & _ & _ & Hpar & _ & _ & Hdb & _ & Hnt & _).
  destruct (reconcile_frame i m1 w1) as (Hm2 & Hn2 & _).
  assert (Hfo : format_origin_line env = inl (ConfigError "system" "bbsname")).
  { unfold format_origin_line, get_origin_line, has_option, cfg_get.
    by rewrite Hol, Hbn. }
  split_and!; [done| | |congruence].
  - rewrite save_S. unfold save_body. rewrite Hdp, Hper.
    assert (Hp1 : parent m1 = None) by congruence.
    unfold thread_step, parent_not_child. rewrite Hp1. cbn [negb and_then].
    rewrite Hn, Hnew. cbn [negb andb].
    unfold dispatch, has_option, cfg_get. rewrite Hnet. cbn [negb].
    fold (cfg_get env "msg" "server_tags").
    rewrite parse_tag_list_length, Hfo. done.
  - unfold get_msg. by rewrite Hm2, Hdb, lookup_insert_eq.
Qed.

Lemma save_raises_without_origin_line_witness :
  cfg_get mute_env "system" "datapath" = inr "/var/x84"%string ∧
  is_new msg_hello = true ∧ parent msg_hello = None ∧
  res_out (save 3 mute_env false None msg_hello empty_world)
    = Raised (ConfigError "system" "bbsname") ∧
  is_Some (db_msg (res_world (save 3 mute_env false None msg_hello
                                   empty_world)) !! 0).
Proof.
  pose (p := persist mute_env None msg_hello empty_world).
  assert (Hp : persist mute_env None msg_hello empty_world =
               (true, 0, p.1.2, p.2)) by (vm_compute; reflexivity).
  destruct (save_raises_without_origin_line 2 mute_env None msg_hello
              empty_world "/var/x84"%string "fidonet"%string eq_refl eq_refl
              eq_refl eq_refl eq_refl eq_refl true 0 p.1.2 p.2 Hp)
    as (_ & Heq & Hget & _).
  split; [reflexivity|]. split; [reflexivity|]. split; [reflexivity|].
  change (save 3 mute_env false None msg_hello empty_world)
    with (save (S 2) mute_env false None msg_hello empty_world).
  rewrite Heq. unfold res_out, res_world. cbn [fst snd].
  split; [reflexivity|]. apply get_msg_inr in Hget. by rewrite Hget.
Defined.

(** ** Times of a new message *)

(** X14. The first save of a message with [ctime] given sets both the
    creation time and the save time to it, so the time the object was made
    at is lost; without [ctime] the creation time stays and the save time
    is the reading of the clock.  On a well-formed store the record under
    the new id carries the same two times, however the save ends. *)
Theorem save_stamps_new_message (fuel : nat) (env : Env) (nq : bool)
    (ct : option time) (m : Msg) (w : World) (dp : string) :
  cfg_get env "system" "datapath" = inr dp →
  is_new m = true →
  let r := save (S fuel) env nq ct m w in
  ctime (res_msg r) = match ct with Some c => c | None => ctime m end ∧
  stime (res_msg r) =
    Some (match ct with Some c => c | None => clock env (ticks w) end) ∧
  (wf_store w →
   holds_at (next_id w)
     (λ rec, ctime rec = ctime (res_msg r) ∧ stime rec = stime (res_msg r))
     (res_world r)).
Proof.
  intros Hdp Hnew r.
  pose proof (save_identity fuel env nq ct m w dp Hdp) as Hid.
  destruct (persist env ct m w) as [[[new i] m1] w1] eqn:Hper.
  cbn [fst snd] in Hid. fold r in Hid.
  destruct Hid as (Hi' & Hc' & Hs' & _).
  pose proof Hper as Hspec. apply persist_spec in Hspec
    as (Hn & Hi & _ & _ & _ & _ & _ & _ & _ & _ & _ & _ & _ & _ & Hst).
  rewrite Hn, Hnew in Hst. destruct Hst as [-> ->].
  assert (Hc1 : ctime (stamped env ct m w)
                = match ct with Some c => c | None => ctime m end).
  { unfold stamped. by destruct ct. }
  assert (Hs1 : stime (stamped env ct m w)
                = Some (match ct with Some c => c
                                 | None => clock env (ticks w) end)).
  { unfold stamped. by destruct ct. }
  split; [congruence|]. split; [congruence|]. intros Hwf.
  destruct (save_run fuel env nq ct m w dp Hwf Hdp _ _ _ _ Hper)
    as (_ & Hdb2 & _ & Hrun).
  fold r in Hrun.
  eapply holds_at_runs; [| |exact Hrun|].
  - split; intros; done.
  - intros _ x (_ & Hx2 & Hx3 & _). split; congruence.
  - exists (stamped env ct m w). rewrite Hdb2, lookup_insert_eq.
    split; [done|]. split; congruence.
Qed.

Lemma save_stamps_new_message_witness :
  cfg_get demo_env "system" "datapath" = inr "/var/x84"%string ∧
  is_new msg_third = true ∧
  ctime msg_third = 3 ∧
  ctime (res_msg (save 3 demo_env true (Some 7) msg_third
                       (res_world saved_reply))) = 7 ∧
  stime (res_msg (save 3 demo_env true (Some 7) msg_third
                       (res_world saved_reply))) = Some 7.
Proof.
  destruct (save_stamps_new_message 2 demo_env true (Some 7) msg_third
              (res_world saved_reply) "/var/x84"%string eq_refl eq_refl)
    as (Hc & Hs & _).
  split; [reflexivity|]. split; [reflexivity|]. split; [reflexivity|].
  split; [exact Hc|exact Hs].
Defined.

(** ** Ids of new messages *)

Lemma list_to_set_seq_S (n : nat) :
  list_to_set (C := gset Z) (Z.of_nat <$> seq 0 (S n))
  = {[Z.of_nat n]} ∪ list_to_set (Z.of_nat <$> seq 0 n).
Proof.
  rewrite seq_S, fmap_app, list_to_set_app_L. simpl. set_solver.
Qed.

Lemma elem_of_seq_set (n : nat) (k : Z) :
  k ∈ list_to_set (C := gset Z) (Z.of_nat <$> seq 0 n) ↔ 0 ≤ k < Z.of_nat n.
Proof.
  rewrite elem_of_list_to_set, list_elem_of_fmap. split.
  - intros (j & -> & Hj). apply elem_of_seq in Hj. lia.
  - intros Hk. exists (Z.to_nat k). split; [lia|]. apply elem_of_seq. lia.
Qed.

Lemma next_id_count (w : World) (n : nat) :
  dom (db_msg w) = list_to_set (Z.of_nat <$> seq 0 n) →
  next_id w = Z.of_nat n.
Proof.
  intros Hdom. destruct n as [|n].
  { apply next_id_empty. simpl in Hdom.
    by apply (dom_empty_inv_L (D := gset Z)). }
  assert (Hn : Z.of_nat n ∈ msg_keys w).
  { apply elem_of_msg_keys. rewrite Hdom. apply elem_of_seq_set. lia. }
  assert (Hne : msg_keys w ≠ []).
  { intros Heq. rewrite Heq in Hn. by apply elem_of_nil in Hn. }
  pose proof (max_or_minus1_in (msg_keys w) Hne) as Hmax.
  apply elem_of_msg_keys in Hmax. rewrite Hdom in Hmax.
  apply elem_of_seq_set in Hmax.
  pose proof (max_or_minus1_ge (msg_keys w) _ Hn).
  unfold next_id. lia.
Qed.

Lemma save_new_minted (fuel : nat) (env : Env) (nq : bool) (ct : option time)
    (m : Msg) (w : World) (dp : string) :
  cfg_get env "system" "datapath" = inr dp →
  is_new m = true →
  minted m (res_msg (save (S fuel) env nq ct m w)) = Some (next_id w).
Proof.
  intros Hdp Hnew.
  pose proof (save_identity fuel env nq ct m w dp Hdp) as (Hi' & _ & Hs' & _).
  destruct (persist env ct m w) as [[[new i] m1] w1] eqn:Hper.
  cbn [fst snd] in Hi', Hs'.
  apply persist_spec in Hper
    as (Hn & Hi & [s Hs] & _ & _ & _ & _ & _ & _ & _ & _ & _ & _ & _ & Hst).
  rewrite Hn, Hnew in Hst. destruct Hst as [-> _].
  unfold minted. rewrite Hnew.
  assert (is_new (res_msg (save (S fuel) env nq ct m w)) = false) as ->.
  { apply is_new_false. exists (next_id w), s. split; congruence. }
  cbn [andb negb]. congruence.
Qed.

Lemma save_dom (fuel : nat) (env : Env) (nq : bool) (ct : option time)
    (m : Msg) (w : World) (dp : string) :
  wf_store w →
  cfg_get env "system" "datapath" = inr dp →
  dom (db_msg (res_world (save (S fuel) env nq ct m w)))
  = {[(persist env ct m w).1.1.2]} ∪ dom (db_msg w).
Proof.
  intros Hwf Hdp.
  destruct (persist env ct m w) as [[[new i] m1] w1] eqn:Hper. cbn [fst snd].
  destruct (save_run fuel env nq ct m w dp Hwf Hdp new i m1 w1 Hper)
    as (_ & Hdb2 & _ & Hrun).
  apply persist_spec in Hper as (_ & Hi & _).
  rewrite (dom_runs m1 i _ _ Hi Hrun); rewrite Hdb2, dom_insert_L;
    [done|set_solver].
Qed.

Lemma run_saves_new_ids (fuel : nat) (env : Env) (dp : string)
    (reqs : list request) :
  cfg_get env "system" "datapath" = inr dp →
  Forall (λ q, is_new (req_msg q) = true) reqs →
  ∀ w n,
    wf_store w →
    dom (db_msg w) = list_to_set (Z.of_nat <$> seq 0 n) →
    (run_saves (S fuel) env reqs w).1 = Z.of_nat <$> seq n (length reqs) ∧
    dom (db_msg (run_saves (S fuel) env reqs w).2)
    = list_to_set (Z.of_nat <$> seq 0 (n + length reqs)).
Proof.
  intros Hdp. induction 1 as [|q reqs Hq _ IH]; intros w n Hwf Hdom.
  { simpl. by rewrite Nat.add_0_r. }
  cbn [run_saves].
  set (r := save (S fuel) env (req_noqueue q) (req_ctime q) (req_msg q) w).
  assert (Hmint : minted (req_msg q) (res_msg r) = Some (Z.of_nat n)).
  { unfold r. rewrite (save_new_minted _ _ _ _ _ _ dp Hdp Hq).
    by rewrite (next_id_count w n Hdom). }
  assert (Hdom' : dom (db_msg (res_world r))
                  = list_to_set (Z.of_nat <$> seq 0 (S n))).
  { unfold r. rewrite (save_dom _ _ _ _ _ _ dp Hwf Hdp).
    pose proof (persist_spec env (req_ctime q) (req_msg q) w) as Hspec.
    destruct (persist env (req_ctime q) (req_msg q) w)
      as [[[new i] m1] w1].
    destruct (Hspec new i m1 w1 eq_refl)
      as (Hn & _ & _ & _ & _ & _ & _ & _ & _ & _ & _ & _ & _ & _ & Hst).
    rewrite Hn, Hq in Hst. destruct Hst as [-> _]. cbn [fst snd].
    by rewrite (next_id_count w n Hdom), list_to_set_seq_S, Hdom. }
  destruct (IH (res_world r) (S n) (save_wf _ _ _ _ _ _ Hwf) Hdom')
    as [Hids Hd].
  destruct (run_saves (S fuel) env reqs (res_world r)) as [ids w'].
  cbn [fst snd] in *. rewrite Hmint, Hids. split; [done|].
  rewrite Hd.
  by replace (n + length (q :: reqs))%nat with (S n + length reqs)%nat
    by (simpl; lia).
Qed.

(** X15. From the empty store on, the ids of new messages count up from 0
    without a gap: [n] saves of new messages mint the ids 0 to [n]-1 in that
    order, however each of them ends, and [list_msgs()] lists exactly those
    ids afterwards. *)
Theorem new_ids_count_up_from_zero (fuel : nat) (env : Env)
    (reqs : list request) (dp : string) :
  cfg_get env "system" "datapath" = inr dp →
  Forall (λ q, is_new (req_msg q) = true) reqs →
  (run_saves (S fuel) env reqs empty_world).1
    = Z.of_nat <$> seq 0 (length reqs) ∧
  list_msgs None (run_saves (S fuel) env reqs empty_world).2
    = list_to_set (Z.of_nat <$> seq 0 (length reqs)).
Proof.
  intros Hdp Hnew.
  destruct (run_saves_new_ids fuel env dp reqs Hdp Hnew empty_world 0
              wf_store_empty) as [Hids Hdom].
  { simpl. apply dom_empty_L. }
  split; [done|]. unfold list_msgs. by rewrite msg_keys_dom, Hdom.
Qed.

Lemma new_ids_count_up_from_zero_witness :
  cfg_get demo_env "system" "datapath" = inr "/var/x84"%string ∧
  Forall (λ q, is_new (req_msg q) = true) demo_requests ∧
  (run_saves 3 demo_env demo_requests empty_world).1 = [0; 1; 2].
Proof.
  assert (Hnew : Forall (λ q, is_new (req_msg q) = true) demo_requests).
  { repeat constructor. }
  split; [reflexivity|]. split; [exact Hnew|].
  exact (proj1 (new_ids_count_up_from_zero 2 demo_env demo_requests
                  "/var/x84"%string eq_refl Hnew)).
Defined.

(** ** Tag lists of the configuration *)

Lemma append_assoc (a b c : string) : (a +:+ b) +:+ c = a +:+ (b +:+ c).
Proof.
  induction a as [|x a IH]; [done|].
  change (String x ((a +:+ b) +:+ c) = String x (a +:+ (b +:+ c))).
  by rewrite IH.
Qed.

Lemma has_char_append (c : ascii) (a b : string) :
  has_char c (a +:+ b) = has_char c a || has_char c b.
Proof.
  induction a as [|x a IH]; [done|].
  change (Ascii.eqb x c || has_char c (a +:+ b)
          = Ascii.eqb x c || has_char c a || has_char c b).
  by rewrite IH, orb_assoc.
Qed.

Lemma split_on_no_sep (sep : ascii) (s p : string) :
  p ∈ split_on sep s → has_char sep p = false.
Proof.
  revert p. induction s as [|c s IH]; intros p; simpl.
  { intros Hp. apply list_elem_of_singleton in Hp. by subst. }
  destruct (Ascii.eqb c sep) eqn:Hc.
  - intros Hp. apply elem_of_cons in Hp as [->|Hp]; [done|]. by apply IH.
  - destruct (split_on sep s) as [|piece pieces].
    + intros Hp. apply list_elem_of_singleton in Hp. subst. simpl.
      by rewrite Hc.
    + intros Hp. apply elem_of_cons in Hp as [->|Hp].
      * simpl. rewrite Hc. apply IH. by left.
      * apply IH. by right.
Qed.

Lemma split_on_whole (sep : ascii) (s : string) :
  has_char sep s = false → split_on sep s = [s].
Proof.
  induction s as [|c s IH]; simpl; [done|].
  intros [Hc Hs]%orb_false_elim. by rewrite Hc, IH.
Qed.

Lemma split_on_app (sep : ascii) (a rest : string) :
  has_char sep a = false →
  split_on sep (a +:+ String sep rest) = a :: split_on sep rest.
Proof.
  induction a as [|c a IH]; simpl.
  - intros _. by rewrite Ascii.eqb_refl.
  - intros [Hc Ha]%orb_false_elim. by rewrite Hc, IH.
Qed.

Lemma lstrip_starts_clean (s : string) : starts_clean (lstrip s).
Proof.
  induction s as [|c s IH]; simpl; [done|].
  destruct (is_space c) eqn:Hc; [done|]. simpl. done.
Qed.

Lemma lstrip_clean (s : string) : starts_clean s → lstrip s = s.
Proof. destruct s as [|c s]; simpl; [done|]. by intros ->. Qed.

Lemma rstrip_starts_clean (s : string) :
  starts_clean s → starts_clean (rstrip s).
Proof.
  destruct s as [|c s]; simpl; [done|]. intros Hc.
  destruct (rstrip s); by rewrite ?Hc.
Qed.

Lemma rstrip_idem (s : string) : rstrip (rstrip s) = rstrip s.
Proof.
  induction s as [|c s IH]; [done|].
  cbn [rstrip]. destruct (rstrip s) as [|d r] eqn:Hr.
  - destruct (is_space c) eqn:Hc; [done|]. simpl. by rewrite Hc.
  - change (rstrip (String c (String d r)))
      with (match rstrip (String d r) with
            | EmptyString => if is_space c then EmptyString
                             else String c EmptyString
            | rest => String c rest
            end).
    by rewrite IH.
Qed.

Lemma strip_idem (s : string) : strip (strip s) = strip s.
Proof.
  unfold strip.
  rewrite (lstrip_clean (rstrip (lstrip s))).
  - apply rstrip_idem.
  - apply rstrip_starts_clean, lstrip_starts_clean.
Qed.

Lemma has_char_lstrip (c : ascii) (s : string) :
  has_char c s = false → has_char c (lstrip s) = false.
Proof.
  induction s as [|x s IH]; simpl; [done|].
  intros [Hx Hs]%orb_false_elim.
  destruct (is_space x); [by apply IH|]. simpl. by rewrite Hx, Hs.
Qed.

Lemma has_char_rstrip (c : ascii) (s : string) :
  has_char c s = false → has_char c (rstrip s) = false.
Proof.
  induction s as [|x s IH]; simpl; [done|].
  intros [Hx Hs]%orb_false_elim. specialize (IH Hs).
  destruct (rstrip s) as [|d r].
  - destruct (is_space x); simpl; [done|]. by rewrite Hx.
  - cbn [has_char] in *. by rewrite Hx, IH.
Qed.

Lemma has_char_strip (c : ascii) (s : string) :
  has_char c s = false → has_char c (strip s) = false.
Proof. intros Hs. by apply has_char_rstrip, has_char_lstrip. Qed.

Lemma parse_tag_list_plain (value t : string) :
  t ∈ parse_tag_list value → plain_tag t.
Proof.
  unfold parse_tag_list. intros Hin.
  apply list_elem_of_fmap in Hin as (p & -> & Hp). split.
  - apply strip_idem.
  - by apply has_char_strip, (split_on_no_sep _ value).
Qed.

Lemma strip_blank (t : string) : strip (" " +:+ t) = strip t.
Proof. reflexivity. Qed.

Lemma parse_joined (pre : string) (t : string) (ts : list string) :
  pre = ""%string ∨ pre = " "%string →
  Forall plain_tag (t :: ts) →
  strip <$> split_on ","%char (pre +:+ String.concat ", " (t :: ts))
  = t :: ts.
Proof.
  intros Hpre Hall. revert pre t Hpre Hall.
  induction ts as [|t' ts IH]; intros pre t Hpre Hall.
  - apply Forall_inv in Hall as [Hs Hc]. cbn [String.concat].
    rewrite split_on_whole.
    + simpl. f_equal. destruct Hpre as [-> | ->]; [done|].
      by rewrite strip_blank.
    + rewrite has_char_append, Hc. by destruct Hpre as [-> | ->].
  - pose proof (Forall_inv Hall) as [Hs Hc].
    apply Forall_inv_tail in Hall.
    change (String.concat ", " (t :: t' :: ts))
      with (t +:+ String ","%char (" " +:+ String.concat ", " (t' :: ts))).
    rewrite <- append_assoc, split_on_app.
    + rewrite fmap_cons, (IH " "%string t' (or_intror eq_refl) Hall).
      f_equal. destruct Hpre as [-> | ->]; [done|]. by rewrite strip_blank.
    + rewrite has_char_append, Hc. by destruct Hpre as [-> | ->].
Qed.

(** X16. What [[key.strip() for key in value.split(',')]] yields, for any
    configuration value: never the empty list, so the guard of line 203 is
    never taken and an empty value gives the one tag [''], and only tags
    without a comma and without white space at either end; a value without
    a comma gives one tag. *)
Theorem parse_tag_list_shape (value : string) :
  parse_tag_list value ≠ [] ∧
  (∀ t, t ∈ parse_tag_list value → plain_tag t) ∧
  (has_char ","%char value = false → parse_tag_list value = [strip value]) ∧
  parse_tag_list "" = [""%string].
Proof.
  split_and!.
  - pose proof (parse_tag_list_length value) as H.
    intros Heq. by rewrite Heq in H.
  - apply parse_tag_list_plain.
  - intros Hc. unfold parse_tag_list. by rewrite split_on_whole.
  - reflexivity.
Qed.

(** X17. Round trip of a tag list: tags without a comma and without white
    space at either end, written with [', '] between them as the
    configuration has them, are read back as the same list. *)
Theorem parse_tag_list_join (t : string) (ts : list string) :
  Forall plain_tag (t :: ts) →
  parse_tag_list (String.concat ", " (t :: ts)) = t :: ts.
Proof.
  intros Hall. unfold parse_tag_list.
  apply (parse_joined ""%string t ts); [by left|done].
Qed.

Lemma parse_tag_list_join_witness :
  Forall plain_tag ["fidonet"; "x84net"; "local"]%string ∧
  parse_tag_list "fidonet, x84net, local"
    = ["fidonet"; "x84net"; "local"]%string.
Proof.
  assert (Hall : Forall plain_tag ["fidonet"; "x84net"; "local"]%string).
  { repeat constructor. }
  split; [exact Hall|].
  exact (parse_tag_list_join "fidonet" ["x84net"; "local"]%string Hall).
Defined.

(** ** Tags that take no part in routing *)

Lemma dispatch_unrouted (rec : bool → option time → Msg → World → result)
    (env : Env) (i : Z) (m : Msg) (w : World) :
  (∀ v, cfg env "msg" "network_tags" = Some v →
        Forall (unrouted (parse_tag_list v) (server_tags_of env)) (tags m)) →
  res_msg (dispatch rec env i m w) = m ∧
  res_world (dispatch rec env i m w) = w.
Proof.
  intros Hun. unfold dispatch, has_option, cfg_get.
  destruct (cfg env "msg" "network_tags") as [v|] eqn:Hv; [|done].
  cbn [negb]. rewrite parse_tag_list_length.
  destruct (format_origin_line env) as [e|origin]; [done|].
  specialize (Hun v eq_refl).
  assert (Hsrv : (if match cfg env "msg" "server_tags" with
                     | Some _ => true | None => false end
                  then match match cfg env "msg" "server_tags" with
                             | Some v0 => inr v0
                             | None => inl (ConfigError "msg" "server_tags")
                             end with
                       | inr servers_ini => parse_tag_list servers_ini
                       | inl _ => []
                       end
                  else []) = server_tags_of env).
  { unfold server_tags_of. by destruct (cfg env "msg" "server_tags"). }
  rewrite Hsrv. by rewrite route_unrouted.
Qed.

Lemma save_unrouted (fuel : nat) (env : Env) (nq : bool) (ct : option time)
    (m : Msg) (w : World) (dp : string) :
  wf_store w →
  cfg_get env "system" "datapath" = inr dp →
  (∀ v, cfg env "msg" "network_tags" = Some v →
        Forall (unrouted (parse_tag_list v) (server_tags_of env)) (tags m)) →
  db_net (res_world (save (S fuel) env nq ct m w)) = db_net w ∧
  body (res_msg (save (S fuel) env nq ct m w)) = body m.
Proof.
  intros Hwf Hdp Hun.
  destruct (persist env ct m w) as [[[new i] m1] w1] eqn:Hper.
  destruct (save_run fuel env nq ct m w dp Hwf Hdp new i m1 w1 Hper)
    as (Hwf2 & Hdb2 & Hn2 & _).
  rewrite save_S. unfold save_body. rewrite Hdp, Hper.
  apply persist_spec in Hper
    as (_ & Hi & [s Hs] & Htg & _ & _ & Hbody & _).
  set (w2 := reconcile i m1 w1) in *.
  assert (Hx2 : db_msg w2 !! i = Some m1).
  { rewrite Hdb2. apply lookup_insert_eq. }
  pose proof (thread_step_steps (save fuel env)
                (save_child_steps fuel env false None) i m1 w2 Hwf2 Hx2)
    as Hsteps.
  pose proof (thread_step_msg (save fuel env) i m1 w2) as Hm3.
  destruct (thread_step _ _ _ _) as [[m3 w3] out3].
  unfold res_world, res_msg, res_out in *. cbn [fst snd] in *.
  assert (Hn3 : db_net w3 = db_net w).
  { apply step_db_net in Hsteps. congruence. }
  assert (Hb3 : body m3 = body m).
  { destruct Hm3 as [-> | ->]; done. }
  assert (Htg3 : tags m3 = tags m) by (destruct Hm3 as [-> | ->]; done).
  destruct out3; cbn [and_then fst snd]; [|done..].
  destruct (negb nq && new); [|done].
  destruct (dispatch_unrouted (save fuel env) env i m3 w3) as [Hdm Hdw].
  { by rewrite Htg3. }
  destruct (dispatch _ _ _ _ _) as [[m4 w4] out4].
  unfold res_world, res_msg in *. cbn [fst snd] in *. subst m4 w4.
  by destruct out4.
Qed.

(** X18. A tag with white space at either end, or with a comma in it, is
    never routed: it cannot be equal to a parsed network or server tag, so
    a message that carries only such tags is saved without any entry in a
    network table and with its body as it is, whatever the configuration.
    A tag with a blank in front of the name of a network is such a tag. *)
Theorem unparsable_tags_are_not_routed (fuel : nat) (env : Env) (nq : bool)
    (ct : option time) (m : Msg) (w : World) (dp : string) :
  wf_store w →
  cfg_get env "system" "datapath" = inr dp →
  Forall (λ t, ¬ plain_tag t) (tags m) →
  db_net (res_world (save (S fuel) env nq ct m w)) = db_net w ∧
  body (res_msg (save (S fuel) env nq ct m w)) = body m.
Proof.
  intros Hwf Hdp Hodd. apply (save_unrouted _ _ _ _ _ _ dp Hwf Hdp).
  intros v _. eapply Forall_impl; [exact Hodd|].
  intros t Ht. split.
  - unfold server_tags_of. destruct (cfg env "msg" "server_tags") as [sv|].
    + intros Hin. by apply Ht, (parse_tag_list_plain sv).
    + set_solver.
  - intros Hin. by apply Ht, (parse_tag_list_plain v).
Qed.

Lemma unparsable_tags_are_not_routed_witness :
  wf_store empty_world ∧
  Forall (λ t, ¬ plain_tag t) (tags msg_blank) ∧
  db_net (res_world (save 3 fido_env false None msg_blank empty_world))
    = ∅.
Proof.
  assert (Hodd : Forall (λ t, ¬ plain_tag t) (tags msg_blank)).
  { repeat constructor. intros [Hs _]. discriminate Hs. }
  split; [apply wf_store_empty|]. split; [exact Hodd|].
  exact (proj1 (unparsable_tags_are_not_routed 2 fido_env false None
                  msg_blank empty_world "/var/x84"%string wf_store_empty
                  eq_refl Hodd)).
Defined.

(** ** What a save does to the other records *)

Lemma links_grown_refl (r : Msg) : links_grown r r.
Proof. unfold links_grown. split_and!; try done. by left. Qed.

Lemma links_grown_stable (r : Msg) : stable (links_grown r).
Proof.
  split.
  - intros r' c (?&?&?&?&?&?&?&?&?&?). unfold links_grown.
    split_and!; try done. simpl. set_solver.
  - intros r' (?&?&?&?&?&?&?&?&?&?). unfold links_grown.
    split_and!; try done. by right.
Qed.

(** X19. What a save does to the records of other messages: on a well-formed
    store every record under another id is still there afterwards, with its
    id, times, author, recipient, subject, body and tags as they were; at
    most it has gained children or lost its parent.  This holds however the
    save ends. *)
Theorem save_keeps_other_records (fuel : nat) (env : Env) (nq : bool)
    (ct : option time) (m : Msg) (w : World) (dp : string) :
  wf_store w →
  cfg_get env "system" "datapath" = inr dp →
  ∀ new i m1 w1 k rec,
    persist env ct m w = (new, i, m1, w1) →
    k ≠ i → get_msg k w = inr rec →
    ∃ rec', get_msg k (res_world (save (S fuel) env nq ct m w)) = inr rec' ∧
            links_grown rec rec'.
Proof.
  intros Hwf Hdp new i m1 w1 k rec Hper Hk Hrec.
  apply get_msg_inr in Hrec.
  destruct (save_run fuel env nq ct m w dp Hwf Hdp new i m1 w1 Hper)
    as (_ & Hdb2 & _ & Hrun).
  apply persist_spec in Hper as (_ & Hi & _).
  assert (Hh : holds_at k (links_grown rec)
                 (res_world (save (S fuel) env nq ct m w))).
  { eapply holds_at_runs; [apply links_grown_stable| |exact Hrun|].
    - intros Hik. congruence.
    - exists rec. rewrite Hdb2, lookup_insert_ne by done.
      split; [done|apply links_grown_refl]. }
  destruct Hh as (rec' & Hrec' & Hg). exists rec'.
  split; [by apply get_msg_inr|done].
Qed.

Lemma save_keeps_other_records_witness :
  wf_store (res_world saved_hello) ∧
  get_msg 0 (res_world saved_hello) = inr (res_msg saved_hello) ∧
  ∃ rec', get_msg 0 (res_world saved_reply) = inr rec' ∧
          links_grown (res_msg saved_hello) rec'.
Proof.
  pose (p := persist demo_env None msg_reply (res_world saved_hello)).
  assert (Hp : persist demo_env None msg_reply (res_world saved_hello) =
               (true, 1, p.1.2, p.2)) by (vm_compute; reflexivity).
  assert (Hg : get_msg 0 (res_world saved_hello) = inr (res_msg saved_hello))
    by (vm_compute; reflexivity).
  split; [apply wf_saved_hello|]. split; [exact Hg|].
  exact (save_keeps_other_records 2 demo_env false None msg_reply
           (res_world saved_hello) "/var/x84"%string wf_saved_hello eq_refl
           true 1 p.1.2 p.2 0 (res_msg saved_hello) Hp ltac:(discriminate)
           Hg).
Defined.

(** ** A message as [Msg(...)] makes it *)

Lemma reconcile_untagged (i : Z) (m : Msg) (w w1 : World) :
  tags m = [] → db_tag w1 = db_tag w →
  (∀ t s, db_tag w !! t = Some s → i ∉ s) →
  db_tag (reconcile i m w1) = db_tag w.
Proof.
  intros Htg Ht Hout. apply map_eq. intros t.
  rewrite reconcile_lookup, Ht, Htg.
  destruct (db_tag w !! t) as [s|] eqn:Hs.
  - f_equal. unfold reconciled.
    rewrite decide_False by (intros Hin; by apply elem_of_nil in Hin).
    specialize (Hout t s Hs). set_solver.
  - by rewrite decide_False by (intros Hin; by apply elem_of_nil in Hin).
Qed.

(** X20. A message as [Msg(recipient, subject, body)] makes it is new, has
    the session's handle as author, no tags, no children and no parent, and
    the reading of the clock as creation time.  Saved as it is, with
    [noqueue] set, it gets the next id and the next reading of the clock as
    save time, the call returns, the record is stored under the id, and on a
    store whose tag table agrees with its records the tag table stays as it
    is. *)
Theorem fresh_message_first_save (fuel : nat) (env : Env)
    (handle rcpt : option string) (subj text : string) (w : World)
    (dp : string) :
  cfg_get env "system" "datapath" = inr dp →
  let m := (Msg_init env handle rcpt subj text w).1 in
  let w0 := (Msg_init env handle rcpt subj text w).2 in
  let r := save (S fuel) env true None m w0 in
  is_new m = true ∧ author m = handle ∧ ctime m = clock env (ticks w) ∧
  tags m = [] ∧ children m = ∅ ∧ parent m = None ∧
  res_out r = Returned ∧
  idx (res_msg r) = Some (next_id w) ∧
  ctime (res_msg r) = clock env (ticks w) ∧
  stime (res_msg r) = Some (clock env (S (ticks w))) ∧
  db_msg (res_world r) = <[next_id w := res_msg r]> (db_msg w) ∧
  (tag_consistent w → db_tag (res_world r) = db_tag w) ∧
  db_net (res_world r) = db_net w.
Proof.
  intros Hdp m w0 r.
  assert (Hm : m = mkMsg None (clock env (ticks w)) None handle rcpt subj
                         text [] ∅ None) by done.
  assert (Hdb0 : db_msg w0 = db_msg w) by done.
  assert (Ht0 : db_tag w0 = db_tag w) by done.
  assert (Hn0 : db_net w0 = db_net w) by done.
  assert (Hk0 : ticks w0 = S (ticks w)) by done.
  assert (Hnext : next_id w0 = next_id w).
  { unfold next_id, msg_keys. by rewrite Hdb0. }
  assert (Hnew : is_new m = true) by done.
  destruct (persist env None m w0) as [[[new i] m1] w1] eqn:Hper.
  pose proof Hper as Hspec. apply persist_spec in Hspec
    as (Hn & Hi & _ & Htg & _ & Hpar & _ & _ & Hdb & Ht & Hnt & _ & _ & _
        & Hst).
  rewrite Hn, Hnew in Hst. destruct Hst as [Hieq Hm1].
  destruct (reconcile_frame i m1 w1) as (Hm2 & Hn2 & _).
  assert (Hr : r = (m1, logger (LogSaved true
                                  (bool_decide ("public"%string ∈ tags m1))
                                  (bool_decide (parent m1 ≠ None))
                                  (recipient m1)) (reconcile i m1 w1),
                    Returned)).
  { unfold r. rewrite save_S. unfold save_body. rewrite Hdp, Hper.
    assert (Hp1 : parent m1 = None) by (by rewrite Hpar).
    unfold thread_step, parent_not_child. rewrite Hp1, Hn, Hnew.
    cbn [negb and_then andb]. by rewrite ?Hp1. }
  rewrite Hr. unfold res_out, res_msg, res_world.
  cbn [fst snd db_msg db_tag db_net logger].
  assert (Hi1 : i = next_id w) by congruence.
  split_and!; try done.
  - congruence.
  - rewrite Hm1. unfold stamped. done.
  - rewrite Hm1. unfold stamped. simpl. by rewrite ?Hk0.
  - rewrite Hm2, Hdb, Hdb0. by rewrite Hi1.
  - intros Hc. apply reconcile_untagged; [by rewrite Htg|congruence|].
    intros t s Hs Hin.
    destruct (proj1 (Hc t i)) as (x & Hx & _); [by exists s|].
    apply elem_of_dom_2, next_id_fresh in Hx. lia.
  - congruence.
Qed.

(** ** Lock discipline *)

Lemma disciplined_reconcile_entry (i : Z) (tgs : list string) (w : World)
    (item : string * gset Z) :
  0 < held TAGDB (trace w) → disciplined (trace w) = true →
  disciplined (trace (reconcile_entry i tgs w item)) = true.
Proof.
  intros Hh Hd. destruct item as [tag msgs]. unfold reconcile_entry.
  repeat case_match; cbn [trace logger tag_set disciplined];
    rewrite ?Hd, ?andb_true_r; try done; by apply Z.ltb_lt.
Qed.

Lemma disciplined_reconcile_loop (i : Z) (tgs : list string)
    (items : list (string * gset Z)) (w : World) :
  0 < held TAGDB (trace w) → disciplined (trace w) = true →
  disciplined (trace (foldl (reconcile_entry i tgs) w items)) = true.
Proof.
  revert w. induction items as [|item items IH]; intros w Hh Hd; [done|].
  simpl. apply IH.
  - by rewrite held_reconcile_entry.
  - by apply disciplined_reconcile_entry.
Qed.

Lemma disciplined_create_loop (i : Z) (fresh : list string) (w : World) :
  0 < held TAGDB (trace w) → disciplined (trace w) = true →
  disciplined (trace (foldl (λ w tag, tag_set tag {[i]} w) w fresh)) = true.
Proof.
  revert w. induction fresh as [|t fresh IH]; intros w Hh Hd; [done|].
  simpl. apply IH.
  - done.
  - cbn [trace tag_set disciplined]. rewrite Hd, andb_true_r.
    by apply Z.ltb_lt.
Qed.

Lemma lock_ok_reconcile (i : Z) (m : Msg) (w : World) :
  lock_ok (trace w) → lock_ok (trace (reconcile i m w)).
Proof.
  intros (Hd & Hm & Ht & Hpos).
  split; [|split_and!; [by rewrite held_reconcile..|];
            intros t; by rewrite held_reconcile].
  unfold reconcile. cbn [trace emit disciplined]. rewrite andb_true_l.
  set (w0 := emit (Acquire TAGDB) w).
  assert (Hh0 : 0 < held TAGDB (trace w0)).
  { cbn [w0 trace emit held]. rewrite String.eqb_refl. lia. }
  assert (Hd0 : disciplined (trace w0) = true).
  { cbn [w0 trace emit disciplined]. rewrite Hd, Hm, Ht. reflexivity. }
  apply disciplined_create_loop.
  - by rewrite held_reconcile_loop.
  - by apply disciplined_reconcile_loop.
Qed.

Lemma lock_ok_msg_write (i : Z) (m : Msg) (w : World) :
  lock_ok (trace w) →
  lock_ok (trace (emit (Release MSGDB)
                    (msg_set i m (emit (Acquire MSGDB) w)))).
Proof.
  intros (Hd & Hm & Ht & Hpos). unfold lock_ok.
  cbn [trace emit msg_set disciplined held].
  rewrite Hd, Hm, Ht, String.eqb_refl.
  split_and!; try reflexivity.
  intros t. specialize (Hpos t). destruct (String.eqb MSGDB t); lia.
Qed.

Lemma lock_ok_persist (env : Env) (ct : option time) (m : Msg) (w : World) :
  lock_ok (trace w) → lock_ok (trace (persist env ct m w).2).
Proof.
  intros Hok. pose proof (persist_spec env ct m w) as H.
  destruct (persist env ct m w) as [[[new i] m1] w1].
  destruct (H new i m1 w1 eq_refl)
    as (_ & _ & _ & _ & _ & _ & _ & _ & _ & _ & _ & _ & Htr & _).
  cbn [snd]. rewrite Htr.
  exact (lock_ok_msg_write i m1 w Hok).
Qed.

Lemma lock_ok_logger (r : logrec) (w : World) :
  lock_ok (trace w) → lock_ok (trace (logger r w)).
Proof. done. Qed.

Section Discipline.

Variable fuel : nat.
Variable env : Env.
Hypothesis msg_not_net : not_a_net_table env MSGDB.
Hypothesis tag_not_net : not_a_net_table env TAGDB.
Hypothesis rec_ok :
  ∀ nq ct m w, lock_ok (trace w) →
               lock_ok (trace (res_world (save fuel env nq ct m w))).

Lemma thread_step_lock_ok (i : Z) (m : Msg) (w : World) :
  lock_ok (trace w) →
  lock_ok (trace (res_world (thread_step (save fuel env) i m w))).
Proof.
  intros Hok. unfold thread_step.
  destruct (negb (parent_not_child m)); [done|].
  destruct (parent m) as [p|]; [|done].
  destruct (get_msg p w) as [e|pm]; [done|].
  case_bool_decide.
  - pose proof (rec_ok false None (add_child i pm) w Hok) as Hrec.
    destruct (save fuel env false None (add_child i pm) w) as [[x w'] out].
    exact Hrec.
  - unfold res_world. cbn [fst snd].
    exact (lock_ok_msg_write i (with_parent None m) (logger LogStripParent w)
             Hok).
Qed.

Lemma lock_ok_acquire_net (name : string) (w : World) :
  name ≠ MSGDB → name ≠ TAGDB →
  lock_ok (trace w) → lock_ok (trace (emit (Acquire name) w)).
Proof.
  intros Hm Ht (Hd & Hhm & Hht & Hpos). unfold lock_ok.
  cbn [trace emit disciplined held].
  rewrite (proj2 (String.eqb_neq name MSGDB) Hm).
  rewrite (proj2 (String.eqb_neq name TAGDB) Ht).
  cbn [orb]. rewrite Hd, Hhm, Hht. split_and!; try done.
  intros t. specialize (Hpos t). destruct (String.eqb name t); lia.
Qed.

Lemma lock_ok_net_write (name : string) (i : Z) (v : netval) (w : World) :
  name ≠ MSGDB → name ≠ TAGDB →
  0 < held name (trace w) →
  lock_ok (trace w) →
  lock_ok (trace (emit (Release name) (net_set name i v w))).
Proof.
  intros Hm Ht Hh (Hd & Hhm & Hht & Hpos). unfold lock_ok.
  cbn [trace emit net_set disciplined held].
  rewrite (proj2 (String.eqb_neq name MSGDB) Hm).
  rewrite (proj2 (String.eqb_neq name TAGDB) Ht).
  rewrite Hd, Hhm, Hht, (proj2 (Z.ltb_lt _ _) Hh). split_and!; try done.
  intros t. specialize (Hpos t).
  destruct (String.eqb name t) eqn:Hnt; [|lia].
  apply String.eqb_eq in Hnt as <-. lia.
Qed.

Lemma route_lock_ok (networks server_tags : list string) (origin : string)
    (i : Z) (ts : list string) (m : Msg) (w : World) :
  lock_ok (trace w) →
  lock_ok (trace (res_world (route (save fuel env) env networks server_tags
                                   origin i ts m w))).
Proof.
  intros Hok. induction ts as [|t ts IH]; [done|]. rewrite route_cons.
  case_bool_decide; [|case_bool_decide; [|exact IH]].
  - unfold cfg_get.
    destruct (cfg env ("msgnet_" +:+ t) "trans_db_name") as [name|] eqn:Hn;
      [|done].
    assert (Hm : name ≠ MSGDB) by (eapply msg_not_net; eauto).
    assert (Ht : name ≠ TAGDB) by (eapply tag_not_net; eauto).
    pose proof (lock_ok_acquire_net name w Hm Ht Hok) as Hok0.
    pose proof (rec_ok false None (with_body (body m +:+ origin) m)
                  (emit (Acquire name) w) Hok0) as Hrec.
    pose proof (save_held true env name fuel ltac:(done) false None
                  (with_body (body m +:+ origin) m) (emit (Acquire name) w))
      as [_ Heq].
    destruct (save fuel env false None (with_body (body m +:+ origin) m)
                   (emit (Acquire name) w)) as [[x w'] out].
    unfold res_out, res_world in *. cbn [fst snd] in Hrec, Heq.
    destruct out; cbn [and_then fst snd]; [|done..].
    apply lock_ok_logger, lock_ok_net_write; try done.
    rewrite (Heq eq_refl). cbn [trace emit held]. rewrite String.eqb_refl.
    destruct Hok as (_ & _ & _ & Hpos). specialize (Hpos name). lia.
  - unfold cfg_get.
    destruct (cfg env ("msgnet_" +:+ t) "queue_db_name") as [name|] eqn:Hn;
      [|done].
    assert (Hm : name ≠ MSGDB) by (eapply msg_not_net; eauto).
    assert (Ht : name ≠ TAGDB) by (eapply tag_not_net; eauto).
    pose proof (lock_ok_acquire_net name w Hm Ht Hok) as Hok0.
    unfold res_world. cbn [fst snd].
    apply lock_ok_logger, lock_ok_net_write; try done.
    cbn [trace emit held]. rewrite String.eqb_refl.
    destruct Hok as (_ & _ & _ & Hpos). specialize (Hpos name). lia.
Qed.

Lemma dispatch_lock_ok (i : Z) (m : Msg) (w : World) :
  lock_ok (trace w) →
  lock_ok (trace (res_world (dispatch (save fuel env) env i m w))).
Proof.
  intros Hok. unfold dispatch.
  destruct (negb (has_option env "msg" "network_tags")); [done|].
  destruct (cfg_get env "msg" "network_tags") as [e|v]; [done|].
  destruct (length (parse_tag_list v) =? 0)%nat; [done|].
  destruct (format_origin_line env) as [e|origin]; [done|].
  by apply route_lock_ok.
Qed.

Lemma save_body_lock_ok (nq : bool) (ct : option time) (m : Msg)
    (w : World) :
  lock_ok (trace w) →
  lock_ok (trace (res_world (save_body (save fuel env) env nq ct m w))).
Proof.
  intros Hok. unfold save_body.
  destruct (cfg_get env "system" "datapath") as [e|dp]; [done|].
  pose proof (lock_ok_persist env ct m w Hok) as Hp.
  destruct (persist env ct m w) as [[[new i] m1] w1]. cbn [snd] in Hp.
  pose proof (thread_step_lock_ok i m1 (reconcile i m1 w1)
                (lock_ok_reconcile i m1 w1 Hp)) as Ht.
  destruct (thread_step (save fuel env) i m1 (reconcile i m1 w1))
    as [[m2 w2] out2].
  unfold res_world in *. cbn [fst snd] in Ht.
  destruct out2; cbn [and_then fst snd]; [|done..].
  destruct (negb nq && new).
  - pose proof (dispatch_lock_ok i m2 w2 Ht) as Hd.
    destruct (dispatch (save fuel env) env i m2 w2) as [[m3 w3] out3].
    cbn [fst snd] in Hd. by destruct out3.
  - done.
Qed.

End Discipline.

Lemma save_lock_ok (fuel : nat) (env : Env) :
  not_a_net_table env MSGDB → not_a_net_table env TAGDB →
  ∀ nq ct m w,
    lock_ok (trace w) →
    lock_ok (trace (res_world (save fuel env nq ct m w))).
Proof.
  intros Hm Ht. induction fuel as [|fuel IH]; intros nq ct m w Hok; [done|].
  rewrite save_S. by apply save_body_lock_ok.
Qed.

Lemma lock_ok_empty : lock_ok (trace empty_world).
Proof. by split_and!. Qed.

(** X21. Lock discipline.  When no transit or queue table is named like the
    message table or the tag table, every save keeps the trace disciplined,
    however it ends and however deep its re-saves go: each write to a table
    is made while the lock of that table is held, the locks of the message
    table and of the tag table are never held together nor acquired twice,
    and both are free when the save is over.  This holds from the empty
    store on, over any sequence of saves. *)
Theorem save_keeps_lock_discipline (fuel : nat) (env : Env) :
  not_a_net_table env MSGDB → not_a_net_table env TAGDB →
  lock_ok (trace empty_world) ∧
  (∀ nq ct m w,
     lock_ok (trace w) →
     lock_ok (trace (res_world (save fuel env nq ct m w)))) ∧
  (∀ reqs, lock_ok (trace (run_saves fuel env reqs empty_world).2)).
Proof.
  intros Hm Ht. split; [apply lock_ok_empty|]. split.
  - by apply save_lock_ok.
  - intros reqs. generalize lock_ok_empty. generalize empty_world.
    induction reqs as [|q reqs IH]; intros w Hok; [done|].
    simpl.
    pose proof (IH _ (save_lock_ok fuel env Hm Ht (req_noqueue q)
                        (req_ctime q) (req_msg q) w Hok)) as H.
    by destruct (run_saves fuel env reqs _) as [ids w'].
Qed.

Lemma save_keeps_lock_discipline_witness :
  not_a_net_table demo_env MSGDB ∧ not_a_net_table demo_env TAGDB ∧
  disciplined
    (trace (run_saves 3 demo_env demo_requests empty_world).2) = true.
Proof.
  assert (Hm : not_a_net_table demo_env MSGDB)
    by (apply demo_not_net_table; by left).
  assert (Ht : not_a_net_table demo_env TAGDB)
    by (apply demo_not_net_table; by right).
  split; [exact Hm|]. split; [exact Ht|].
  destruct (save_keeps_lock_discipline 3 demo_env Hm Ht) as (_ & _ & Hall).
  exact (proj1 (Hall demo_requests)).
Defined.

(** ** Readings of the clock *)

Lemma resave_ticks (fuel : nat) (env : Env) :
  ∀ nq ct m w,
    wf_store w → is_new m = false →
    ticks (res_world (save fuel env nq ct m w)) = ticks w.
Proof.
  induction fuel as [|fuel IH]; intros nq ct m w Hwf Hold; [done|].
  rewrite save_S. unfold save_body.
  destruct (cfg_get env "system" "datapath") as [e|dp]; [done|].
  apply is_new_false in Hold as (i & s & Hi & Hs).
  rewrite (persist_old env ct m w i s Hi Hs).
  set (w1 := emit (Release MSGDB) (msg_set i m (emit (Acquire MSGDB) w))).
  destruct (reconcile_frame i m w1) as (Hm2 & _ & Hk2 & _).
  assert (Hwf2 : wf_store (reconcile i m w1)).
  { eapply wf_store_insert; [exact Hwf|exact Hi|by rewrite Hs|by rewrite Hm2]. }
  assert (Ht : ticks (res_world (thread_step (save fuel env) i m
                                   (reconcile i m w1))) = ticks w).
  { unfold thread_step.
    destruct (negb (parent_not_child m));
      [unfold res_world; cbn [fst snd]; by rewrite Hk2|].
    destruct (parent m) as [p|];
      [|unfold res_world; cbn [fst snd]; by rewrite Hk2].
    unfold get_msg.
    destruct (db_msg (reconcile i m w1) !! p) as [pm|] eqn:Hpm;
      [|unfold res_world; cbn [fst snd]; by rewrite Hk2].
    case_bool_decide;
      [|unfold res_world; cbn [fst snd ticks emit msg_set logger];
        by rewrite Hk2].
    destruct (Hwf2 p pm Hpm) as [Hpi [ps Hps]].
    assert (Hpold : is_new (add_child i pm) = false).
    { apply is_new_false. by exists p, ps. }
    pose proof (IH false None (add_child i pm) (reconcile i m w1) Hwf2 Hpold)
      as Hrec.
    destruct (save fuel env false None (add_child i pm) (reconcile i m w1))
      as [[x w'] out].
    unfold res_world in *. cbn [fst snd] in *. by rewrite Hrec, Hk2. }
  destruct (thread_step _ _ _ _) as [[m3 w3] out3].
  unfold res_world in *. cbn [fst snd] in *.
  rewrite andb_false_r. by destruct out3.
Qed.

(** X22. Readings of the clock.  On a well-formed store a save reads the
    clock once when the message is new and no [ctime] is given, and not at
    all otherwise, however many records it saves again on the way and
    however it ends. *)
Theorem save_reads_clock_once (fuel : nat) (env : Env) (nq : bool)
    (ct : option time) (m : Msg) (w : World) (dp : string) :
  wf_store w →
  cfg_get env "system" "datapath" = inr dp →
  ticks (res_world (save (S fuel) env nq ct m w))
  = match ct with
    | None => if is_new m then S (ticks w) else ticks w
    | Some _ => ticks w
    end.
Proof.
  intros Hwf Hdp.
  destruct (is_new m) eqn:Hnew; cycle 1.
  { rewrite (resave_ticks _ _ _ _ _ _ Hwf Hnew). by destruct ct. }
  destruct (persist env ct m w) as [[[new i] m1] w1] eqn:Hper.
  destruct (save_run fuel env nq ct m w dp Hwf Hdp new i m1 w1 Hper)
    as (Hwf2 & Hdb2 & _ & _).
  assert (Hk1 : ticks w1 = match ct with
                           | None => S (ticks w)
                           | Some _ => ticks w
                           end).
  { revert Hper. unfold persist, is_new in *.
    destruct (idx m), (stime m), ct; try done; by intros [= <- <- <- <-]. }
  rewrite save_S. unfold save_body. rewrite Hdp, Hper.
  apply persist_spec in Hper as (_ & Hi & [s Hs] & _).
  destruct (reconcile_frame i m1 w1) as (_ & _ & Hk2 & _).
  set (w2 := reconcile i m1 w1) in *.
  assert (Hx2 : db_msg w2 !! i = Some m1).
  { rewrite Hdb2. apply lookup_insert_eq. }
  assert (Hold1 : is_new m1 = false) by (apply is_new_false; eauto).
  pose proof (thread_step_steps (save fuel env)
                (save_child_steps fuel env false None) i m1 w2 Hwf2 Hx2)
    as Hsteps.
  pose proof (thread_step_msg (save fuel env) i m1 w2) as Hm3.
  assert (Ht : ticks (res_world (thread_step (save fuel env) i m1 w2))
               = ticks w2).
  { unfold thread_step.
    destruct (negb (parent_not_child m1)); [done|].
    destruct (parent m1) as [p|]; [|done].
    unfold get_msg. destruct (db_msg w2 !! p) as [pm|] eqn:Hpm; [|done].
    case_bool_decide; [|done].
    destruct (Hwf2 p pm Hpm) as [Hpi [ps Hps]].
    assert (Hpold : is_new (add_child i pm) = false).
    { apply is_new_false. by exists p, ps. }
    pose proof (resave_ticks fuel env false None (add_child i pm) w2 Hwf2
                  Hpold) as Hrec.
    by destruct (save fuel env false None (add_child i pm) w2)
      as [[x w'] out]. }
  destruct (thread_step _ _ _ _) as [[m3 w3] out3].
  unfold res_world, res_msg in *. cbn [fst snd] in *.
  assert (Hwf3 : wf_store w3) by (by eapply wf_store_steps).
  assert (Hold3 : is_new m3 = false).
  { destruct Hm3 as [-> | ->]; [done|]. apply is_new_false. eauto. }
  assert (Hgoal : ticks w3 = match ct with
                             | None => S (ticks w)
                             | Some _ => ticks w
                             end) by congruence.
  destruct out3; cbn [and_then fst snd]; [|done..].
  destruct (negb nq && new); [|done].
  assert (Hd : ticks (res_world (dispatch (save fuel env) env i m3 w3))
               = ticks w3).
  { unfold dispatch.
    destruct (negb (has_option env "msg" "network_tags")); [done|].
    destruct (cfg_get env "msg" "network_tags") as [e|v]; [done|].
    destruct (length (parse_tag_list v) =? 0)%nat; [done|].
    destruct (format_origin_line env) as [e|origin]; [done|].
    generalize (tags m3). intros ts.
    induction ts as [|t ts IHts]; [done|]. rewrite route_cons.
    case_bool_decide; [|case_bool_decide; [|exact IHts]].
    - destruct (cfg_get env _ "trans_db_name") as [e|name]; [done|].
      assert (Hold : is_new (with_body (body m3 +:+ origin) m3) = false).
      { apply is_new_false in Hold3 as (j & s' & ? & ?).
        apply is_new_false. by exists j, s'. }
      pose proof (resave_ticks fuel env false None
                    (with_body (body m3 +:+ origin) m3)
                    (emit (Acquire name) w3)
                    ltac:(by eapply wf_store_eq) Hold) as Hrec.
      destruct (save fuel env false None _ _) as [[x w'] out].
      unfold res_world in *. cbn [fst snd] in *. by destruct out.
    - by destruct (cfg_get env _ "queue_db_name") as [e|name]. }
  destruct (dispatch _ _ _ _ _) as [[m4 w4] out4].
  unfold res_world in *. cbn [fst snd] in *.
  destruct out4; cbn [and_then fst snd ticks logger]; congruence.
Qed.

Lemma save_reads_clock_once_witness :
  wf_store (res_world saved_hello) ∧
  cfg_get demo_env "system" "datapath" = inr "/var/x84"%string ∧
  ticks (res_world saved_hello) = 1%nat ∧
  ticks (res_world saved_reply) = 2%nat.
Proof.
  assert (Hk : ticks (res_world saved_hello) = 1%nat)
    by (vm_compute; reflexivity).
  split; [apply wf_saved_hello|]. split; [reflexivity|]. split; [exact Hk|].
  pose proof (save_reads_clock_once 2 demo_env false None msg_reply
                (res_world saved_hello) "/var/x84"%string wf_saved_hello
                eq_refl) as Hr.
  change (ticks (res_world saved_reply) = S (ticks (res_world saved_hello)))
    in Hr.
  rewrite Hk in Hr. exact Hr.
Defined.

Lemma fresh_message_first_save_witness :
  cfg_get demo_env "system" "datapath" = inr "/var/x84"%string ∧
  idx (res_msg (save 1 demo_env true None
                  (Msg_init demo_env (Some "alice"%string) None "s" "b"
                            empty_world).1
                  (Msg_init demo_env (Some "alice"%string) None "s" "b"
                            empty_world).2)) = Some 0 ∧
  stime (res_msg (save 1 demo_env true None
                    (Msg_init demo_env (Some "alice"%string) None "s" "b"
                              empty_world).1
                    (Msg_init demo_env (Some "alice"%string) None "s" "b"
                              empty_world).2)) = Some 1001.
Proof.
  destruct (fresh_message_first_save 0 demo_env (Some "alice"%string) None
              "s" "b" empty_world "/var/x84"%string eq_refl)
    as (_ & _ & _ & _ & _ & _ & _ & Hi & _ & Hs & _).
  split; [reflexivity|]. split; [exact Hi|exact Hs].
Defined.

(** ** A network without a table name *)

Lemma dispatch_route (rec : bool → option time → Msg → World → result)
    (env : Env) (i : Z) (m : Msg) (w : World) (v origin : string) :
  cfg env "msg" "network_tags" = Some v →
  format_origin_line env = inr origin →
  dispatch rec env i m w =
  route rec env (parse_tag_list v) (server_tags_of env) origin i (tags m) m w.
Proof.
  intros Hv Ho. unfold dispatch, has_option, cfg_get. rewrite Hv. cbn [negb].
  rewrite parse_tag_list_length, Ho. unfold server_tags_of.
  by destruct (cfg env "msg" "server_tags").
Qed.

(** X24. The first save of a message whose deciding tag names a network
    without a table: when the first tag that is a server tag or a network
    tag is a server tag and [msgnet_<tag>.trans_db_name] is not configured,
    or is a network tag and [msgnet_<tag>.queue_db_name] is not configured,
    the save ends with the error of that lookup.  The record has been
    written by then and stays, with the body as it was, and no network
    table is touched. *)
Theorem save_raises_without_table_name (fuel : nat) (env : Env)
    (ct : option time) (m : Msg) (w : World) (dp v origin : string)
    (pre post : list string) (t : string) :
  cfg_get env "system" "datapath" = inr dp →
  is_new m = true → parent m = None →
  cfg env "msg" "network_tags" = Some v →
  format_origin_line env = inr origin →
  tags m = pre ++ t :: post →
  Forall (unrouted (parse_tag_list v) (server_tags_of env)) pre →
  ∀ new i m1 w1,
    persist env ct m w = (new, i, m1, w1) →
    (t ∈ server_tags_of env →
     cfg env ("msgnet_" +:+ t) "trans_db_name" = None →
     save (S fuel) env false ct m w =
       (m1, reconcile i m1 w1,
        Raised (ConfigError ("msgnet_" +:+ t) "trans_db_name"))) ∧
    (t ∉ server_tags_of env → t ∈ parse_tag_list v →
     cfg env ("msgnet_" +:+ t) "queue_db_name" = None →
     save (S fuel) env false ct m w =
       (m1, reconcile i m1 w1,
        Raised (ConfigError ("msgnet_" +:+ t) "queue_db_name"))) ∧
    get_msg i (reconcile i m1 w1) = inr m1 ∧
    body m1 = body m ∧
    db_net (reconcile i m1 w1) = db_net w.
Proof.
  intros Hdp Hnew Hp Hv Ho Htags Hpre new i m1 w1 Hper.
  pose proof Hper as Hspec. apply persist_spec in Hspec
    as (Hn & _ & _ & Htg & _ & Hpar & Hbody & _ & Hdb & _ & Hnt & _).
  destruct (reconcile_frame i m1 w1) as (Hm2 & Hn2 & _).
  assert (Hsave : save (S fuel) env false ct m w =
    route (save fuel env) env (parse_tag_list v) (server_tags_of env) origin
          i (t :: post) m1 (reconcile i m1 w1) >>> λ m w,
    (m, logger (LogSaved new (bool_decide ("public"%string ∈ tags m))
                         (bool_decide (parent m ≠ None)) (recipient m)) w,
     Returned)).
  { rewrite save_S. unfold save_body. rewrite Hdp, Hper.
    assert (Hp1 : parent m1 = None) by congruence.
    unfold thread_step, parent_not_child. rewrite Hp1. cbn [negb and_then].
    rewrite Hn, Hnew. cbn [negb andb].
    rewrite (dispatch_route _ _ _ _ _ v origin Hv Ho).
    by rewrite Htg, Htags, route_skip. }
  split_and!.
  - intros Hsrv Hnone. rewrite Hsave, route_cons.
    rewrite (bool_decide_eq_true_2 _ Hsrv). unfold cfg_get. by rewrite Hnone.
  - intros Hsrv Hnet Hnone. rewrite Hsave, route_cons.
    rewrite (bool_decide_eq_false_2 _ Hsrv), (bool_decide_eq_true_2 _ Hnet).
    unfold cfg_get. by rewrite Hnone.
  - unfold get_msg. by rewrite Hm2, Hdb, lookup_insert_eq.
  - done.
  - congruence.
Qed.

Lemma save_raises_without_table_name_witness :
  cfg_get bare_env "system" "datapath" = inr "/var/x84"%string ∧
  is_new msg_fido = true ∧ parent msg_fido = None ∧
  res_out (save 3 bare_env false None msg_fido empty_world)
    = Raised (ConfigError "msgnet_fidonet" "queue_db_name") ∧
  is_Some (db_msg (res_world (save 3 bare_env false None msg_fido
                                   empty_world)) !! 0).
Proof.
  pose (p := persist bare_env None msg_fido empty_world).
  assert (Hp : persist bare_env None msg_fido empty_world =
               (true, 0, p.1.2, p.2)) by (vm_compute; reflexivity).
  assert (Hfo : format_origin_line bare_env
                = inr (origin_rule +:+ "Sent from x84"))
    by (vm_compute; reflexivity).
  assert (Hns : "fidonet"%string ∉ server_tags_of bare_env).
  { vm_compute. intros Hin. by apply elem_of_nil in Hin. }
  assert (Hnet : "fidonet"%string ∈ parse_tag_list "fidonet").
  { vm_compute. by left. }
  destruct (save_raises_without_table_name 2 bare_env None msg_fido
              empty_world "/var/x84"%string "fidonet"%string
              (origin_rule +:+ "Sent from x84") [] [] "fidonet"%string
              eq_refl eq_refl eq_refl eq_refl Hfo eq_refl
              (Forall_nil_2 _) true 0 p.1.2 p.2 Hp)
    as (_ & Hq & Hget & _).
  split; [reflexivity|]. split; [reflexivity|]. split; [reflexivity|].
  change (save 3 bare_env false None msg_fido empty_world)
    with (save (S 2) bare_env false None msg_fido empty_world).
  rewrite (Hq Hns Hnet eq_refl). unfold res_out, res_world. cbn [fst snd].
  split; [reflexivity|]. apply get_msg_inr in Hget. by rewrite Hget.
Defined.

(** ** The closing log record *)

(** X25. A save that returns logs its closing record last (lines 233-237):
    it says whether the message was new when the call began, whether it is
    tagged [public], whether the object that comes back still has a parent,
    and to whom it is addressed. *)
Theorem save_logs_saved_last (fuel : nat) (env : Env) (nq : bool)
    (ct : option time) (m : Msg) (w : World) :
  let r := save fuel env nq ct m w in
  res_out r = Returned →
  ∃ rest,
    log (res_world r) =
      LogSaved (is_new m) (bool_decide ("public"%string ∈ tags m))
               (bool_decide (parent (res_msg r) ≠ None)) (recipient m)
      :: rest ∧
    log w `suffix_of` rest.
Proof.
  intros r Hout. subst r. destruct fuel as [|fuel]; [done|].
  destruct (cfg_get env "system" "datapath") as [e|dp] eqn:Hdp.
  { revert Hout. rewrite save_S. unfold save_body. by rewrite Hdp. }
  pose proof (save_identity fuel env nq ct m w dp Hdp) as Hid.
  revert Hout Hid. rewrite save_S. unfold save_body. rewrite Hdp.
  pose proof (persist_spec env ct m w) as Hspec.
  pose proof (extends_persist env ct m w) as Hext1.
  destruct (persist env ct m w) as [[[new i] m1] w1].
  destruct (Hspec new i m1 w1 eq_refl)
    as (Hn & _ & _ & Htg & _ & _ & _ & Hre & _).
  specialize (Hext1 new i m1 w1 eq_refl).
  pose proof (extends_reconcile i m1 w1) as Hext2.
  pose proof (thread_step_extends (save fuel env) (save_extends fuel env)
                i m1 (reconcile i m1 w1)) as Hext3.
  destruct (thread_step _ _ _ _) as [[m2 w2] out2].
  destruct out2; cbn [and_then fst snd]; [|done..].
  assert (Hext4 : extends w2
    (res_world (if negb nq && new
                then dispatch (save fuel env) env i m2 w2
                else (m2, w2, Returned)))).
  { destruct (negb nq && new); [|done].
    apply dispatch_extends. apply save_extends. }
  destruct (if negb nq && new then _ else _) as [[m3 w3] out3].
  destruct out3; cbn [and_then fst snd]; [|done..].
  unfold res_out, res_msg, res_world in *. cbn [fst snd] in *.
  intros _ (_ & _ & _ & _ & Hre3 & _ & Htg3 & _).
  eexists. cbn [log logger]. split.
  - rewrite Htg3, Htg, Hre3, Hre, Hn. reflexivity.
  - destruct Hext1 as (_ & _ & _ & H1 & _).
    destruct Hext2 as (_ & _ & _ & H2 & _).
    destruct Hext3 as (_ & _ & _ & H3 & _).
    destruct Hext4 as (_ & _ & _ & H4 & _).
    by repeat (etrans; [eassumption|]).
Qed.

Lemma save_logs_saved_last_witness :
  res_out saved_reply = Returned ∧
  ∃ rest,
    log (res_world saved_reply) =
      LogSaved true true true (Some "alice"%string) :: rest ∧
    log (res_world saved_hello) `suffix_of` rest.
Proof.
  assert (Hout : res_out saved_reply = Returned) by (vm_compute; reflexivity).
  split; [exact Hout|].
  destruct (save_logs_saved_last 3 demo_env false None msg_reply
              (res_world saved_hello) Hout) as (rest & Hlog & Hsuf).
  exists rest. split; [|exact Hsuf].
  assert (Hpub : bool_decide ("public"%string ∈ tags msg_reply) = true).
  { apply bool_decide_eq_true_2. right. left. }
  assert (Hrep : bool_decide (parent (res_msg saved_reply) ≠ None) = true).
  { apply bool_decide_eq_true_2. vm_compute. discriminate. }
  change (save 3 demo_env false None msg_reply (res_world saved_hello))
    with saved_reply in Hlog.
  by rewrite Hpub, Hrep in Hlog.
Defined.

(** ** Child links and parent links *)

Lemma links_ok_update (d : gmap Z Msg) (k : Z) (r r' : Msg) :
  d !! k = Some r → parent r' = parent r →
  (∀ c, c ∈ children r' →
        c ∈ children r ∨
        ∃ rc, <[k := r']> d !! c = Some rc ∧ parent rc = Some k) →
  links_ok d → links_ok (<[k := r']> d).
Proof.
  intros Hk Hpar Hnew Hl.
  assert (Hkeep : ∀ c q, (∃ rc, d !! c = Some rc ∧ parent rc = Some q) →
                         ∃ rc, <[k := r']> d !! c = Some rc ∧
                               parent rc = Some q).
  { intros c q (rc & Hrc & Hp). destruct (decide (c = k)) as [->|Hne].
    - exists r'. rewrite lookup_insert_eq. split; [done|]. congruence.
    - exists rc. by rewrite lookup_insert_ne. }
  intros q rq c Hq Hc. destruct (decide (q = k)) as [->|Hne].
  - rewrite lookup_insert_eq in Hq. injection Hq as <-.
    destruct (Hnew c Hc) as [Hin|Hin]; [|done].
    apply Hkeep. by apply (Hl k r c).
  - rewrite lookup_insert_ne in Hq by done. apply Hkeep. by apply (Hl q rq c).
Qed.

Lemma links_ok_strip (d : gmap Z Msg) (i : Z) (x : Msg) :
  d !! i = Some x → parent x = Some i → i ∉ children x →
  links_ok d → links_ok (<[i := with_parent None x]> d).
Proof.
  intros Hi Hpar Hnc Hl q rq c Hq Hc. destruct (decide (q = i)) as [->|Hne].
  - rewrite lookup_insert_eq in Hq. injection Hq as <-. simpl in Hc.
    destruct (Hl i x c Hi Hc) as (rc & Hrc & Hp).
    exists rc. rewrite lookup_insert_ne; [done|]. by intros <-.
  - rewrite lookup_insert_ne in Hq by done.
    destruct (Hl q rq c Hq Hc) as (rc & Hrc & Hp).
    exists rc. rewrite lookup_insert_ne; [done|].
    intros ->. rewrite Hi in Hrc. injection Hrc as <-. congruence.
Qed.

Lemma links_ok_childless (d : gmap Z Msg) (i : Z) (x : Msg) :
  children x = ∅ →
  (∀ r, d !! i = Some r → parent r = parent x ∨ parent r = None) →
  links_ok d → links_ok (<[i := x]> d).
Proof.
  intros Hch Hold Hl q rq c Hq Hc. destruct (decide (q = i)) as [->|Hne].
  - rewrite lookup_insert_eq in Hq. injection Hq as <-.
    rewrite Hch in Hc. set_solver.
  - rewrite lookup_insert_ne in Hq by done.
    destruct (Hl q rq c Hq Hc) as (rc & Hrc & Hp).
    destruct (decide (c = i)) as [->|Hci].
    + exists x. rewrite lookup_insert_eq. split; [done|].
      destruct (Hold rc Hrc); congruence.
    + exists rc. by rewrite lookup_insert_ne.
Qed.

Lemma links_ok_empty : links_ok (db_msg empty_world).
Proof. intros p r c Hp. simpl in Hp. by rewrite lookup_empty in Hp. Qed.

Section Links.

Variable fuel : nat.
Variable env : Env.
Hypothesis rec_links :
  ∀ nq ct x w i s,
    wf_store w → idx x = Some i → stime x = Some s →
    links_ok (db_msg w) → links_ok (<[i := x]> (db_msg w)) →
    links_ok (db_msg (res_world (save fuel env nq ct x w))).

(** The thread step keeps the links, and leaves under the id of the message
    a record with the parent of the object that comes back, or none. *)
Lemma thread_step_links (i : Z) (x : Msg) (w : World) :
  wf_store w → db_msg w !! i = Some x → links_ok (db_msg w) →
  let r := thread_step (save fuel env) i x w in
  links_ok (db_msg (res_world r)) ∧
  children (res_msg r) = children x ∧
  holds_at i (λ rec, parent rec = parent (res_msg r) ∨ parent rec = None)
           (res_world r).
Proof.
  intros Hwf Hx Hl r. subst r.
  assert (Hsame : holds_at i (λ rec, parent rec = parent x ∨ parent rec = None)
                           w).
  { exists x. split; [done|by left]. }
  assert (Hstay : ∀ out : outcome,
    links_ok (db_msg (res_world (x, w, out))) ∧
    children (res_msg (x, w, out)) = children x ∧
    holds_at i (λ rec, parent rec = parent (res_msg (x, w, out)) ∨
                       parent rec = None) (res_world (x, w, out))).
  { intros out. split_and!; [done|done|exact Hsame]. }
  unfold thread_step.
  destruct (parent_not_child x) eqn:Hpc; cbn [negb]; [|apply Hstay].
  destruct (parent x) as [p|] eqn:Hpar; [|apply Hstay].
  unfold get_msg. destruct (db_msg w !! p) as [pm|] eqn:Hpm; [|apply Hstay].
  destruct (Hwf p pm Hpm) as [Hpi [ps Hps]].
  case_bool_decide as Hne.
  - assert (Hpi' : p ≠ i) by congruence.
    pose proof (rec_links false None (add_child i pm) w p ps Hwf Hpi Hps Hl)
      as Hrec.
    pose proof (save_child_steps fuel env false None p pm i w Hwf Hpm)
      as Hsteps.
    destruct (save fuel env false None (add_child i pm) w) as [[y w'] out].
    unfold res_world, res_msg in *. cbn [fst snd] in *.
    split_and!; [|done|].
    + apply Hrec. apply (links_ok_update _ p pm); [done..| |done].
      intros c Hc. simpl in Hc. apply elem_of_union in Hc as [Hc|Hc];
        [by left|]. apply elem_of_singleton in Hc as ->. right.
      exists x. rewrite lookup_insert_ne by done. split; [done|congruence].
    + eapply holds_at_steps; [|exact Hsteps|].
      * split; [by intros ? ? [?|?]; [left|right]|by right].
      * rewrite Hpar. exists x. split; [done|by left].
  - assert (p = i) as -> by (destruct (decide (Some i = idx pm)); congruence).
    assert (pm = x) as -> by congruence.
    assert (Hnc : i ∉ children x).
    { unfold parent_not_child in Hpc. rewrite Hpar in Hpc.
      by apply negb_true_iff, bool_decide_eq_false in Hpc. }
    unfold res_world, res_msg. cbn [fst snd db_msg emit msg_set logger].
    split_and!; [|done|].
    + by apply links_ok_strip.
    + exists (with_parent None x). cbn [db_msg emit msg_set logger].
      rewrite lookup_insert_eq. split; [done|by left].
Qed.

Lemma save_body_old_links (nq : bool) (ct : option time) (x : Msg)
    (w : World) (i : Z) (s : time) :
  wf_store w → idx x = Some i → stime x = Some s →
  links_ok (db_msg w) → links_ok (<[i := x]> (db_msg w)) →
  links_ok (db_msg (res_world (save_body (save fuel env) env nq ct x w))).
Proof.
  intros Hwf Hi Hs Hl Hl'. unfold save_body.
  destruct (cfg_get env "system" "datapath") as [e|dp]; [done|].
  rewrite (persist_old env ct x w i s Hi Hs).
  set (w1 := emit (Release MSGDB) (msg_set i x (emit (Acquire MSGDB) w))).
  destruct (reconcile_frame i x w1) as (Hm2 & _).
  assert (Hdb2 : db_msg (reconcile i x w1) = <[i := x]> (db_msg w))
    by (by rewrite Hm2).
  assert (Hwf2 : wf_store (reconcile i x w1)).
  { eapply wf_store_insert; [exact Hwf|exact Hi|by rewrite Hs|done]. }
  destruct (thread_step_links i x (reconcile i x w1) Hwf2) as (Hl3 & _).
  { rewrite Hdb2. apply lookup_insert_eq. }
  { by rewrite Hdb2. }
  destruct (thread_step _ _ _ _) as [[m3 w3] out3].
  unfold res_world in *. cbn [fst snd] in *.
  rewrite andb_false_r. by destruct out3.
Qed.

End Links.

Lemma resave_links (fuel : nat) (env : Env) :
  ∀ nq ct x w i s,
    wf_store w → idx x = Some i → stime x = Some s →
    links_ok (db_msg w) → links_ok (<[i := x]> (db_msg w)) →
    links_ok (db_msg (res_world (save fuel env nq ct x w))).
Proof.
  induction fuel as [|fuel IH]; intros nq ct x w i s Hwf Hi Hs Hl Hl';
    [done|].
  rewrite save_S. by eapply save_body_old_links.
Qed.

Lemma route_links (fuel : nat) (env : Env) (networks servers : list string)
    (origin : string) (i : Z) (ts : list string) (m : Msg) (w : World)
    (s : time) :
  wf_store w → idx m = Some i → stime m = Some s → children m = ∅ →
  links_ok (db_msg w) →
  holds_at i (λ rec, parent rec = parent m ∨ parent rec = None) w →
  links_ok (db_msg (res_world (route (save fuel env) env networks servers
                                     origin i ts m w))).
Proof.
  intros Hwf Hi Hs Hch Hl (r0 & Hr0 & Hp0).
  induction ts as [|t ts IH]; [done|]. rewrite route_cons.
  case_bool_decide; [|case_bool_decide; [|exact IH]].
  - destruct (cfg_get env _ "trans_db_name") as [e|name]; [done|].
    set (x := with_body (body m +:+ origin) m).
    pose proof (resave_links fuel env false None x (emit (Acquire name) w)
                  i s ltac:(by eapply wf_store_eq) Hi Hs Hl) as Hrec.
    destruct (save fuel env false None x (emit (Acquire name) w))
      as [[y w'] out].
    unfold res_world in *. cbn [fst snd] in *.
    assert (Hok : links_ok (db_msg w')).
    { apply Hrec. apply links_ok_childless; [done| |done].
      intros r Hr. cbn [db_msg emit] in Hr. by assert (r = r0) as -> by congruence. }
    by destruct out.
  - by destruct (cfg_get env _ "queue_db_name") as [e|name].
Qed.

Lemma save_new_links (fuel : nat) (env : Env) (nq : bool) (ct : option time)
    (m : Msg) (w : World) :
  wf_store w → links_ok (db_msg w) →
  is_new m = true → children m = ∅ →
  links_ok (db_msg (res_world (save fuel env nq ct m w))).
Proof.
  intros Hwf Hl Hnew Hch. destruct fuel as [|fuel]; [done|].
  destruct (cfg_get env "system" "datapath") as [e|dp] eqn:Hdp.
  { rewrite save_S. unfold save_body. by rewrite Hdp. }
  destruct (persist env ct m w) as [[[new i] m1] w1] eqn:Hper.
  destruct (save_run fuel env nq ct m w dp Hwf Hdp new i m1 w1 Hper)
    as (Hwf2 & Hdb2 & _ & _).
  rewrite save_S. unfold save_body. rewrite Hdp, Hper.
  apply persist_spec in Hper
    as (Hn & Hi & [s Hs] & _ & Hch1 & _ & _ & _ & _ & _ & _ & _ & _ & _ & Hst).
  rewrite Hn, Hnew in Hst. destruct Hst as [Hfresh _].
  set (w2 := reconcile i m1 w1) in *.
  assert (Hnone : db_msg w !! i = None).
  { apply not_elem_of_dom. intros Hin. apply next_id_fresh in Hin. lia. }
  assert (Hl2 : links_ok (db_msg w2)).
  { rewrite Hdb2. apply links_ok_childless; [congruence| |done].
    intros r Hr. congruence. }
  assert (Hx2 : db_msg w2 !! i = Some m1).
  { rewrite Hdb2. apply lookup_insert_eq. }
  destruct (thread_step_links fuel env (resave_links fuel env) i m1 w2
              Hwf2 Hx2 Hl2) as (Hl3 & Hch3 & Hh3).
  pose proof (thread_step_steps (save fuel env)
                (save_child_steps fuel env false None) i m1 w2 Hwf2 Hx2)
    as Hsteps.
  pose proof (thread_step_msg (save fuel env) i m1 w2) as Hm3.
  destruct (thread_step _ _ _ _) as [[m3 w3] out3].
  unfold res_world, res_msg in *. cbn [fst snd] in *.
  destruct out3; cbn [and_then fst snd]; [|done..].
  destruct (negb nq && new); [|done].
  assert (Hd : links_ok (db_msg (res_world (dispatch (save fuel env) env i
                                              m3 w3)))).
  { unfold dispatch.
    destruct (negb (has_option env "msg" "network_tags")); [done|].
    destruct (cfg_get env "msg" "network_tags") as [e|v]; [done|].
    destruct (length (parse_tag_list v) =? 0)%nat; [done|].
    destruct (format_origin_line env) as [e|origin]; [done|].
    apply (route_links fuel env _ _ _ i _ m3 w3 s); try done.
    - by eapply wf_store_steps.
    - destruct Hm3 as [-> | ->]; done.
    - destruct Hm3 as [-> | ->]; done.
    - congruence. }
  destruct (dispatch _ _ _ _ _) as [[m4 w4] out4].
  unfold res_world in *. cbn [fst snd] in *. by destruct out4.
Qed.

(** X26. Child links are answered by parent links.  In a store built from
    the empty one by saving new messages that list no children, as
    [Msg(...)] makes them, whenever a record lists [c] among its children,
    [c] has a record and that record names the first as its parent.  Every
    such save keeps this, on a well-formed store, however it ends. *)
Theorem child_links_stay_answered :
  links_ok (db_msg empty_world) ∧
  (∀ fuel env nq ct m w,
     wf_store w → links_ok (db_msg w) →
     is_new m = true → children m = ∅ →
     links_ok (db_msg (res_world (save fuel env nq ct m w)))) ∧
  (∀ fuel env reqs,
     Forall (λ q, is_new (req_msg q) = true ∧ children (req_msg q) = ∅) reqs →
     links_ok (db_msg (run_saves fuel env reqs empty_world).2)).
Proof.
  split; [apply links_ok_empty|]. split.
  - intros. by apply save_new_links.
  - intros fuel env reqs Hreqs.
    generalize wf_store_empty links_ok_empty. generalize empty_world.
    induction Hreqs as [|q reqs [Hnew Hch] _ IH]; intros w Hwf Hl; [done|].
    simpl.
    pose proof (IH _ (save_wf fuel env (req_noqueue q) (req_ctime q)
                        (req_msg q) w Hwf)
                  (save_new_links fuel env (req_noqueue q) (req_ctime q)
                     (req_msg q) w Hwf Hl Hnew Hch)) as H.
    by destruct (run_saves fuel env reqs _) as [ids w'].
Qed.

(** ** Parent links and child links *)

Lemma parents_ok_step (w w' : World) :
  step w w' → parents_ok (db_msg w) → parents_ok (db_msg w').
Proof.
  intros [p r c0 Hr Hdb _ _|j r Hr Hdb _ _|j r _ Hdb _ _|Hdb _ _] Hok;
    rewrite Hdb; [| |done..].
  - intros c rc p0 Hc Hp. destruct (decide (c = p)) as [->|Hcp].
    + rewrite lookup_insert_eq in Hc. injection Hc as <-.
      destruct (Hok p r p0 Hr Hp) as (Hlt & rp & Hrp & Hin).
      split; [done|]. exists rp. rewrite lookup_insert_ne by lia. done.
    + rewrite lookup_insert_ne in Hc by done.
      destruct (Hok c rc p0 Hc Hp) as (Hlt & rp & Hrp & Hin).
      split; [done|]. destruct (decide (p0 = p)) as [->|Hpp].
      * exists (add_child c0 r). rewrite lookup_insert_eq. split; [done|].
        assert (rp = r) as -> by congruence. simpl. set_solver.
      * exists rp. by rewrite lookup_insert_ne.
  - intros c rc p0 Hc Hp. destruct (decide (c = j)) as [->|Hcj].
    + rewrite lookup_insert_eq in Hc. by injection Hc as <-.
    + rewrite lookup_insert_ne in Hc by done.
      destruct (Hok c rc p0 Hc Hp) as (Hlt & rp & Hrp & Hin).
      split; [done|]. destruct (decide (p0 = j)) as [->|Hpj].
      * exists (with_parent None r). rewrite lookup_insert_eq.
        split; [done|]. by assert (rp = r) as -> by congruence.
      * exists rp. by rewrite lookup_insert_ne.
Qed.

Lemma parents_ok_steps (w w' : World) :
  rtc step w w' → parents_ok (db_msg w) → parents_ok (db_msg w').
Proof. induction 1; eauto using parents_ok_step. Qed.

Lemma unnamed_step (i : Z) (w w' : World) :
  step w w' → unnamed i (db_msg w) → unnamed i (db_msg w').
Proof.
  intros [p r c0 Hr Hdb _ _|j r Hr Hdb _ _|j r _ Hdb _ _|Hdb _ _] Hun;
    rewrite Hdb; [| |done..].
  - intros c rc Hc. destruct (decide (c = p)) as [->|Hcp].
    + rewrite lookup_insert_eq in Hc. injection Hc as <-.
      exact (Hun p r Hr).
    + rewrite lookup_insert_ne in Hc by done. by apply (Hun c).
  - intros c rc Hc. destruct (decide (c = j)) as [->|Hcj].
    + rewrite lookup_insert_eq in Hc. by injection Hc as <-.
    + rewrite lookup_insert_ne in Hc by done. by apply (Hun c).
Qed.

Lemma unnamed_steps (i : Z) (w w' : World) :
  rtc step w w' → unnamed i (db_msg w) → unnamed i (db_msg w').
Proof. induction 1; eauto using unnamed_step. Qed.

(** Writing, under an id that no record names as parent, a record without
    children whose parent link is answered. *)
Lemma parents_ok_insert (d : gmap Z Msg) (i : Z) (x : Msg) :
  parents_ok d → unnamed i d →
  (∀ p, parent x = Some p →
        p < i ∧ ∃ rp, d !! p = Some rp ∧ i ∈ children rp) →
  parents_ok (<[i := x]> d).
Proof.
  intros Hok Hun Hx c rc p Hc Hp. destruct (decide (c = i)) as [->|Hci].
  - rewrite lookup_insert_eq in Hc. injection Hc as <-.
    destruct (Hx p Hp) as (Hlt & rp & Hrp & Hin). split; [done|].
    exists rp. by rewrite lookup_insert_ne by lia.
  - rewrite lookup_insert_ne in Hc by done.
    destruct (Hok c rc p Hc Hp) as (Hlt & rp & Hrp & Hin). split; [done|].
    exists rp. rewrite lookup_insert_ne; [done|].
    intros ->. by apply (Hun c rc).
Qed.

(** The save of a stored record with a child more writes the record and
    then only takes steps, when it gets as far as the persist step. *)
Lemma save_stored_shape (fuel : nat) (env : Env) (nq : bool)
    (ct : option time) (x : Msg) (w : World) (i : Z) (s : time) (dp : string) :
  cfg_get env "system" "datapath" = inr dp →
  wf_store w → idx x = Some i → stime x = Some s →
  ∃ w2, db_msg w2 = <[i := x]> (db_msg w) ∧
        rtc step w2 (res_world (save (S fuel) env nq ct x w)).
Proof.
  intros Hdp Hwf Hi Hs. rewrite save_S. unfold save_body. rewrite Hdp.
  rewrite (persist_old env ct x w i s Hi Hs).
  set (w1 := emit (Release MSGDB) (msg_set i x (emit (Acquire MSGDB) w))).
  destruct (reconcile_frame i x w1) as (Hm2 & _).
  exists (reconcile i x w1). split; [by rewrite Hm2|].
  assert (Hwf2 : wf_store (reconcile i x w1)).
  { eapply wf_store_insert; [exact Hwf|exact Hi|by rewrite Hs|by rewrite Hm2]. }
  assert (Hx2 : db_msg (reconcile i x w1) !! i = Some x).
  { rewrite Hm2. apply lookup_insert_eq. }
  pose proof (thread_step_steps (save fuel env)
                (save_child_steps fuel env false None) i x
                (reconcile i x w1) Hwf2 Hx2) as Hs3.
  destruct (thread_step _ _ _ _) as [[m3 w3] out3].
  unfold res_world in *. simpl in Hs3.
  rewrite andb_false_r.
  destruct out3; simpl; [|done..].
  eapply rtc_r; [done|]. by apply step_quiet.
Qed.

(** The thread step of a new message without children whose parent, if it
    names one, is stored or is the message itself. *)
Lemma thread_new_parents (fuel : nat) (env : Env) (dp : string) (i : Z)
    (m1 : Msg) (w w2 : World) :
  cfg_get env "system" "datapath" = inr dp →
  wf_store w → wf_store w2 → parents_ok (db_msg w) →
  i = next_id w → idx m1 = Some i → children m1 = ∅ →
  db_msg w2 = <[i := m1]> (db_msg w) →
  (∀ p, parent m1 = Some p → p = i ∨ p ∈ dom (db_msg w)) →
  let r := thread_step (save (S fuel) env) i m1 w2 in
  parents_ok (db_msg (res_world r)) ∧
  unnamed i (db_msg (res_world r)) ∧
  (∀ p, parent (res_msg r) = Some p →
        p < i ∧ holds_at p (λ rec, i ∈ children rec) (res_world r)).
Proof.
  intros Hdp Hwf Hwf2 Hok Hfresh Hidx Hch Hdb2 Hpar r. subst r.
  assert (Hnone : db_msg w !! i = None).
  { apply not_elem_of_dom. intros Hin. apply next_id_fresh in Hin. lia. }
  assert (Hun : unnamed i (db_msg w)).
  { intros c rc Hc Hp. destruct (Hok c rc i Hc Hp) as (_ & rp & Hrp & _).
    congruence. }
  assert (Hquiet : ∀ x, parent x = None →
            parents_ok (<[i := x]> (db_msg w)) ∧
            unnamed i (<[i := x]> (db_msg w))).
  { intros x Hx. split.
    - apply parents_ok_insert; [done..|]. intros p Hp. congruence.
    - intros c rc Hc. destruct (decide (c = i)) as [->|Hci].
      + rewrite lookup_insert_eq in Hc. injection Hc as <-. congruence.
      + rewrite lookup_insert_ne in Hc by done. by apply (Hun c). }
  assert (Hx2 : db_msg w2 !! i = Some m1).
  { rewrite Hdb2. apply lookup_insert_eq. }
  assert (Hpc : parent_not_child m1 = true).
  { unfold parent_not_child. destruct (parent m1); [|done].
    rewrite Hch. apply negb_true_iff, bool_decide_eq_false. set_solver. }
  destruct (parent m1) as [p|] eqn:Hp; cycle 1.
  { unfold thread_step. rewrite Hpc, Hp. cbn [negb].
    unfold res_world, res_msg. cbn [fst snd]. rewrite Hdb2, Hp.
    destruct (Hquiet m1 Hp). split_and!; done. }
  destruct (Hpar p eq_refl) as [-> | Hin].
  - rewrite (thread_step_self _ i m1 m1 w2 Hp); [|rewrite Hch; set_solver|
                                                  done|done].
    unfold res_world, res_msg. cbn [fst snd db_msg emit msg_set logger].
    rewrite Hdb2, insert_insert_eq.
    destruct (Hquiet (with_parent None m1) eq_refl). split_and!; done.
  - assert (Hlt : p < i) by (apply next_id_fresh in Hin; lia).
    apply elem_of_dom in Hin as [pm Hpm].
    assert (Hpm2 : db_msg w2 !! p = Some pm).
    { rewrite Hdb2, lookup_insert_ne by lia. done. }
    destruct (Hwf p pm Hpm) as [Hpi [ps Hps]].
    unfold thread_step. rewrite Hpc, Hp. cbn [negb].
    unfold get_msg. rewrite Hpm2.
    rewrite bool_decide_eq_true_2 by (rewrite Hpi; intros [= ?]; lia).
    destruct (save_stored_shape fuel env false None (add_child i pm) w2 p ps
                dp Hdp Hwf2 Hpi Hps) as (w2' & Hdb2' & Hsteps).
    destruct (save (S fuel) env false None (add_child i pm) w2)
      as [[y w3] out].
    unfold res_world, res_msg in *. cbn [fst snd] in *.
    assert (Hok2' : parents_ok (db_msg w2')).
    { rewrite Hdb2', Hdb2. intros c rc p0 Hc Hp0.
      destruct (decide (c = p)) as [->|Hcp].
      - rewrite lookup_insert_eq in Hc. injection Hc as <-.
        destruct (Hok p pm p0 Hpm Hp0) as (Hlt0 & rp & Hrp & Hin0).
        split; [done|]. exists rp.
        by rewrite !lookup_insert_ne by lia.
      - rewrite lookup_insert_ne in Hc by done.
        destruct (decide (c = i)) as [->|Hci].
        + rewrite lookup_insert_eq in Hc. injection Hc as <-.
          assert (p0 = p) as -> by congruence. split; [done|].
          exists (add_child i pm). rewrite lookup_insert_eq.
          split; [done|]. simpl. set_solver.
        + rewrite lookup_insert_ne in Hc by done.
          destruct (Hok c rc p0 Hc Hp0) as (Hlt0 & rp & Hrp & Hin0).
          split; [done|]. destruct (decide (p0 = p)) as [->|Hpp].
          * exists (add_child i pm). rewrite lookup_insert_eq.
            split; [done|]. assert (rp = pm) as -> by congruence.
            simpl. set_solver.
          * exists rp. rewrite lookup_insert_ne by done.
            rewrite lookup_insert_ne; [done|]. intros ->. congruence. }
    assert (Hun2' : unnamed i (db_msg w2')).
    { rewrite Hdb2', Hdb2. intros c rc Hc.
      destruct (decide (c = p)) as [->|Hcp].
      - rewrite lookup_insert_eq in Hc. injection Hc as <-.
        exact (Hun p pm Hpm).
      - rewrite lookup_insert_ne in Hc by done.
        destruct (decide (c = i)) as [->|Hci].
        + rewrite lookup_insert_eq in Hc. injection Hc as <-.
          rewrite Hp. intros [= ?]. lia.
        + rewrite lookup_insert_ne in Hc by done. by apply (Hun c). }
    split_and!.
    + by eapply parents_ok_steps.
    + by eapply unnamed_steps.
    + intros p0 Hp0. assert (p0 = p) as -> by congruence. split; [done|].
      eapply holds_at_steps; [|exact Hsteps|].
      * split; [|done]. intros r c Hr. simpl. set_solver.
      * exists (add_child i pm). rewrite Hdb2', lookup_insert_eq.
        split; [done|]. simpl. set_solver.
Qed.

Lemma route_new_parents (fuel : nat) (env : Env) (dp : string)
    (networks servers : list string) (origin : string) (i : Z)
    (ts : list string) (m : Msg) (w : World) (s : time) :
  cfg_get env "system" "datapath" = inr dp →
  wf_store w → idx m = Some i → stime m = Some s →
  parents_ok (db_msg w) → unnamed i (db_msg w) →
  (∀ p, parent m = Some p →
        p < i ∧ holds_at p (λ rec, i ∈ children rec) w) →
  parents_ok (db_msg (res_world (route (save (S fuel) env) env networks
                                        servers origin i ts m w))).
Proof.
  intros Hdp Hwf Hi Hs Hok Hun Hp.
  induction ts as [|t ts IH]; [done|]. rewrite route_cons.
  case_bool_decide; [|case_bool_decide; [|exact IH]].
  - destruct (cfg_get env _ "trans_db_name") as [e|name]; [done|].
    set (x := with_body (body m +:+ origin) m).
    destruct (save_stored_shape fuel env false None x (emit (Acquire name) w)
                i s dp Hdp ltac:(by eapply wf_store_eq) Hi Hs)
      as (w2 & Hdb2 & Hsteps).
    destruct (save (S fuel) env false None x (emit (Acquire name) w))
      as [[y w'] out].
    unfold res_world in *. cbn [fst snd] in *.
    assert (Hok' : parents_ok (db_msg w')).
    { eapply parents_ok_steps; [exact Hsteps|]. rewrite Hdb2.
      cbn [db_msg emit]. apply parents_ok_insert; [done..|].
      intros p Hpx. destruct (Hp p Hpx) as (Hlt & rp & Hrp & Hin).
      split; [done|]. by exists rp. }
    by destruct out.
  - by destruct (cfg_get env _ "queue_db_name") as [e|name].
Qed.

Lemma save_new_parents (fuel : nat) (env : Env) (nq : bool)
    (ct : option time) (m : Msg) (w : World) (dp : string) :
  cfg_get env "system" "datapath" = inr dp →
  wf_store w → parents_ok (db_msg w) →
  is_new m = true → children m = ∅ →
  (∀ p, parent m = Some p → p = next_id w ∨ p ∈ dom (db_msg w)) →
  parents_ok (db_msg (res_world (save (S (S fuel)) env nq ct m w))).
Proof.
  intros Hdp Hwf Hok Hnew Hch Hpar.
  destruct (persist env ct m w) as [[[new i] m1] w1] eqn:Hper.
  destruct (save_run (S fuel) env nq ct m w dp Hwf Hdp new i m1 w1 Hper)
    as (Hwf2 & Hdb2 & _ & _).
  rewrite save_S. unfold save_body. rewrite Hdp, Hper.
  apply persist_spec in Hper
    as (Hn & Hi & [s Hs] & _ & Hch1 & Hpar1 & _ & _ & _ & _ & _ & _ & _ & _
        & Hst).
  rewrite Hn, Hnew in Hst. destruct Hst as [Hfresh _].
  set (w2 := reconcile i m1 w1) in *.
  assert (Hx2 : db_msg w2 !! i = Some m1).
  { rewrite Hdb2. apply lookup_insert_eq. }
  destruct (thread_new_parents fuel env dp i m1 w w2 Hdp Hwf Hwf2 Hok Hfresh
              Hi ltac:(congruence) Hdb2)
    as (Hok3 & Hun3 & Hp3).
  { intros p Hp. rewrite Hfresh. apply Hpar. congruence. }
  pose proof (thread_step_steps (save (S fuel) env)
                (save_child_steps (S fuel) env false None) i m1 w2 Hwf2 Hx2)
    as Hsteps.
  pose proof (thread_step_msg (save (S fuel) env) i m1 w2) as Hm3.
  destruct (thread_step _ _ _ _) as [[m3 w3] out3].
  unfold res_world, res_msg in *. cbn [fst snd] in *.
  destruct out3; cbn [and_then fst snd]; [|done..].
  destruct (negb nq && new); [|done].
  assert (Hd : parents_ok (db_msg (res_world (dispatch (save (S fuel) env)
                                                env i m3 w3)))).
  { unfold dispatch.
    destruct (negb (has_option env "msg" "network_tags")); [done|].
    destruct (cfg_get env "msg" "network_tags") as [e|v]; [done|].
    destruct (length (parse_tag_list v) =? 0)%nat; [done|].
    destruct (format_origin_line env) as [e|origin]; [done|].
    apply (route_new_parents fuel env dp _ _ _ i _ m3 w3 s); try done.
    - by eapply wf_store_steps.
    - destruct Hm3 as [-> | ->]; done.
    - destruct Hm3 as [-> | ->]; done. }
  destruct (dispatch _ _ _ _ _) as [[m4 w4] out4].
  unfold res_world in *. cbn [fst snd] in *. by destruct out4.
Qed.

Lemma parents_ok_empty : parents_ok (db_msg empty_world).
Proof. intros c rc p Hc. simpl in Hc. by rewrite lookup_empty in Hc. Qed.

(** X27. Parent links are answered by child links and lead to older
    messages.  When the store has this property and a new message without
    children is saved whose parent, if it names one, is a stored message or
    the id the message is about to get, the store has it afterwards,
    however the save ends: whenever a record names [p] as its parent, [p]
    is a smaller id with a record that lists the first among its children.
    The empty store has the property; so the parent links of a store built
    by such saves never form a cycle. *)
Theorem parent_links_stay_answered :
  parents_ok (db_msg empty_world) ∧
  ∀ fuel env nq ct m w dp,
    cfg_get env "system" "datapath" = inr dp →
    wf_store w → parents_ok (db_msg w) →
    is_new m = true → children m = ∅ →
    (∀ p, parent m = Some p → p = next_id w ∨ p ∈ dom (db_msg w)) →
    parents_ok (db_msg (res_world (save (S (S fuel)) env nq ct m w))).
Proof.
  split; [apply parents_ok_empty|]. intros. by eapply save_new_parents.
Qed.

Lemma parent_links_stay_answered_witness :
  wf_store (res_world saved_hello) ∧
  parents_ok (db_msg (res_world saved_hello)) ∧
  is_new msg_reply = true ∧ children msg_reply = ∅ ∧
  parents_ok (db_msg (res_world saved_reply)).
Proof.
  assert (Hok1 : parents_ok (db_msg (res_world saved_hello))).
  { apply (save_new_parents 1 demo_env false None msg_hello empty_world
             "/var/x84"%string eq_refl wf_store_empty parents_ok_empty
             eq_refl eq_refl). intros p Hp. discriminate Hp. }
  assert (Hpar : ∀ p, parent msg_reply = Some p →
                      p = next_id (res_world saved_hello) ∨
                      p ∈ dom (db_msg (res_world saved_hello))).
  { intros p [= <-]. right. apply elem_of_dom.
    exists (res_msg saved_hello). vm_compute. reflexivity. }
  split; [apply wf_saved_hello|]. split; [exact Hok1|].
  split; [reflexivity|]. split; [reflexivity|].
  exact (proj2 parent_links_stay_answered 1%nat demo_env false None msg_reply
           (res_world saved_hello) "/var/x84"%string eq_refl
           wf_saved_hello Hok1 eq_refl eq_refl Hpar).
Defined.

(** ** Saves end on a store built from replies *)

(** Below the id [i], parent links that lead to smaller ids with a record
    are followed to their end within as many links as the id they start
    from. *)
Lemma chain_ends_below (d : gmap Z Msg) (i : Z) :
  (∀ k, k ∈ dom d → 0 ≤ k) →
  (∀ c rc p, c < i → d !! c = Some rc → parent rc = Some p →
             p < c ∧ is_Some (d !! p)) →
  ∀ (n : nat) c rc,
    c ≤ Z.of_nat n → c < i → d !! c = Some rc →
    chain_ends d c n (parent rc).
Proof.
  intros Hpos Hok. induction n as [|n IH]; intros c rc Hn Hci Hc;
    (destruct (parent rc) as [p|] eqn:Hp; [|apply chain_none]);
    destruct (Hok c rc p Hci Hc Hp) as (Hlt & rp & Hrp);
    pose proof (Hpos p (elem_of_dom_2 _ _ _ Hrp)).
  - lia.
  - apply (chain_link d c n p rp Hrp). apply IH; [lia|lia|done].
Qed.

(** A save ends when the parent links end within the fuel. *)
Lemma save_ends (fuel : nat) (env : Env) (nq : bool) (ct : option time)
    (m : Msg) (w : World) (h : nat) :
  wf_store w →
  ∀ new i m1 w1,
    persist env ct m w = (new, i, m1, w1) →
    chain_ends (db_msg w1) i h (parent m) →
    (h + 2 ≤ fuel)%nat →
    res_out (save fuel env nq ct m w) ≠ OutOfFuel.
Proof.
  intros Hwf new i m1 w1 Hper Hchain Hfuel.
  destruct fuel as [|fuel]; [lia|].
  destruct (cfg_get env "system" "datapath") as [e|dp] eqn:Hdp.
  { rewrite save_S. unfold save_body. by rewrite Hdp. }
  destruct (save_run fuel env nq ct m w dp Hwf Hdp new i m1 w1 Hper)
    as (Hwf2 & Hdb2 & _ & _).
  rewrite save_S. unfold save_body. rewrite Hdp, Hper.
  apply persist_spec in Hper
    as (_ & Hi & [s Hs] & _ & _ & Hpar & _ & _ & Hdb & _).
  set (w2 := reconcile i m1 w1) in *.
  assert (Hx2 : db_msg w2 !! i = Some m1).
  { rewrite Hdb2. apply lookup_insert_eq. }
  assert (Hdb21 : db_msg w2 = db_msg w1) by congruence.
  rewrite <- Hpar in Hchain.
  assert (Hout : res_out (thread_step (save fuel env) i m1 w2) ≠ OutOfFuel).
  { eapply (thread_step_ends fuel env h); [|done|done| |lia].
    - intros h' y w' j s' ? ? ? ? ?. by eapply (resave_ends env fuel h').
    - by rewrite Hdb21. }
  pose proof (thread_step_steps (save fuel env)
                (save_child_steps fuel env false None) i m1 w2 Hwf2 Hx2)
    as Hsteps.
  pose proof (thread_step_msg (save fuel env) i m1 w2) as Hm3.
  destruct (thread_step _ _ _ _) as [[m3 w3] out3].
  unfold res_world, res_msg, res_out in *. cbn [fst snd] in *.
  destruct out3; cbn [and_then fst snd]; [|done..].
  assert (Hd : res_out (if negb nq && new
                        then dispatch (save fuel env) env i m3 w3
                        else (m3, w3, Returned)) ≠ OutOfFuel).
  { destruct (negb nq && new); [|done]. unfold dispatch.
    repeat case_match; try done; apply route_ends; intros w' Hw';
      (eapply (resave_ends env fuel h);
       [eapply wf_store_eq; [eapply wf_store_steps; [exact Hsteps|exact Hwf2]
                            |exact Hw']
       |destruct Hm3 as [-> | ->]; exact Hi
       |destruct Hm3 as [-> | ->]; exact Hs
       |
       |lia]);
      (destruct Hm3 as [-> | ->]; [|apply chain_none]);
      (eapply chain_ends_le; [|exact Hchain]);
      (eapply link_le_insert; [|rewrite Hdb; apply lookup_insert_eq|by left]);
      rewrite Hw', <- Hdb21; by apply link_le_steps. }
  destruct (if negb nq && new then _ else _) as [[m4 w4] out4].
  unfold res_out in Hd. cbn [snd] in Hd. by destruct out4.
Qed.

(** X28. Saves end on a store built from replies.  When the ids of the
    store are not negative and every parent link leads to a smaller id that
    has a record, as in a store built by saving new messages that reply to
    stored ones, the save of a new message whose parent, if it names one,
    is stored or is the id it is about to get ends: it returns or raises,
    within a call stack of the next id plus two frames. *)
Theorem save_ends_on_built_store (fuel : nat) (env : Env) (nq : bool)
    (ct : option time) (m : Msg) (w : World) :
  wf_store w → parents_ok (db_msg w) →
  (∀ k, k ∈ dom (db_msg w) → 0 ≤ k) →
  is_new m = true →
  (∀ p, parent m = Some p → p = next_id w ∨ p ∈ dom (db_msg w)) →
  (Z.to_nat (next_id w) + 2 ≤ fuel)%nat →
  res_out (save fuel env nq ct m w) ≠ OutOfFuel.
Proof.
  intros Hwf Hok Hpos Hnew Hpar Hfuel.
  destruct (persist env ct m w) as [[[new i] m1] w1] eqn:Hper.
  apply (save_ends fuel env nq ct m w (Z.to_nat (next_id w)) Hwf
           new i m1 w1 Hper); [|done].
  apply persist_spec in Hper
    as (Hn & _ & _ & _ & _ & _ & _ & _ & Hdb & _ & _ & _ & _ & _ & Hst).
  rewrite Hn, Hnew in Hst. destruct Hst as [-> _].
  assert (Hnone : db_msg w !! next_id w = None).
  { apply not_elem_of_dom. intros Hin. apply next_id_fresh in Hin. lia. }
  destruct (parent m) as [p|] eqn:Hp; [|apply chain_none].
  destruct (Hpar p eq_refl) as [-> | Hin]; [apply chain_self|].
  pose proof (next_id_fresh w p Hin) as Hlt.
  pose proof (Hpos p Hin) as Hp0.
  apply elem_of_dom in Hin as [rp Hrp].
  assert (Hrp1 : db_msg w1 !! p = Some rp).
  { rewrite Hdb, lookup_insert_ne by lia. done. }
  destruct (Z.to_nat (next_id w)) as [|n] eqn:Hn'; [exfalso; lia|].
  apply (chain_link _ _ n p rp Hrp1).
  apply (chain_ends_below (db_msg w1) (next_id w)); [| |lia|lia|done].
  - intros k Hk. rewrite Hdb, dom_insert_L in Hk.
    apply elem_of_union in Hk as [Hk|Hk]; [|by apply Hpos].
    apply elem_of_singleton in Hk as ->. lia.
  - intros c rc p0 Hc Hrc Hp0'. rewrite Hdb, lookup_insert_ne in Hrc by lia.
    destruct (Hok c rc p0 Hrc Hp0') as (Hlt0 & rp0 & Hrp0 & _).
    split; [done|]. exists rp0. rewrite Hdb, lookup_insert_ne by lia. done.
Qed.

Lemma save_ends_on_built_store_witness :
  wf_store (res_world saved_hello) ∧
  parents_ok (db_msg (res_world saved_hello)) ∧
  is_new msg_reply = true ∧
  (Z.to_nat (next_id (res_world saved_hello)) + 2 ≤ 3)%nat ∧
  res_out saved_reply ≠ OutOfFuel.
Proof.
  assert (Hok1 : parents_ok (db_msg (res_world saved_hello))).
  { apply (save_new_parents 1 demo_env false None msg_hello empty_world
             "/var/x84"%string eq_refl wf_store_empty parents_ok_empty
             eq_refl eq_refl). intros p Hp. discriminate Hp. }
  assert (Hdom : dom (db_msg (res_world saved_hello)) = {[0]}).
  { vm_compute. reflexivity. }
  assert (Hnext : next_id (res_world saved_hello) = 1)
    by (vm_compute; reflexivity).
  assert (Hpos : ∀ k, k ∈ dom (db_msg (res_world saved_hello)) → 0 ≤ k).
  { intros k Hk. rewrite Hdom in Hk. apply elem_of_singleton in Hk. lia. }
  assert (Hpar : ∀ p, parent msg_reply = Some p →
                      p = next_id (res_world saved_hello) ∨
                      p ∈ dom (db_msg (res_world saved_hello))).
  { intros p [= <-]. right. rewrite Hdom. by apply elem_of_singleton. }
  assert (Hfuel : (Z.to_nat (next_id (res_world saved_hello)) + 2 ≤ 3)%nat)
    by (rewrite Hnext; lia).
  split; [apply wf_saved_hello|]. split; [exact Hok1|].
  split; [reflexivity|]. split; [exact Hfuel|].
  exact (save_ends_on_built_store 3 demo_env false None msg_reply
           (res_world saved_hello) wf_saved_hello Hok1 Hpos eq_refl Hpar
           Hfuel).
Defined.

(** ** Stores built from replies *)

(** X29. The invariants of a store built from replies: every record sits
    under its own id with a save time; its ids are 0 to [n]-1 for some
    [n]; the tag table lists an id under a tag exactly when the record of
    that id carries the tag; every child link is answered by a parent link
    and every parent link by a child link, and parent links lead to smaller
    ids.  None of this depends on how the saves ended. *)
Theorem built_store_invariants (env : Env) (w : World) (dp : string) :
  cfg_get env "system" "datapath" = inr dp →
  built env w →
  wf_store w ∧
  (∃ n : nat, dom (db_msg w) = list_to_set (Z.of_nat <$> seq 0 n)) ∧
  tag_consistent w ∧
  links_ok (db_msg w) ∧
  parents_ok (db_msg w).
Proof.
  intros Hdp. induction 1 as [|fuel nq ct m w _ IH Hnew Hch Hpar].
  - split_and!.
    + apply wf_store_empty.
    + exists 0%nat. simpl. apply dom_empty_L.
    + apply tag_consistent_empty.
    + apply links_ok_empty.
    + apply parents_ok_empty.
  - destruct IH as (Hwf & [n Hdom] & Hc & Hl & Hp). split_and!.
    + by apply save_wf.
    + exists (S n). rewrite (save_dom _ _ _ _ _ _ dp Hwf Hdp).
      pose proof (persist_spec env ct m w) as Hspec.
      destruct (persist env ct m w) as [[[new i] m1] w1].
      destruct (Hspec new i m1 w1 eq_refl)
        as (Hn & _ & _ & _ & _ & _ & _ & _ & _ & _ & _ & _ & _ & _ & Hst).
      rewrite Hn, Hnew in Hst. destruct Hst as [-> _]. cbn [fst snd].
      by rewrite (next_id_count w n Hdom), list_to_set_seq_S, Hdom.
    + by apply save_tag_consistent.
    + by apply save_new_links.
    + by eapply save_new_parents.
Qed.

Lemma built_saved_reply : built demo_env (res_world saved_reply).
Proof.
  apply (built_save demo_env 1 false None msg_reply (res_world saved_hello));
    [|reflexivity|reflexivity|].
  - apply (built_save demo_env 1 false None msg_hello empty_world);
      [apply built_empty|reflexivity|reflexivity|].
    intros p Hp. discriminate Hp.
  - intros p [= <-]. right. apply elem_of_dom.
    exists (res_msg saved_hello). vm_compute. reflexivity.
Qed.

Lemma built_store_invariants_witness :
  cfg_get demo_env "system" "datapath" = inr "/var/x84"%string ∧
  tag_consistent (res_world saved_reply) ∧
  links_ok (db_msg (res_world saved_reply)) ∧
  parents_ok (db_msg (res_world saved_reply)).
Proof.
  destruct (built_store_invariants demo_env (res_world saved_reply)
              "/var/x84"%string eq_refl built_saved_reply)
    as (_ & _ & Hc & Hl & Hp).
  split; [reflexivity|]. split; [exact Hc|]. split; [exact Hl|exact Hp].
Defined.
